(** * go-livepeer: the Ethereum client ([eth]) and the transcoder ([core])

    A shallow embedding of the orchestration code of the [eth] package
    (contract binding resolution, receipt polling, event watching, the
    approve-then-spend chain, the transaction operations) and of the
    transcoder entry points of [core/transcoder.go] ([parseURI],
    [recoverFromPanic], [Transcode]), together with the properties that
    the design document states about them.

    Layout: the Go runtime pieces the code relies on ([Go]); the two
    packages ([Core], [Eth]); the vocabulary of the statements ([Text],
    [Bindings], [Traces]) and the concrete nodes used as examples
    ([Scenarios]); then the properties. *)

From Stdlib Require Import ZArith List String Ascii Bool Lia.
From Stdlib Require Import Strings.Byte.
Import ListNotations.

Set Implicit Arguments.

(* ================================================================== *)
(** * The Go runtime, as far as the code uses it *)
(* ================================================================== *)

Module Go.

Local Open Scope Z_scope.

(** ** Errors

    Go's [error] interface values.  [fmt.Errorf] and [errors.New] carry
    their format string and the formatted argument; [External] stands for
    an error made outside this repository (node, keystore, ABI decoder,
    ffmpeg); [NumError] is [*strconv.NumError]; [PathError] is the
    [*fs.PathError] of a failed file operation, with its [errno];
    [RuntimeError] is a [runtime.Error]; [UnrecoverableError] is the
    struct of [core/transcoder.go] that embeds an [error]. *)

Inductive NumErrKind := ErrSyntax | ErrRange | ErrBase | ErrBitSize.

Inductive error : Type :=
| NotFound                                   (* ethereum.NotFound *)
| Errorf (format : string) (args : list string)   (* fmt.Errorf, errors.New *)
| External (code : Z)
| NumError (func : string) (num : string) (kind : NumErrKind)
| PathError (op : string) (path : string) (errno : Z)
| RuntimeError (msg : string)
| UnrecoverableError (err : error).

(** A call that returns [(value, err)] and is tested with [err != nil]. *)
Inductive Result (A : Type) : Type :=
| Ok (a : A)
| Err (err : error).
Arguments Ok {A} a.
Arguments Err {A} err.

(** ** [interface{}] values handed to [panic]

    [panic] takes any value: the nil interface, a value whose dynamic type
    implements [error], or a value of another type (a string, a number). *)

Inductive any : Type :=
| AnyNil
| AnyError (err : error)
| AnyOther (repr : string).

(** A computation that either returns or panics. *)
Inductive Panics (A : Type) : Type :=
| Returned (a : A)
| Panicked (v : any).
Arguments Returned {A} a.
Arguments Panicked {A} v.

Definition pbind {A B} (m : Panics A) (k : A -> Panics B) : Panics B :=
  match m with
  | Returned a => k a
  | Panicked v => Panicked v
  end.

Notation "x <-! m ;; k" := (pbind m (fun x => k))
  (at level 61, m at next level, right associativity).
Notation "' pat <-! m ;; k" := (pbind m (fun x => match x with pat => k end))
  (at level 61, pat pattern, m at next level, right associativity).

(** What [recover()] returns when called directly by a deferred function
    (Go language specification, "Handling panics"): nil when the goroutine
    is not panicking and also when the argument of [panic] was nil;
    otherwise the panic value.  The toolchain the repository builds with
    is Go 1.17.6 ([.github/workflows]), where [panic(nil)] is not replaced
    by a [*runtime.PanicNilError]. *)
Definition recover {A} (m : Panics A) : any :=
  match m with
  | Returned _ => AnyNil
  | Panicked v => v
  end.

(** ** Durations (time.Duration is a count of nanoseconds) *)

Definition Duration := Z.
Definition Second : Duration := 1000000000.

(** ** [strings.Split] with a one-byte separator *)

Fixpoint Split (s : string) (sep : ascii) : list string :=
  match s with
  | EmptyString => [EmptyString]
  | String c s' =>
      if Ascii.eqb c sep then EmptyString :: Split s' sep
      else match Split s' sep with
           | p :: ps => String c p :: ps
           | [] => [String c EmptyString]
           end
  end.

(** ** [strconv.ParseUint]

    [strconv.ParseUint(s, base, bitSize)] of the Go library.  Base 0 takes
    the base from the prefix of the text ("0b", "0o", "0x", a leading "0"
    for octal, otherwise 10) and allows underscores between digits; bit
    size 0 stands for the size of [int], 64 bits on the platforms the
    repository builds for.  [n] is a [uint64], so the multiplication and
    the addition wrap at 2^64. *)

Definition maxUint64 : Z := 18446744073709551615.
Definition wrap64 (z : Z) : Z := z mod 18446744073709551616.
Definition IntSize : Z := 64.

Definition byteOf (c : ascii) : Z := Z.of_N (N_of_ascii c).

Definition lower (c : Z) : Z := Z.lor c 32.   (* c | ('x' - 'X') *)

Definition digitOf (c : Z) : option Z :=
  if (48 <=? c) && (c <=? 57) then Some (c - 48)
  else if (97 <=? lower c) && (lower c <=? 122) then Some (lower c - 97 + 10)
  else None.

(** The loop over the bytes of the text: the number read, whether an
    underscore was skipped, and the error that ended the loop. *)
Fixpoint parseUintLoop (base0 : bool) (base cutoff maxVal : Z) (s : string)
    (underscores : bool) (n : Z) : Z * bool * option NumErrKind :=
  match s with
  | EmptyString => (n, underscores, None)
  | String c s' =>
      if (byteOf c =? 95) && base0 then
        parseUintLoop base0 base cutoff maxVal s' true n
      else
        match digitOf (byteOf c) with
        | None => (0, underscores, Some ErrSyntax)
        | Some d =>
            if base <=? d then (0, underscores, Some ErrSyntax)
            else if cutoff <=? n then (maxVal, underscores, Some ErrRange)
            else
              let n := wrap64 (n * base) in
              let n1 := wrap64 (n + d) in
              if (n1 <? n) || (maxVal <? n1) then (maxVal, underscores, Some ErrRange)
              else parseUintLoop base0 base cutoff maxVal s' underscores n1
        end
  end.

(** [underscoreOK]: underscores only between digits, or between a base
    prefix and a digit.  [saw] is the last character seen: '^' (94) at the
    beginning, '0' (48) for a digit or a base prefix, '_' (95) for an
    underscore, '!' (33) for anything else. *)
Fixpoint underscoreOK_loop (hex : bool) (s : string) (saw : Z) : bool :=
  match s with
  | EmptyString => negb (saw =? 95)
  | String c s' =>
      let b := byteOf c in
      if ((48 <=? b) && (b <=? 57))
         || (hex && (97 <=? lower b) && (lower b <=? 102))
      then underscoreOK_loop hex s' 48
      else if b =? 95 then
        if negb (saw =? 48) then false else underscoreOK_loop hex s' 95
      else if saw =? 95 then false
      else underscoreOK_loop hex s' 33
  end.

Definition isBasePrefix (b : Z) : bool :=
  (lower b =? 98) || (lower b =? 111) || (lower b =? 120).   (* b, o, x *)

Definition underscoreOK (s : string) : bool :=
  let s := match s with
           | String c s' =>
               if (byteOf c =? 45) || (byteOf c =? 43) then s' else s   (* - + *)
           | EmptyString => s
           end in
  match s with
  | String c0 (String c1 s') =>
      if (byteOf c0 =? 48) && isBasePrefix (byteOf c1)
      then underscoreOK_loop (lower (byteOf c1) =? 120) s' 48
      else underscoreOK_loop false s 94
  | _ => underscoreOK_loop false s 94
  end.

(** The base and the digits to read for base 0: [s] is not empty. *)
Definition basePrefix (s : string) : Z * string :=
  match s with
  | String c0 rest =>
      if byteOf c0 =? 48 then
        match rest with
        | String c1 (String c2 rest') =>
            if lower (byteOf c1) =? 98 then (2, String c2 rest')
            else if lower (byteOf c1) =? 111 then (8, String c2 rest')
            else if lower (byteOf c1) =? 120 then (16, String c2 rest')
            else (8, rest)
        | _ => (8, rest)
        end
      else (10, s)
  | EmptyString => (10, s)
  end.

Definition ParseUint (s : string) (base bitSize : Z) : Z * option error :=
  match s with
  | EmptyString => (0, Some (NumError "ParseUint" s ErrSyntax))
  | _ =>
      let base0 := base =? 0 in
      let s0 := s in
      match (if (2 <=? base) && (base <=? 36) then Some (base, s)
             else if base =? 0 then Some (basePrefix s)
             else None) with
      | None => (0, Some (NumError "ParseUint" s0 ErrBase))
      | Some (base, s) =>
          match (if bitSize =? 0 then Some IntSize
                 else if (bitSize <? 0) || (64 <? bitSize) then None
                 else Some bitSize) with
          | None => (0, Some (NumError "ParseUint" s0 ErrBitSize))
          | Some bitSize =>
              let cutoff := maxUint64 / base + 1 in
              let maxVal := wrap64 (Z.shiftl 1 bitSize - 1) in
              match parseUintLoop base0 base cutoff maxVal s false 0 with
              | (n, _, Some k) => (n, Some (NumError "ParseUint" s0 k))
              | (n, underscores, None) =>
                  if underscores && negb (underscoreOK s0)
                  then (0, Some (NumError "ParseUint" s0 ErrSyntax))
                  else (n, None)
              end
          end
      end
  end.

(** ** [common.LeftPadBytes] and [common.BytesToHash] of go-ethereum *)

Definition LeftPadBytes (slice : list byte) (l : nat) : list byte :=
  if (l <=? List.length slice)%nat then slice
  else repeat x00 (l - List.length slice) ++ slice.

Definition HashLength : nat := 32.

Definition BytesToHash (b : list byte) : list byte :=
  let b := if (HashLength <? List.length b)%nat
           then skipn (List.length b - HashLength) b else b in
  repeat x00 (HashLength - List.length b) ++ b.

(** [Hash.Hex()]: "0x" and two lower-case hexadecimal digits per byte. *)
Definition hexDigit (n : N) : ascii :=
  ascii_of_N (if (n <? 10)%N then 48 + n else 87 + n)%N.

Fixpoint hexOf (b : list byte) : string :=
  match b with
  | [] => EmptyString
  | x :: rest =>
      let n := Byte.to_N x in
      String (hexDigit (n / 16)%N) (String (hexDigit (n mod 16)%N) (hexOf rest))
  end.

Definition Hex (b : list byte) : string := String "0" (String "x" (hexOf b)).

End Go.

(* ================================================================== *)
(** * Package [core]: [core/transcoder.go] *)
(* ================================================================== *)

Module Core.
Import Go.
Local Open Scope Z_scope.
Local Open Scope string_scope.

(** ** Data of the transcoder (the parts of [ffmpeg] and [core] that
    [Transcode] touches) *)

Inductive Acceleration := Software | Nvidia.

Record VideoProfile := { ProfileName : string }.

Record SceneClassificationProfile := {
  ModelPath : string;
  Input : string;
  Output : string
}.

(** [ffmpeg.DetectorProfile] is an interface.  An element of a
    [[]ffmpeg.DetectorProfile] is the nil interface, or holds a
    [*ffmpeg.SceneClassificationProfile] of lpms (a nil pointer or a
    pointer to a profile; its [Type()] is [SceneClassification] and does
    not read the receiver), or holds a value of another implementation,
    whose [Type()] returns the type it likes or panics. *)
Inductive DetectorType := SceneClassification | OtherDetectorType (n : Z).

Inductive DetectorProfile :=
| NilDetectorProfile
| NilSceneClassificationPtr
| SceneClassificationPtr (p : SceneClassificationProfile)
| ForeignDetector (ty : Panics DetectorType).

Definition nilPointerPanic : any :=
  AnyError (RuntimeError "invalid memory address or nil pointer dereference").

(** The method call [profiles[i].Type()]; on the nil interface it is a nil
    dereference. *)
Definition DetectorProfile_Type (p : DetectorProfile) : Panics DetectorType :=
  match p with
  | NilDetectorProfile => Panicked nilPointerPanic
  | NilSceneClassificationPtr => Returned SceneClassification
  | SceneClassificationPtr _ => Returned SceneClassification
  | ForeignDetector ty => ty
  end.

Record TranscodeOptionsIn := {
  in_Fname : string;
  in_Accel : Acceleration;
  in_Device : string
}.

Record TranscodeOptions := {
  Oname : string;
  Profile : option VideoProfile;
  Detector : option SceneClassificationProfile;
  Accel : Acceleration;
  AudioEncoder : string;
  CalcSign : bool
}.

Record MediaInfo := {
  Frames : Z;
  mi_Pixels : Z;
  DetectData : Z
}.

Record TranscodeResults := {
  Decoded : MediaInfo;
  Encoded : list MediaInfo
}.

Record TranscodedSegmentData := {
  Data : list byte;
  seg_Pixels : Z;
  PHash : option (list byte)
}.

Record TranscodeData := {
  Segments : list TranscodedSegmentData;
  Pixels : Z;
  Detections : list Z
}.

Record SegTranscodingMetadata := {
  Fname : string;
  Profiles : list VideoProfile;
  CalcPerceptualHash : bool;
  DetectorEnabled : bool;
  DetectorProfiles : list DetectorProfile;
  Duration_ : Z
}.

Record LocalTranscoder := { workDir : string }.
Record NvidiaTranscoder := { device : string }.

(** What [ioutil.ReadFile] returns for each name. *)
Definition FileSystem := string -> Result (list byte).

Definition ENOENT : Z := 2.

(** What lies outside the repository: the ffmpeg binding (which returns,
    fails or panics), the metrics package, the file system as it stands
    when ffmpeg has returned ([ReadFile]), the outcome of [os.Remove] on a
    file that has just been read ([Remove]: nil when the file is gone),
    and the random names of [common.RandName]. *)
Record Externals := {
  Transcode3 : TranscodeOptionsIn -> list TranscodeOptions ->
               Panics (option TranscodeResults * option error);
  session_Transcode : TranscodeOptionsIn -> list TranscodeOptions ->
               Panics (option TranscodeResults * option error);
  monitor_Enabled : bool;
  SegmentTranscoded : Z -> Panics unit;
  ReadFile : FileSystem;
  Remove : string -> option error;
  RandName : nat -> string;
  WorkDir : string;
  DSceneAdultSoccer : SceneClassificationProfile
}.

Definition NewUnrecoverableError (err : error) : error := UnrecoverableError err.

(** [parseURI]: the manifest id and the sequence number of a segment URI.
    On the early return both results still hold their zero values. *)
Definition parseURI (uri : string) : string * Z * option error :=
  let mid := "" in
  let seqNo := 0 in
  let parts := Split uri "/" in
  if (List.length parts <? 3)%nat then (mid, seqNo, Some (Errorf "BadURI" []))
  else
    let mid := nth (List.length parts - 2) parts "" in
    let parts := Split (nth (List.length parts - 1) parts "") "." in
    let '(seqNo, err) := ParseUint (nth 0 parts "") 10 64 in
    (mid, seqNo, err).


(** [profilesToTranscodeOptions]: one output per profile, written to a
    fresh temporary name. *)
Fixpoint profilesToTranscodeOptions_from (x : Externals) (i : nat)
    (workDir : string) (accel : Acceleration) (profiles : list VideoProfile)
    (calcPHash : bool) : list TranscodeOptions :=
  match profiles with
  | [] => []
  | p :: rest =>
      {| Oname := workDir ++ "/out_" ++ RandName x i ++ ".tempfile";
         Profile := Some p;
         Detector := None;
         Accel := accel;
         AudioEncoder := "copy";
         CalcSign := calcPHash |}
      :: profilesToTranscodeOptions_from x (S i) workDir accel rest calcPHash
  end.

Definition profilesToTranscodeOptions (x : Externals) := profilesToTranscodeOptions_from x 0.

(** The zero value of [ffmpeg.TranscodeOptions] ([var o]). *)
Definition zeroTranscodeOptions : TranscodeOptions :=
  {| Oname := ""; Profile := None; Detector := None; Accel := Software;
     AudioEncoder := ""; CalcSign := false |}.

(** [detectorsToTranscodeOptions].  [profiles[i].Type()] panics on a nil
    interface value; the type assertion of [profiles[i]] to
    [*ffmpeg.SceneClassificationProfile] panics with a
    [*runtime.TypeAssertionError] when the dynamic type is another one;
    the assignments to the fields of [classifier] panic when the pointer
    is nil.  (The assignments write into the profile of the caller; the
    option holds the same pointer, so it shows the fields as written.) *)
Fixpoint detectorsToTranscodeOptions (x : Externals) (workDir : string)
    (accel : Acceleration) (profiles : list DetectorProfile)
  : Panics (list TranscodeOptions) :=
  match profiles with
  | [] => Returned []
  | p :: rest =>
      o <-! (ty <-! DetectorProfile_Type p ;;
             match ty with
             | SceneClassification =>
                 match p with
                 | SceneClassificationPtr classifier =>
                     let classifier :=
                       {| ModelPath := ModelPath (DSceneAdultSoccer x);
                          Input := Input (DSceneAdultSoccer x);
                          Output := Output (DSceneAdultSoccer x) |} in
                     Returned {| Oname := ""; Profile := None;
                                 Detector := Some classifier;
                                 Accel := accel; AudioEncoder := "";
                                 CalcSign := false |}
                 | NilSceneClassificationPtr => Panicked nilPointerPanic
                 | NilDetectorProfile | ForeignDetector _ =>
                     Panicked (AnyError (RuntimeError "interface conversion"))
                 end
             | OtherDetectorType _ => Returned zeroTranscodeOptions
             end) ;;
      os <-! detectorsToTranscodeOptions x workDir accel rest ;;
      Returned (o :: os)
  end.

(** [os.Remove(name)]: when it succeeds, a later read of the name fails
    with "no such file or directory"; when it fails the file stays. *)
Definition removeFile (x : Externals) (fs : FileSystem) (name : string)
  : FileSystem :=
  match Remove x name with
  | None => fun n => if String.eqb n name then Err (PathError "open" n ENOENT)
                     else fs n
  | Some _ => fs
  end.

(** The loop of [resToTranscodeData] over [opts], reading [res.Encoded[i]]
    next to [opts[i]] (the lengths were compared before).  [fs] is the file
    system as the earlier turns of the loop have left it: an output is
    removed once it is read, its hash file once that is read. *)
Fixpoint resToTranscodeData_loop (x : Externals) (fs : FileSystem)
    (opts : list TranscodeOptions)
    (encoded : list MediaInfo) (segments : list TranscodedSegmentData)
    (detections : list Z)
  : Result (list TranscodedSegmentData * list Z) :=
  match opts, encoded with
  | o :: opts', e :: encoded' =>
      match Detector o with
      | None =>
          let oname := Oname o in
          match fs oname with
          | Err err => Err err
          | Ok data =>
              if CalcSign o then
                let sigfile := oname ++ ".bin" in
                match fs sigfile with
                | Err err => Err err
                | Ok s =>
                    let fs := removeFile x fs sigfile in
                    let segments :=
                      (segments ++ [{| Data := data; seg_Pixels := mi_Pixels e;
                                       PHash := Some s |}])%list in
                    let fs := removeFile x fs oname in
                    resToTranscodeData_loop x fs opts' encoded' segments detections
                end
              else
                let segments :=
                  (segments ++ [{| Data := data; seg_Pixels := mi_Pixels e;
                                   PHash := None |}])%list in
                let fs := removeFile x fs oname in
                resToTranscodeData_loop x fs opts' encoded' segments detections
          end
      | Some _ =>
          resToTranscodeData_loop x fs opts' encoded' segments
            (detections ++ [DetectData e])
      end
  | _, _ => Ok (segments, detections)
  end.

(** [resToTranscodeData]; a nil [res] is dereferenced at [res.Encoded]. *)
Definition resToTranscodeData (x : Externals) (res : option TranscodeResults)
    (opts : list TranscodeOptions) : Panics (option TranscodeData * option error) :=
  match res with
  | None => Panicked nilPointerPanic
  | Some res =>
      if negb (List.length (Encoded res) =? List.length opts)%nat then
        Returned (None, Some (Errorf "lengths of results and options different" []))
      else
        match resToTranscodeData_loop x (ReadFile x) opts (Encoded res) [] [] with
        | Err err => Returned (None, Some err)
        | Ok (segments, detections) =>
            Returned (Some {| Segments := segments;
                              Pixels := mi_Pixels (Decoded res);
                              Detections := detections |}, None)
        end
  end.

Definition isNil {A} (o : option A) : bool :=
  match o with None => true | Some _ => false end.

(** The statements of [LocalTranscoder.Transcode] after the [defer]. *)
Definition LocalTranscoder_Transcode_body (x : Externals) (lt : LocalTranscoder)
    (md : SegTranscodingMetadata) : Panics (option TranscodeData * option error) :=
  let in_ := {| in_Fname := Fname md; in_Accel := Software; in_Device := "" |} in
  let profiles := Profiles md in
  let opts := profilesToTranscodeOptions x (workDir lt) Software profiles
                (CalcPerceptualHash md) in
  opts <-! (if DetectorEnabled md then
              ds <-! detectorsToTranscodeOptions x (workDir lt) Software
                       (DetectorProfiles md) ;;
              Returned (opts ++ ds)%list
            else Returned opts) ;;
  let '(_, seqNo, parseErr) := parseURI (Fname md) in
  '(res, err) <-! Transcode3 x in_ opts ;;
  match err with
  | Some err => Returned (None, Some err)
  | None =>
      _ <-! (if monitor_Enabled x && isNil parseErr
             then SegmentTranscoded x seqNo else Returned tt) ;;
      resToTranscodeData x res opts
  end.

(** The statements of [NvidiaTranscoder.Transcode] after the [defer]. *)
Definition NvidiaTranscoder_Transcode_body (x : Externals) (nv : NvidiaTranscoder)
    (md : SegTranscodingMetadata) : Panics (option TranscodeData * option error) :=
  let in_ := {| in_Fname := Fname md; in_Accel := Nvidia; in_Device := device nv |} in
  let profiles := Profiles md in
  let out := profilesToTranscodeOptions x (WorkDir x) Nvidia profiles
               (CalcPerceptualHash md) in
  out <-! (if DetectorEnabled md then
             ds <-! detectorsToTranscodeOptions x (WorkDir x) Nvidia
                      (DetectorProfiles md) ;;
             Returned (out ++ ds)%list
           else Returned out) ;;
  let '(_, seqNo, parseErr) := parseURI (Fname md) in
  '(res, err) <-! session_Transcode x in_ out ;;
  match err with
  | Some err => Returned (None, Some err)
  | None =>
      _ <-! (if monitor_Enabled x && isNil parseErr
             then SegmentTranscoded x seqNo else Returned tt) ;;
      resToTranscodeData x res out
  end.

(** [recoverFromPanic(&retErr)], run as a deferred call of a function whose
    statements ended as [running]: the new value of [*retErr]. *)
Definition recoverFromPanic {A} (running : Panics A) (retErr : option error)
  : option error :=
  match recover running with
  | AnyNil => retErr
  | AnyError err => Some (NewUnrecoverableError err)
  | AnyOther _ =>
      Some (NewUnrecoverableError (Errorf "unrecoverable transcoding failure" []))
  end.

(** A function with the named results [(td, retErr)] and
    [defer recoverFromPanic(&retErr)] as its first statement.  A [return]
    assigns the results before the deferred call runs; a panic leaves them
    nil, and the call to [recover] stops it, so the function returns its
    named results. *)
Definition withRecover (body : Panics (option TranscodeData * option error))
  : option TranscodeData * option error :=
  let '(td, retErr) := match body with
                       | Returned r => r
                       | Panicked _ => (None, None)
                       end in
  (td, recoverFromPanic body retErr).

Definition LocalTranscoder_Transcode (x : Externals) (lt : LocalTranscoder)
    (md : SegTranscodingMetadata) : option TranscodeData * option error :=
  withRecover (LocalTranscoder_Transcode_body x lt md).

Definition NvidiaTranscoder_Transcode (x : Externals) (nv : NvidiaTranscoder)
    (md : SegTranscodingMetadata) : option TranscodeData * option error :=
  withRecover (NvidiaTranscoder_Transcode_body x nv md).

End Core.

(* ================================================================== *)
(** * Package [eth]: the client of the protocol contracts *)
(* ================================================================== *)

Module Eth.
Import Go.
Local Open Scope string_scope.
Local Open Scope Z_scope.
Local Open Scope list_scope.

(** ** Data *)

Definition Address := list byte.     (* common.Address: 20 bytes *)
Definition Hash := list byte.        (* common.Hash: 32 bytes *)

Definition zeroAddress : Address := repeat x00 20.

Record Account := { acc_Address : Address }.
Record TransactOpts := { From : Address }.

(** A bound contract (address and ABI) and a session over it. *)
Record Contract := { boundAt : Address }.
Record Session := {
  session_Contract : Contract;
  session_TransactOpts : TransactOpts
}.

Record Log := {
  log_Address : Address;
  log_Topics : list Hash;
  log_Data : list byte;
  log_BlockNumber : Z;
  log_TxHash : Hash;
  Removed : bool
}.

(** [types.Log{}] *)
Definition zeroLog : Log :=
  {| log_Address := zeroAddress; log_Topics := []; log_Data := [];
     log_BlockNumber := 0; log_TxHash := repeat x00 32; Removed := false |}.

Record Transaction := { tx_Hash : Hash; tx_Gas : Z }.

Record Receipt := {
  rcpt_TxHash : Hash;
  GasUsed : Z;
  rcpt_BlockNumber : Z;
  rcpt_Logs : list Log
}.

Record FilterQuery := {
  Addresses : list Address;
  Topics : list (list Hash)
}.

(** The calls of the contract sessions that sign and send a transaction. *)
Inductive TxCall :=
| RoundsManager_InitializeRound
| BondingManager_Transcoder (blockRewardCut feeShare pricePerSegment : Z)
| BondingManager_Bond (amount : Z) (toAddr : Address)
| BondingManager_Reward
| JobsManager_Deposit (amount : Z)
| JobsManager_Job (streamId transcodingOptions : string) (maxPricePerSegment : Z)
| JobsManager_ClaimWork (jobId : Z) (segmentRange : Z * Z) (claimRoot : list byte)
| JobsManager_Verify (jobId claimId segmentNumber : Z)
    (dataHash transcodedDataHash : string) (broadcasterSig proof : list byte)
| JobsManager_DistributeFees (jobId claimId : Z)
| Token_Transfer (toAddr : Address) (amount : Z)
| Token_Approve (toAddr : Address) (amount : Z).

Inductive ABIDoc := LivepeerTokenABI | JobsManagerABI.

(** [Client].  The [backend] field is the [World] below, passed to every
    function; the two root sessions are set by the only constructor, the
    three manager sessions are pointers that stay nil until [SetManagers]
    sets them. *)
Record Client := {
  account : Account;
  keyStore : string;
  transactOpts : TransactOpts;
  protocolAddr : Address;
  tokenAddr : Address;
  bondingManagerAddr : Address;
  jobsManagerAddr : Address;
  roundsManagerAddr : Address;
  protocolSession : Session;
  tokenSession : Session;
  bondingManagerSession : option Session;
  jobsManagerSession : option Session;
  roundsManagerSession : option Session;
  rpcTimeout : Duration;
  eventTimeout : Duration
}.

(** ** The world outside the process

    The node behind [ethclient.Client], the keystore, the generated
    contract bindings, the hash function, the scheduler's choice in a
    [select] whose cases become ready at the same instant, and the pace of
    the clock. *)
Record World := {
  nowCost : Duration;       (* time between two successive clock readings *)
  rpcCost : Duration;       (* time one call to the node takes *)
  selectTie : bool;         (* true: the log case wins a tie with the timer *)
  Keccak256Hash : string -> Hash;
  abi_JSON : ABIDoc -> Result (string -> Hash);     (* event name to event id *)
  keyStore_Export : Account -> string -> Result (list byte);
  NewTransactor : list byte -> string -> Result TransactOpts;
  NewLivepeerToken : Address -> Result Contract;
  NewLivepeerProtocol : Address -> Result Contract;
  NewBondingManager : Address -> Result Contract;
  NewJobsManager : Address -> Result Contract;
  NewRoundsManager : Address -> Result Contract;
  Registry : Session -> Hash -> Result Address;
  SubscribeFilterLogs : FilterQuery -> option error;
  approvalLogs : list (Z * Log);   (* what the Approval subscription delivers, and when *)
  transact : Session -> TxCall -> Result Transaction;
  TransactionReceipt : nat -> Hash -> option Receipt * option error
                            (* the answer to the n-th receipt request *)
}.

(** ** Field updates of [*Client] *)

Definition set_bondingManagerAddr (a : Address) (c : Client) : Client :=
  {| account := account c; keyStore := keyStore c; transactOpts := transactOpts c;
     protocolAddr := protocolAddr c; tokenAddr := tokenAddr c;
     bondingManagerAddr := a;
     jobsManagerAddr := jobsManagerAddr c; roundsManagerAddr := roundsManagerAddr c;
     protocolSession := protocolSession c; tokenSession := tokenSession c;
     bondingManagerSession := bondingManagerSession c;
     jobsManagerSession := jobsManagerSession c;
     roundsManagerSession := roundsManagerSession c;
     rpcTimeout := rpcTimeout c; eventTimeout := eventTimeout c |}.

Definition set_jobsManagerAddr (a : Address) (c : Client) : Client :=
  {| account := account c; keyStore := keyStore c; transactOpts := transactOpts c;
     protocolAddr := protocolAddr c; tokenAddr := tokenAddr c;
     bondingManagerAddr := bondingManagerAddr c;
     jobsManagerAddr := a;
     roundsManagerAddr := roundsManagerAddr c;
     protocolSession := protocolSession c; tokenSession := tokenSession c;
     bondingManagerSession := bondingManagerSession c;
     jobsManagerSession := jobsManagerSession c;
     roundsManagerSession := roundsManagerSession c;
     rpcTimeout := rpcTimeout c; eventTimeout := eventTimeout c |}.

Definition set_roundsManagerAddr (a : Address) (c : Client) : Client :=
  {| account := account c; keyStore := keyStore c; transactOpts := transactOpts c;
     protocolAddr := protocolAddr c; tokenAddr := tokenAddr c;
     bondingManagerAddr := bondingManagerAddr c;
     jobsManagerAddr := jobsManagerAddr c;
     roundsManagerAddr := a;
     protocolSession := protocolSession c; tokenSession := tokenSession c;
     bondingManagerSession := bondingManagerSession c;
     jobsManagerSession := jobsManagerSession c;
     roundsManagerSession := roundsManagerSession c;
     rpcTimeout := rpcTimeout c; eventTimeout := eventTimeout c |}.

Definition set_bondingManagerSession (s : option Session) (c : Client) : Client :=
  {| account := account c; keyStore := keyStore c; transactOpts := transactOpts c;
     protocolAddr := protocolAddr c; tokenAddr := tokenAddr c;
     bondingManagerAddr := bondingManagerAddr c;
     jobsManagerAddr := jobsManagerAddr c; roundsManagerAddr := roundsManagerAddr c;
     protocolSession := protocolSession c; tokenSession := tokenSession c;
     bondingManagerSession := s;
     jobsManagerSession := jobsManagerSession c;
     roundsManagerSession := roundsManagerSession c;
     rpcTimeout := rpcTimeout c; eventTimeout := eventTimeout c |}.

Definition set_jobsManagerSession (s : option Session) (c : Client) : Client :=
  {| account := account c; keyStore := keyStore c; transactOpts := transactOpts c;
     protocolAddr := protocolAddr c; tokenAddr := tokenAddr c;
     bondingManagerAddr := bondingManagerAddr c;
     jobsManagerAddr := jobsManagerAddr c; roundsManagerAddr := roundsManagerAddr c;
     protocolSession := protocolSession c; tokenSession := tokenSession c;
     bondingManagerSession := bondingManagerSession c;
     jobsManagerSession := s;
     roundsManagerSession := roundsManagerSession c;
     rpcTimeout := rpcTimeout c; eventTimeout := eventTimeout c |}.

Definition set_roundsManagerSession (s : option Session) (c : Client) : Client :=
  {| account := account c; keyStore := keyStore c; transactOpts := transactOpts c;
     protocolAddr := protocolAddr c; tokenAddr := tokenAddr c;
     bondingManagerAddr := bondingManagerAddr c;
     jobsManagerAddr := jobsManagerAddr c; roundsManagerAddr := roundsManagerAddr c;
     protocolSession := protocolSession c; tokenSession := tokenSession c;
     bondingManagerSession := bondingManagerSession c;
     jobsManagerSession := jobsManagerSession c;
     roundsManagerSession := s;
     rpcTimeout := rpcTimeout c; eventTimeout := eventTimeout c |}.

(** ** Contract bindings *)

(** [SetManagers]: the receiver is updated in place, field by field, and
    the function returns at the first error. *)
Definition SetManagers (w : World) (c : Client) : Client * option error :=
  match Registry w (protocolSession c) (Keccak256Hash w "BondingManager") with
  | Err err => (c, Some err)
  | Ok bondingManagerAddr =>
  let c := set_bondingManagerAddr bondingManagerAddr c in
  match NewBondingManager w bondingManagerAddr with
  | Err err => (c, Some err)
  | Ok bondingManager =>
  let c := set_bondingManagerSession
             (Some {| session_Contract := bondingManager;
                      session_TransactOpts := transactOpts c |}) c in
  match Registry w (protocolSession c) (Keccak256Hash w "JobsManager") with
  | Err err => (c, Some err)
  | Ok jobsManagerAddr =>
  let c := set_jobsManagerAddr jobsManagerAddr c in
  match NewJobsManager w jobsManagerAddr with
  | Err err => (c, Some err)
  | Ok jobsManager =>
  let c := set_jobsManagerSession
             (Some {| session_Contract := jobsManager;
                      session_TransactOpts := transactOpts c |}) c in
  match Registry w (protocolSession c) (Keccak256Hash w "RoundsManager") with
  | Err err => (c, Some err)
  | Ok roundsManagerAddr =>
  let c := set_roundsManagerAddr roundsManagerAddr c in
  match NewRoundsManager w roundsManagerAddr with
  | Err err => (c, Some err)
  | Ok roundsManager =>
  let c := set_roundsManagerSession
             (Some {| session_Contract := roundsManager;
                      session_TransactOpts := transactOpts c |}) c in
  (c, None)
  end end end end end end.

Definition NewTransactOptsForAccount (w : World) (account : Account)
    (passphrase : string) : Result TransactOpts :=
  match keyStore_Export w account passphrase with
  | Err err => Err err
  | Ok keyjson =>
      match NewTransactor w keyjson passphrase with
      | Err err => Err err
      | Ok transactOpts => Ok transactOpts
      end
  end.

(** [NewClient]: the value of [client.SetManagers()] is not looked at. *)
Definition NewClient (w : World) (account : Account) (passphrase datadir : string)
    (protocolAddr tokenAddr : Address) (rpcTimeout eventTimeout : Duration)
  : option Client * option error :=
  let keyStore := (datadir ++ "/keystore")%string in
  match NewTransactOptsForAccount w account passphrase with
  | Err err => (None, Some err)
  | Ok transactOpts =>
  match NewLivepeerToken w tokenAddr with
  | Err err => (None, Some err)
  | Ok token =>
  match NewLivepeerProtocol w protocolAddr with
  | Err err => (None, Some err)
  | Ok protocol =>
      let client :=
        {| account := account;
           keyStore := keyStore;
           transactOpts := transactOpts;
           protocolAddr := protocolAddr;
           tokenAddr := tokenAddr;
           bondingManagerAddr := zeroAddress;
           jobsManagerAddr := zeroAddress;
           roundsManagerAddr := zeroAddress;
           protocolSession := {| session_Contract := protocol;
                                 session_TransactOpts := transactOpts |};
           tokenSession := {| session_Contract := token;
                              session_TransactOpts := transactOpts |};
           bondingManagerSession := None;
           jobsManagerSession := None;
           roundsManagerSession := None;
           rpcTimeout := rpcTimeout;
           eventTimeout := eventTimeout |} in
      let '(client, _) := SetManagers w client in
      (Some client, None)
  end end end.

(** ** Waiting on channels and timers *)

(** A [select] over a channel whose next value arrives at time [t] and a
    timer that fires at [deadline]: the receive is taken when the value is
    there first; at the very same instant both cases are ready and the
    runtime picks one. *)
Definition arrivesFirst (w : World) (deadline t : Z) : bool :=
  (t <? deadline) || (selectTie w && (t =? deadline)).

(** The loop of [WatchEvent] once the timer is set.  [logsCh] lists what
    the channel delivers, with arrival times; the channel belongs to the
    caller and stays open; when nothing more arrives only the timer case
    can become ready. *)
Fixpoint WatchEvent_loop (w : World) (timer : Z) (logsCh : list (Z * Log))
  : Log * option error :=
  match logsCh with
  | (t, log) :: rest =>
      if arrivesFirst w timer t then
        if negb (Removed log) then (log, None)
        else WatchEvent_loop w timer rest
      else (zeroLog, Some (Errorf "watchEvent timed out" []))
  | [] => (zeroLog, Some (Errorf "watchEvent timed out" []))
  end.

(** [WatchEvent], called at time [now]: [time.NewTimer(c.eventTimeout)] is
    evaluated once, before the loop. *)
Definition WatchEvent (w : World) (c : Client) (now : Z) (logsCh : list (Z * Log))
  : Log * option error :=
  let timer := now + eventTimeout c in
  WatchEvent_loop w timer logsCh.

(** ** Running code against the world

    The state threaded through a run: the clock, the number of receipt
    requests made so far, and the calls made to the node, oldest first. *)

Inductive Event :=
| EvSubscribe (q : FilterQuery) (established : bool)
| EvTransact (call : TxCall) (dispatched : bool)
| EvReceipt (txHash : Hash).

Record St := {
  clock : Z;
  polls : nat;
  trace : list Event
}.

(** How a run ends: with a value; parked for ever on a channel operation
    that no other goroutine can complete; stopped by a panic that nothing
    recovers; or still going when the fuel of the model is used up. *)
Inductive Run (A : Type) : Type :=
| Done (a : A) (s : St)
| Blocked (s : St)
| Crashed (v : any) (s : St)
| OutOfFuel (s : St).
Arguments Done {A} a s.
Arguments Blocked {A} s.
Arguments Crashed {A} v s.
Arguments OutOfFuel {A} s.

Definition M (A : Type) : Type := St -> Run A.

Definition ret {A} (a : A) : M A := fun s => Done a s.

Definition bind {A B} (m : M A) (k : A -> M B) : M B :=
  fun s =>
    match m s with
    | Done a s' => k a s'
    | Blocked s' => Blocked s'
    | Crashed v s' => Crashed v s'
    | OutOfFuel s' => OutOfFuel s'
    end.

Notation "x <- m ;; k" := (bind m (fun x => k))
  (at level 61, m at next level, right associativity).
Notation "' pat <- m ;; k" := (bind m (fun x => match x with pat => k end))
  (at level 61, pat pattern, m at next level, right associativity).
Notation "m1 ;;; m2" := (bind m1 (fun _ => m2))
  (at level 61, right associativity).

Definition block {A} : M A := fun s => Blocked s.
Definition outOfFuel {A} : M A := fun s => OutOfFuel s.
Definition crash {A} (v : any) : M A := fun s => Crashed v s.

Definition emit (e : Event) : M unit :=
  fun s => Done tt {| clock := clock s; polls := polls s; trace := trace s ++ [e] |}.

Definition elapse (d : Duration) : M unit :=
  fun s => Done tt {| clock := clock s + d; polls := polls s; trace := trace s |}.

Definition waitUntil (t : Z) : M unit :=
  fun s => Done tt {| clock := Z.max (clock s) t; polls := polls s; trace := trace s |}.

(** [time.Now()], [time.Since(t)], [time.Sleep(d)], [time.NewTimer(d)] *)
Definition time_Now (w : World) : M Z :=
  fun s => Done (clock s)
                {| clock := clock s + nowCost w; polls := polls s; trace := trace s |}.

Definition time_Since (w : World) (t : Z) : M Duration :=
  now <- time_Now w ;; ret (now - t).

Definition time_Sleep (d : Duration) : M unit := elapse d.

Definition time_NewTimer (d : Duration) : M Z :=
  fun s => Done (clock s + d) s.

(** A method of a contract session that signs and sends a transaction.
    Through a nil session pointer it dereferences nil. *)
Definition session_call (w : World) (session : option Session) (call : TxCall)
  : M (Result Transaction) :=
  match session with
  | None =>
      crash (AnyError (RuntimeError "invalid memory address or nil pointer dereference"))
  | Some sess =>
      let r := transact w sess call in
      emit (EvTransact call (match r with Ok _ => true | Err _ => false end)) ;;;
      elapse (rpcCost w) ;;;
      ret r
  end.

(** [c.backend.TransactionReceipt(ctx, hash)] *)
Definition backend_TransactionReceipt (w : World) (h : Hash)
  : M (option Receipt * option error) :=
  fun s =>
    Done (TransactionReceipt w (polls s) h)
         {| clock := clock s + rpcCost w; polls := S (polls s);
            trace := trace s ++ [EvReceipt h] |}.

(** [c.backend.SubscribeFilterLogs(ctx, q, logsCh)] *)
Definition backend_SubscribeFilterLogs (w : World) (q : FilterQuery)
  : M (option error) :=
  let r := SubscribeFilterLogs w q in
  emit (EvSubscribe q (match r with None => true | Some _ => false end)) ;;;
  elapse (rpcCost w) ;;;
  ret r.

Definition error_eqb_NotFound (err : error) : bool :=
  match err with NotFound => true | _ => false end.

(** ** Receipts *)

(** [WaitForReceipt].  [fuel] bounds the number of turns of the loop that
    the model follows.  The loop condition is
    [time.Since(time.Now()) < c.eventTimeout]: both readings of the clock
    are taken when the condition is evaluated. *)
Fixpoint WaitForReceipt (w : World) (c : Client) (fuel : nat) (tx : Transaction)
  : M (Result Receipt) :=
  match fuel with
  | O => outOfFuel
  | S fuel' =>
      start <- time_Now w ;;
      since <- time_Since w start ;;
      if since <? eventTimeout c then
        '(receipt, err) <- backend_TransactionReceipt w (tx_Hash tx) ;;
        match err with
        | Some err' =>
            if negb (error_eqb_NotFound err') then ret (Err err')
            else
              match receipt with
              | Some receipt =>
                  if tx_Gas tx =? GasUsed receipt
                  then ret (Err (Errorf "Tx %v threw" [Hex (tx_Hash tx)]))
                  else ret (Ok receipt)
              | None => time_Sleep Second ;;; WaitForReceipt w c fuel' tx
              end
        | None =>
            match receipt with
            | Some receipt =>
                if tx_Gas tx =? GasUsed receipt
                then ret (Err (Errorf "Tx %v threw" [Hex (tx_Hash tx)]))
                else ret (Ok receipt)
            | None => time_Sleep Second ;;; WaitForReceipt w c fuel' tx
            end
        end
      else ret (Err (Errorf "Tx %v timed out" [Hex (tx_Hash tx)]))
  end.

(** ** Asynchronous results

    Every operation makes two unbuffered channels [outRes] and [outErr],
    starts a goroutine and returns the channels.  A [Handle] is what that
    goroutine does on the two channels, in order. *)

Inductive ChanOp :=
| SendRes (r : Receipt)
| SendErr (err : error)
| CloseErr
| CloseRes.

Definition Handle := list ChanOp.

(** The deferred [close(outRes)] and [close(outErr)] run last, in the
    reverse order of their [defer] statements. *)
Definition deferredCloses (ops : list ChanOp) : Handle := ops ++ [CloseErr; CloseRes].

(** The goroutine of the operations without a prerequisite: send through
    the session, then wait for the receipt. *)
Definition submitThenWait (w : World) (c : Client) (fuel : nat)
    (session : option Session) (call : TxCall) : M Handle :=
  ops <- (r <- session_call w session call ;;
          match r with
          | Err err => ret [SendErr err]
          | Ok tx =>
              r <- WaitForReceipt w c fuel tx ;;
              match r with
              | Err err => ret [SendErr err]
              | Ok receipt => ret [SendRes receipt]
              end
          end) ;;
  ret (deferredCloses ops).

Definition InitializeRound (w : World) (c : Client) (fuel : nat) : M Handle :=
  submitThenWait w c fuel (roundsManagerSession c) RoundsManager_InitializeRound.

Definition Transcoder (w : World) (c : Client) (fuel : nat)
    (blockRewardCut feeShare pricePerSegment : Z) : M Handle :=
  submitThenWait w c fuel (bondingManagerSession c)
    (BondingManager_Transcoder blockRewardCut feeShare pricePerSegment).

Definition Reward (w : World) (c : Client) (fuel : nat) : M Handle :=
  submitThenWait w c fuel (bondingManagerSession c) BondingManager_Reward.

Definition Job (w : World) (c : Client) (fuel : nat)
    (streamId transcodingOptions : string) (maxPricePerSegment : Z) : M Handle :=
  submitThenWait w c fuel (jobsManagerSession c)
    (JobsManager_Job streamId transcodingOptions maxPricePerSegment).

Definition ClaimWork (w : World) (c : Client) (fuel : nat)
    (jobId : Z) (segmentRange : Z * Z) (claimRoot : list byte) : M Handle :=
  submitThenWait w c fuel (jobsManagerSession c)
    (JobsManager_ClaimWork jobId segmentRange claimRoot).

Definition Verify (w : World) (c : Client) (fuel : nat)
    (jobId claimId segmentNumber : Z) (dataHash transcodedDataHash : string)
    (broadcasterSig proof : list byte) : M Handle :=
  submitThenWait w c fuel (jobsManagerSession c)
    (JobsManager_Verify jobId claimId segmentNumber dataHash transcodedDataHash
       broadcasterSig proof).

Definition DistributeFees (w : World) (c : Client) (fuel : nat)
    (jobId claimId : Z) : M Handle :=
  submitThenWait w c fuel (jobsManagerSession c)
    (JobsManager_DistributeFees jobId claimId).

Definition Transfer (w : World) (c : Client) (fuel : nat)
    (toAddr : Address) (amount : Z) : M Handle :=
  submitThenWait w c fuel (Some (tokenSession c)) (Token_Transfer toAddr amount).

(** ** Approve, then spend *)

(** [SubscribeToApproval]: the channel it returns is given as what the
    subscription will deliver on it. *)
Definition SubscribeToApproval (w : World) (c : Client)
  : M (Result (list (Z * Log))) :=
  match abi_JSON w LivepeerTokenABI with
  | Err err => ret (Err err)
  | Ok abiJSON =>
      let q := {| Addresses := [tokenAddr c];
                  Topics := [[abiJSON "Approval"];
                             [BytesToHash (LeftPadBytes (acc_Address (account c)) 32)]] |} in
      r <- backend_SubscribeFilterLogs w q ;;
      match r with
      | Some err => ret (Err err)
      | None => ret (Ok (approvalLogs w))
      end
  end.

(** [SubscribeToJobEvent]: the subscription (here: whether it was
    established) on the channel of the caller. *)
Definition SubscribeToJobEvent (w : World) (c : Client) : M (option error) :=
  match abi_JSON w JobsManagerABI with
  | Err err => ret (Some err)
  | Ok abiJSON =>
      let q := {| Addresses := [jobsManagerAddr c];
                  Topics := [[abiJSON "NewJob"];
                             [BytesToHash (LeftPadBytes (acc_Address (account c)) 32)]] |} in
      backend_SubscribeFilterLogs w q
  end.

(** [Approve].  [outErr] is unbuffered and was made a few lines above, so
    no goroutine can be receiving from it: both [outErr <- err] park the
    caller for ever.  Otherwise a goroutine forwards the first log of the
    subscription to [outRes]; the result is that log and its arrival time
    ([None] when the subscription never delivers). *)
Definition Approve (w : World) (c : Client) (toAddr : Address) (amount : Z)
  : M (option (Z * Log)) :=
  r <- SubscribeToApproval w c ;;
  match r with
  | Err err => block
  | Ok logsCh =>
      r <- session_call w (Some (tokenSession c)) (Token_Approve toAddr amount) ;;
      match r with
      | Err err => block
      | Ok _ => ret (hd_error logsCh)
      end
  end.

(** The three-way [select] of [Bond] and [Deposit].  [inErr] is never
    sent on once [Approve] has returned (it is closed only after [inRes]
    was received from), so only the log and the timer compete. *)
Inductive Selected :=
| SelLog (log : Log)
| SelErr (err : error)
| SelTimer.

Definition select3 (w : World) (inRes : option (Z * Log)) (timer : Z) : M Selected :=
  match inRes with
  | Some (t, log) =>
      if arrivesFirst w timer t then waitUntil t ;;; ret (SelLog log)
      else waitUntil timer ;;; ret SelTimer
  | None => waitUntil timer ;;; ret SelTimer
  end.

Definition Bond (w : World) (c : Client) (fuel : nat) (amount : Z) (toAddr : Address)
  : M Handle :=
  inRes <- Approve w c (bondingManagerAddr c) amount ;;
  timer <- time_NewTimer (eventTimeout c) ;;
  ops <- (sel <- select3 w inRes timer ;;
          match sel with
          | SelLog log =>
              if negb (Removed log) then
                r <- session_call w (bondingManagerSession c)
                       (BondingManager_Bond amount toAddr) ;;
                match r with
                | Err err => ret [SendErr err]
                | Ok tx =>
                    r <- WaitForReceipt w c fuel tx ;;
                    match r with
                    | Err err => ret [SendErr err]
                    | Ok receipt => ret [SendRes receipt]
                    end
                end
              else ret []
          | SelErr err => ret [SendErr err]
          | SelTimer => ret [SendErr (Errorf "Event subscription timed out" [])]
          end) ;;
  ret (deferredCloses ops).

Definition Deposit (w : World) (c : Client) (fuel : nat) (amount : Z) : M Handle :=
  inRes <- Approve w c (jobsManagerAddr c) amount ;;
  timer <- time_NewTimer (eventTimeout c) ;;
  ops <- (sel <- select3 w inRes timer ;;
          match sel with
          | SelLog log =>
              if negb (Removed log) then
                r <- session_call w (jobsManagerSession c) (JobsManager_Deposit amount) ;;
                match r with
                | Err err => ret [SendErr err]
                | Ok tx =>
                    r <- WaitForReceipt w c fuel tx ;;
                    match r with
                    | Err err => ret [SendErr err]
                    | Ok receipt => ret [SendRes receipt]
                    end
                end
              else ret []
          | SelErr err => ret [SendErr err]
          | SelTimer => ret [SendErr (Errorf "Event subscription timed out" [])]
          end) ;;
  ret (deferredCloses ops).

(** The values a consumer of the handle is given before the channels are
    closed. *)
Definition isOutcome (op : ChanOp) : bool :=
  match op with
  | SendRes _ | SendErr _ => true
  | CloseErr | CloseRes => false
  end.

Definition outcomes (h : Handle) : list ChanOp := filter isOutcome h.

Definition initialSt (now : Z) : St := {| clock := now; polls := 0; trace := [] |}.

End Eth.

(* ================================================================== *)
(** * Vocabulary for statements about strings *)
(* ================================================================== *)

Module Text.
Import Go.
Local Open Scope string_scope.

(** Number of occurrences of a byte in a string. *)
Fixpoint count (sep : ascii) (s : string) : nat :=
  match s with
  | EmptyString => 0
  | String c s' => (if Ascii.eqb c sep then 1 else 0) + count sep s'
  end.

(** The part of a string before the first occurrence of a byte (the whole
    string when the byte does not occur). *)
Fixpoint beforeFirst (sep : ascii) (s : string) : string :=
  match s with
  | EmptyString => EmptyString
  | String c s' => if Ascii.eqb c sep then EmptyString else String c (beforeFirst sep s')
  end.

(** The parts, put together again with the separator between them. *)
Fixpoint join (sep : ascii) (parts : list string) : string :=
  match parts with
  | [] => EmptyString
  | [p] => p
  | p :: rest => p ++ String sep (join sep rest)
  end.

Definition secondToLast (parts : list string) : string :=
  match rev parts with
  | _ :: p :: _ => p
  | _ => EmptyString
  end.

(** The number a string of decimal digits denotes; [None] for the empty
    string and for a string with another character. *)
Fixpoint decimalValue_from (s : string) (acc : Z) : option Z :=
  match s with
  | EmptyString => Some acc
  | String c s' =>
      let d := Z.of_N (N_of_ascii c) in
      if ((48 <=? d) && (d <=? 57))%Z then decimalValue_from s' (10 * acc + (d - 48))%Z
      else None
  end.

Definition decimalValue (s : string) : option Z :=
  match s with
  | EmptyString => None
  | _ => decimalValue_from s 0
  end.

(** [maxUint64/10 + 1], the cutoff of [strconv.ParseUint] in base 10. *)
Definition cutoff10 : Z := 1844674407370955162.
End Text.

(* ================================================================== *)
(** * Vocabulary for statements about the client *)
(* ================================================================== *)

Module Bindings.
Import Go Eth.
Local Open Scope string_scope.

(** The three manager roles, in the order [SetManagers] resolves them. *)
Inductive Role := BondingManager | JobsManager | RoundsManager.

Definition roleName (r : Role) : string :=
  match r with
  | BondingManager => "BondingManager"
  | JobsManager => "JobsManager"
  | RoundsManager => "RoundsManager"
  end.

Definition position (r : Role) : nat :=
  match r with
  | BondingManager => 0
  | JobsManager => 1
  | RoundsManager => 2
  end.

Definition managerAddr (r : Role) (c : Client) : Address :=
  match r with
  | BondingManager => bondingManagerAddr c
  | JobsManager => jobsManagerAddr c
  | RoundsManager => roundsManagerAddr c
  end.

Definition managerSession (r : Role) (c : Client) : option Session :=
  match r with
  | BondingManager => bondingManagerSession c
  | JobsManager => jobsManagerSession c
  | RoundsManager => roundsManagerSession c
  end.

(** The registry lookup and the handle construction for one role. *)
Definition lookup (w : World) (protocol : Session) (r : Role) : Result Address :=
  Registry w protocol (Keccak256Hash w (roleName r)).

Definition construct (w : World) (r : Role) (a : Address) : Result Contract :=
  match r with
  | BondingManager => NewBondingManager w a
  | JobsManager => NewJobsManager w a
  | RoundsManager => NewRoundsManager w a
  end.

(** In [c'] the role carries what the world [w] resolves it to. *)
Definition resolvedAnew (w : World) (c c' : Client) (r : Role) : Prop :=
  exists a ct,
    lookup w (protocolSession c) r = Ok a /\ construct w r a = Ok ct /\
    managerAddr r c' = a /\
    managerSession r c' = Some {| session_Contract := ct;
                                  session_TransactOpts := transactOpts c |}.

(** In [c'] the role carries what it carried in [c]. *)
Definition untouched (c c' : Client) (r : Role) : Prop :=
  managerAddr r c' = managerAddr r c /\ managerSession r c' = managerSession r c.

(** The fields that are not manager bindings agree. *)
Definition sameRoots (c c' : Client) : Prop :=
  account c' = account c /\ keyStore c' = keyStore c /\
  transactOpts c' = transactOpts c /\
  protocolAddr c' = protocolAddr c /\ tokenAddr c' = tokenAddr c /\
  protocolSession c' = protocolSession c /\ tokenSession c' = tokenSession c /\
  rpcTimeout c' = rpcTimeout c /\ eventTimeout c' = eventTimeout c.

End Bindings.

Module Traces.
Import Go Eth.
Local Open Scope Z_scope.

(** The state a run has reached, however it ended. *)
Definition finalSt {A} (r : Run A) : St :=
  match r with
  | Done _ s => s
  | Blocked s => s
  | Crashed _ s => s
  | OutOfFuel s => s
  end.

(** The log filter of [SubscribeToApproval]: Approval events of the token
    contract whose first indexed argument is the account of the client. *)
Definition isApprovalSubscription (w : World) (c : Client) (q : FilterQuery) : Prop :=
  exists abiJSON,
    abi_JSON w LivepeerTokenABI = Ok abiJSON /\
    q = {| Addresses := [tokenAddr c];
           Topics := [[abiJSON "Approval"%string];
                      [BytesToHash (LeftPadBytes (acc_Address (account c)) 32)]] |}.

Definition isGrant (e : Event) : Prop :=
  match e with
  | EvTransact (Token_Approve _ _) _ => True
  | _ => False
  end.

Definition notGrant (e : Event) : Prop := ~ isGrant e.

(** Every allowance-grant transaction in [evs] comes after an established
    Approval subscription for the account. *)
Definition subscribedBeforeGrant (w : World) (c : Client) (evs : list Event) : Prop :=
  forall pre e post,
    evs = pre ++ e :: post -> isGrant e ->
    exists q, In (EvSubscribe q true) pre /\ isApprovalSubscription w c q.

(** All the events a computation adds to the trace satisfy [P]. *)
Definition appendsOnly {A} (P : Event -> Prop) (m : M A) : Prop :=
  forall s, exists evs,
    trace (finalSt (m s)) = trace s ++ evs /\ Forall P evs.

(** What [Bond] and [Deposit] do once [Approve] has returned [inRes]; the
    two differ only in the session method they call. *)
Definition spendAfterGrant (w : World) (c : Client) (fuel : nat)
    (session : option Session) (call : TxCall) (inRes : option (Z * Log))
  : M Handle :=
  bind (time_NewTimer (eventTimeout c)) (fun timer =>
  bind (bind (select3 w inRes timer) (fun sel =>
          match sel with
          | SelLog log =>
              if negb (Removed log) then
                bind (session_call w session call) (fun r =>
                  match r with
                  | Err err => ret [SendErr err]
                  | Ok tx =>
                      bind (WaitForReceipt w c fuel tx) (fun r =>
                        match r with
                        | Err err => ret [SendErr err]
                        | Ok receipt => ret [SendRes receipt]
                        end)
                  end)
              else ret []
          | SelErr err => ret [SendErr err]
          | SelTimer => ret [SendErr (Errorf "Event subscription timed out" [])]
          end)) (fun ops =>
  ret (deferredCloses ops))).

(** The number of calls of the given session method in a trace. *)
Definition isCallOf (same : TxCall -> bool) (e : Event) : bool :=
  match e with
  | EvTransact call _ => same call
  | _ => false
  end.

Definition isBondCall (call : TxCall) : bool :=
  match call with BondingManager_Bond _ _ => true | _ => false end.

Definition isDepositCall (call : TxCall) : bool :=
  match call with JobsManager_Deposit _ => true | _ => false end.

Definition calls (same : TxCall -> bool) (evs : list Event) : nat :=
  List.length (filter (isCallOf same) evs).

(** A receipt request that finds nothing: no receipt, and no error or
    [ethereum.NotFound]. *)
Definition noError (err : option error) : bool :=
  match err with
  | None => true
  | Some NotFound => true
  | Some _ => false
  end.

Definition notMinedAt (w : World) (tx : Transaction) (n : nat) : Prop :=
  fst (TransactionReceipt w n (tx_Hash tx)) = None /\
  noError (snd (TransactionReceipt w n (tx_Hash tx))) = true.

Definition minedAt (w : World) (tx : Transaction) (n : nat) (r : Receipt) : Prop :=
  fst (TransactionReceipt w n (tx_Hash tx)) = Some r /\
  noError (snd (TransactionReceipt w n (tx_Hash tx))) = true.

(** The state after one receipt request of [WaitForReceipt] (two clock
    readings for the loop condition, then the request), and after the
    pause that follows a request that found nothing. *)
Definition afterRequest (w : World) (tx : Transaction) (s : St) : St :=
  {| clock := clock s + nowCost w + nowCost w + rpcCost w;
     polls := S (polls s);
     trace := trace s ++ [EvReceipt (tx_Hash tx)] |}.

Definition afterSleep (s : St) : St :=
  {| clock := clock s + Second; polls := polls s; trace := trace s |}.

(** A log that is received before the timer fires and is flagged removed. *)
Definition discarded (w : World) (timer : Z) (e : Z * Log) : Prop :=
  arrivesFirst w timer (fst e) = true /\ Removed (snd e) = true.

(** The verdict of [WaitForReceipt] on a receipt. *)
Definition byGas (tx : Transaction) (r : Receipt) : Result Receipt :=
  if tx_Gas tx =? GasUsed r
  then Err (Errorf "Tx %v threw" [Hex (tx_Hash tx)])
  else Ok r.

End Traces.

(* ================================================================== *)
(** * Scenarios *)
(* ================================================================== *)

Module Scenarios.
Import Go Core Eth.
Local Open Scope string_scope.
Local Open Scope Z_scope.
Local Open Scope list_scope.

Fixpoint bytes_eqb (a b : list byte) : bool :=
  match a, b with
  | [], [] => true
  | x :: a', y :: b' => Byte.eqb x y && bytes_eqb a' b'
  | _, _ => false
  end.

Definition addr (b : byte) : Address := repeat b 20.

(** A stand-in for Keccak-256 that keeps the three role names apart. *)
Definition roleKey (s : string) : Hash := BytesToHash (list_byte_of_string s).

Definition alice : Account := {| acc_Address := addr x0a |}.
Definition aliceOpts : TransactOpts := {| From := addr x0a |}.

Definition approvalLog (removed : bool) : Log :=
  {| log_Address := addr x02; log_Topics := []; log_Data := [];
     log_BlockNumber := 7; log_TxHash := repeat x01 32; Removed := removed |}.

Definition someTx : Transaction := {| tx_Hash := repeat x05 32; tx_Gas := 90000 |}.

Definition receiptUsing (gas : Z) : Receipt :=
  {| rcpt_TxHash := repeat x05 32; GasUsed := gas; rcpt_BlockNumber := 8;
     rcpt_Logs := [] |}.

(** A node with the knobs the scenarios turn: where the BondingManager
    lives, whether the JobsManager is registered, what the Approval
    subscription delivers, whether the allowance grant is accepted, and
    from which request on the receipt exists (and what gas it reports). *)
Definition node (bondingAt : byte) (jobsRegistered : bool)
    (logs : list (Z * Log)) (grantAccepted : bool) (mined : option (nat * Z))
  : World :=
  {| nowCost := 100;
     rpcCost := 1000000;
     selectTie := false;
     Keccak256Hash := roleKey;
     abi_JSON := fun _ => Ok (fun name => roleKey name);
     keyStore_Export := fun _ _ => Ok [x7b; x7d];
     NewTransactor := fun _ _ => Ok aliceOpts;
     NewLivepeerToken := fun a => Ok {| boundAt := a |};
     NewLivepeerProtocol := fun a => Ok {| boundAt := a |};
     NewBondingManager := fun a => Ok {| boundAt := a |};
     NewJobsManager := fun a => Ok {| boundAt := a |};
     NewRoundsManager := fun a => Ok {| boundAt := a |};
     Registry := fun _ h =>
       if bytes_eqb h (roleKey "BondingManager") then Ok (addr bondingAt)
       else if bytes_eqb h (roleKey "JobsManager") then
         (if jobsRegistered then Ok (addr x0c) else Err (External 404))
       else if bytes_eqb h (roleKey "RoundsManager") then Ok (addr x0d)
       else Err (External 404);
     SubscribeFilterLogs := fun _ => None;
     approvalLogs := logs;
     transact := fun _ call =>
       match call with
       | Token_Approve _ _ => if grantAccepted then Ok someTx else Err (External 3)
       | _ => Ok someTx
       end;
     TransactionReceipt := fun n _ =>
       match mined with
       | Some (from, gas) =>
           if (from <=? n)%nat then (Some (receiptUsing gas), None)
           else (None, Some NotFound)
       | None => (None, Some NotFound)
       end |}.

(** A healthy node on which nothing is ever mined. *)
Definition silentNode : World := node x0b true [] true None.

(** The client as [NewClient] builds it before it resolves the managers,
    with a 30 second event timeout (also the bound of [WaitForReceipt]). *)
Definition unboundClient : Client :=
  {| account := alice;
     keyStore := "/data/keystore";
     transactOpts := aliceOpts;
     protocolAddr := addr x01;
     tokenAddr := addr x02;
     bondingManagerAddr := zeroAddress;
     jobsManagerAddr := zeroAddress;
     roundsManagerAddr := zeroAddress;
     protocolSession := {| session_Contract := {| boundAt := addr x01 |};
                           session_TransactOpts := aliceOpts |};
     tokenSession := {| session_Contract := {| boundAt := addr x02 |};
                        session_TransactOpts := aliceOpts |};
     bondingManagerSession := None;
     jobsManagerSession := None;
     roundsManagerSession := None;
     rpcTimeout := 5 * Second;
     eventTimeout := 30 * Second |}.

(** The client [NewClient] returns against [silentNode]. *)
Definition aliceClient : Client := fst (SetManagers silentNode unboundClient).

(** The BondingManager has moved and the JobsManager is not registered. *)
Definition halfMigratedNode : World := node x1b false [] true None.

(** The receipt exists from the third request on. *)
Definition minedNode (gas : Z) : World := node x0b true [] true (Some (2%nat, gas)).

(** The Approval log arrives after five seconds and is flagged removed. *)
Definition retractedNode : World :=
  node x0b true [(5 * Second, approvalLog true)] true None.

(** The node rejects the allowance grant. *)
Definition rejectingNode : World := node x0b true [] false None.

(** An ffmpeg binding whose transcode call panics with the given value. *)
Definition panickingFfmpeg (v : any) : Externals :=
  {| Transcode3 := fun _ _ => Panicked v;
     session_Transcode := fun _ _ => Panicked v;
     monitor_Enabled := false;
     SegmentTranscoded := fun _ => Returned tt;
     ReadFile := fun _ => Ok [];
     Remove := fun _ => None;
     RandName := fun _ => "r";
     WorkDir := "/tmp";
     DSceneAdultSoccer := {| ModelPath := "m"; Input := "i"; Output := "o" |} |}.

Definition someSegment : SegTranscodingMetadata :=
  {| Fname := "http://host/stream/mid1/17.ts";
     Profiles := [{| ProfileName := "P240p30fps16x9" |}];
     CalcPerceptualHash := false;
     DetectorEnabled := false;
     DetectorProfiles := [];
     Duration_ := 2000 |}.

End Scenarios.

(* ================================================================== *)
(** * Proof steps used more than once *)
(* ================================================================== *)

(** Case analysis over the three manager roles. *)
Ltac by_role :=
  let r := fresh "r" in
  intros r; destruct r; cbn; intros; try lia; eauto 10.

(** The case of a resolution that stops at [role]; [tac] shows how the
    role failed. *)
Ltac failing_at role tac :=
  exists role; cbn;
  split; [by_role | split; [by_role | split; [reflexivity | tac]]].

(* ================================================================== *)
(** * The operations of the client, by name *)
(* ================================================================== *)

Module Operations.
Import Go Eth.
Local Open Scope Z_scope.

(** The transaction operations of [LivepeerEthClient] with their
    arguments. *)
Inductive Operation :=
| OpInitializeRound
| OpTranscoder (blockRewardCut feeShare pricePerSegment : Z)
| OpBond (amount : Z) (toAddr : Address)
| OpReward
| OpDeposit (amount : Z)
| OpJob (streamId transcodingOptions : string) (maxPricePerSegment : Z)
| OpClaimWork (jobId : Z) (segmentRange : Z * Z) (claimRoot : list byte)
| OpVerify (jobId claimId segmentNumber : Z)
    (dataHash transcodedDataHash : string) (broadcasterSig proof : list byte)
| OpDistributeFees (jobId claimId : Z)
| OpTransfer (toAddr : Address) (amount : Z).

(** The function of the client behind each operation. *)
Definition run (op : Operation) (w : World) (c : Client) (fuel : nat) : M Handle :=
  match op with
  | OpInitializeRound => InitializeRound w c fuel
  | OpTranscoder cut share price => Transcoder w c fuel cut share price
  | OpBond amount toAddr => Bond w c fuel amount toAddr
  | OpReward => Reward w c fuel
  | OpDeposit amount => Deposit w c fuel amount
  | OpJob streamId opts price => Job w c fuel streamId opts price
  | OpClaimWork jobId range root => ClaimWork w c fuel jobId range root
  | OpVerify jobId claimId seg dataHash tHash sig proof =>
      Verify w c fuel jobId claimId seg dataHash tHash sig proof
  | OpDistributeFees jobId claimId => DistributeFees w c fuel jobId claimId
  | OpTransfer toAddr amount => Transfer w c fuel toAddr amount
  end.

(** The operations that go through [Approve] first. *)
Definition needsApproval (op : Operation) : bool :=
  match op with
  | OpBond _ _ | OpDeposit _ => true
  | _ => false
  end.

(** The session an operation sends its own transaction through, and the
    method it calls. *)
Definition sessionOf (op : Operation) (c : Client) : option Session :=
  match op with
  | OpInitializeRound => roundsManagerSession c
  | OpTranscoder _ _ _ | OpBond _ _ | OpReward => bondingManagerSession c
  | OpDeposit _ | OpJob _ _ _ | OpClaimWork _ _ _
  | OpVerify _ _ _ _ _ _ _ | OpDistributeFees _ _ => jobsManagerSession c
  | OpTransfer _ _ => Some (tokenSession c)
  end.

Definition callOf (op : Operation) : TxCall :=
  match op with
  | OpInitializeRound => RoundsManager_InitializeRound
  | OpTranscoder cut share price => BondingManager_Transcoder cut share price
  | OpBond amount toAddr => BondingManager_Bond amount toAddr
  | OpReward => BondingManager_Reward
  | OpDeposit amount => JobsManager_Deposit amount
  | OpJob streamId opts price => JobsManager_Job streamId opts price
  | OpClaimWork jobId range root => JobsManager_ClaimWork jobId range root
  | OpVerify jobId claimId seg dataHash tHash sig proof =>
      JobsManager_Verify jobId claimId seg dataHash tHash sig proof
  | OpDistributeFees jobId claimId => JobsManager_DistributeFees jobId claimId
  | OpTransfer toAddr amount => Token_Transfer toAddr amount
  end.

(** The manager role whose session the operation uses ([Transfer] uses the
    token session, which the constructor sets). *)
Definition roleOf (op : Operation) : option Bindings.Role :=
  match op with
  | OpInitializeRound => Some Bindings.RoundsManager
  | OpTranscoder _ _ _ | OpBond _ _ | OpReward => Some Bindings.BondingManager
  | OpDeposit _ | OpJob _ _ _ | OpClaimWork _ _ _
  | OpVerify _ _ _ _ _ _ _ | OpDistributeFees _ _ => Some Bindings.JobsManager
  | OpTransfer _ _ => None
  end.

(** Recognises the spending call of [Bond] and of [Deposit]. *)
Definition isSpendOf (op : Operation) : TxCall -> bool :=
  match op with
  | OpBond _ _ => Traces.isBondCall
  | OpDeposit _ => Traces.isDepositCall
  | _ => fun _ => false
  end.

(** The address [Bond] and [Deposit] ask the allowance for. *)
Definition spenderOf (op : Operation) (c : Client) : Address :=
  match op with
  | OpDeposit _ => jobsManagerAddr c
  | _ => bondingManagerAddr c
  end.

Definition amountOf (op : Operation) : Z :=
  match op with
  | OpBond amount _ | OpDeposit amount => amount
  | _ => 0
  end.

(** The value [recover] or the runtime reports for a nil dereference. *)
Definition nilDereference : any :=
  AnyError (RuntimeError "invalid memory address or nil pointer dereference").

(** What is sent on a handle before the channels are closed. *)
Definition sentBeforeClose (h : Handle) (outs : list ChanOp) : Prop :=
  h = outs ++ [CloseErr; CloseRes] /\ Forall (fun op => isOutcome op = true) outs.

End Operations.

(* ================================================================== *)
(** * More scenarios *)
(* ================================================================== *)

Module MoreScenarios.
Import Go Core Eth Scenarios.
Local Open Scope string_scope.
Local Open Scope Z_scope.
Local Open Scope list_scope.

(** The node [w] with other answers to receipt requests. *)
Definition answering (w : World)
    (receipts : nat -> Hash -> option Receipt * option error) : World :=
  {| nowCost := nowCost w; rpcCost := rpcCost w; selectTie := selectTie w;
     Keccak256Hash := Keccak256Hash w; abi_JSON := abi_JSON w;
     keyStore_Export := keyStore_Export w; NewTransactor := NewTransactor w;
     NewLivepeerToken := NewLivepeerToken w;
     NewLivepeerProtocol := NewLivepeerProtocol w;
     NewBondingManager := NewBondingManager w;
     NewJobsManager := NewJobsManager w;
     NewRoundsManager := NewRoundsManager w;
     Registry := Registry w; SubscribeFilterLogs := SubscribeFilterLogs w;
     approvalLogs := approvalLogs w; transact := transact w;
     TransactionReceipt := receipts |}.

(** The node [w] refusing the transactions picked by [refused]. *)
Definition refusing (w : World) (refused : TxCall -> bool) : World :=
  {| nowCost := nowCost w; rpcCost := rpcCost w; selectTie := selectTie w;
     Keccak256Hash := Keccak256Hash w; abi_JSON := abi_JSON w;
     keyStore_Export := keyStore_Export w; NewTransactor := NewTransactor w;
     NewLivepeerToken := NewLivepeerToken w;
     NewLivepeerProtocol := NewLivepeerProtocol w;
     NewBondingManager := NewBondingManager w;
     NewJobsManager := NewJobsManager w;
     NewRoundsManager := NewRoundsManager w;
     Registry := Registry w; SubscribeFilterLogs := SubscribeFilterLogs w;
     approvalLogs := approvalLogs w;
     transact := fun sess call =>
       if refused call then Err (External 7) else transact w sess call;
     TransactionReceipt := TransactionReceipt w |}.

(** The second receipt request fails with an internal error of the node,
    which nevertheless delivers a receipt with it. *)
Definition brokenNode : World :=
  answering silentNode
    (fun n _ => if (n <? 1)%nat then (None, Some NotFound)
                else (Some (receiptUsing 40000), Some (External 500))).

(** The node refuses the reward transaction. *)
Definition tightNode : World :=
  refusing silentNode
    (fun call => match call with BondingManager_Reward => true | _ => false end).

(** The Approval log arrives after five seconds and stands; the receipt of
    the spending transaction exists from the third request on. *)
Definition grantingNode : World :=
  node x0b true [(5 * Second, approvalLog false)] true (Some (2%nat, 40000)).

(** The state [Approve] leaves on the nodes above: two calls made. *)
Definition afterApprove (w : World) (spender : Address) (amount : Z) : St :=
  {| clock := 2 * rpcCost w; polls := 0;
     trace := [EvSubscribe
                 {| Addresses := [tokenAddr aliceClient];
                    Topics := [[roleKey "Approval"];
                               [BytesToHash (LeftPadBytes (addr x0a) 32)]] |}
                 true;
               EvTransact (Token_Approve spender amount) true] |}.

End MoreScenarios.

(* ================================================================== *)
(** * Package [eth]: the read-only accessors *)
(* ================================================================== *)

Module Reads.
Import Go Eth.
Local Open Scope Z_scope.

(** The entry of the [Transcoders] mapping, as far as the client reads it. *)
Record TranscoderInfo := {
  BondedAmount : Z;
  LastRewardRound_ : Z
}.

Record JobInfo := {
  JobId : Z;
  StreamId : string;
  TranscodingOptions : string;
  MaxPricePerSegment : Z;
  PricePerSegment : Z;
  BroadcasterAddress : Address;
  TranscoderAddress : Address;
  EndBlock : Z;
  Escrow : Z
}.

Record TimeParams := {
  RoundLength : Z;
  JobEndingPeriod : Z;
  VerificationPeriod : Z;
  SlashingPeriod : Z;
  UnbondingPeriod : Z
}.

(** The constant calls of the contract sessions and the block query of
    the node, as the chain answers them at the time of the call. *)
Record Chain := {
  RoundsManager_CurrentRound : Session -> Result Z;
  RoundsManager_CurrentRoundStartBlock : Session -> Result Z;
  RoundsManager_CurrentRoundInitialized : Session -> Result bool;
  RoundsManager_RoundLength : Session -> Result Z;
  JobsManager_JobEndingPeriod : Session -> Result Z;
  JobsManager_VerificationPeriod : Session -> Result Z;
  JobsManager_SlashingPeriod : Session -> Result Z;
  JobsManager_Jobs : Session -> Z -> Result JobInfo;
  BondingManager_UnbondingPeriod : Session -> Result Z;
  BondingManager_IsActiveTranscoder : Session -> Address -> Result bool;
  BondingManager_Transcoders : Session -> Address -> Result TranscoderInfo;
  BondingManager_TranscoderTotalStake : Session -> Address -> Result Z;
  BondingManager_TranscoderStatus : Session -> Address -> Result Z;
  BondingManager_DelegatorStake : Session -> Address -> Result Z;
  Token_BalanceOf : Session -> Address -> Result Z;
  latestBlockNumber : Result Z     (* BlockByNumber(ctx, nil), then Number() *)
}.

(** A call through a session pointer: a nil pointer is dereferenced. *)
Definition through {A} (session : option Session) (call : Session -> A) : Panics A :=
  match session with
  | None =>
      Panicked (AnyError (RuntimeError "invalid memory address or nil pointer dereference"))
  | Some sess => Returned (call sess)
  end.

(** [RoundInfo]: current round, its start block, the latest block. *)
Definition RoundInfo (ch : Chain) (c : Client)
  : Panics (option Z * option Z * option Z * option error) :=
  r <-! through (roundsManagerSession c) (RoundsManager_CurrentRound ch) ;;
  match r with
  | Err err => Returned (None, None, None, Some err)
  | Ok cr =>
      r <-! through (roundsManagerSession c) (RoundsManager_CurrentRoundStartBlock ch) ;;
      match r with
      | Err err => Returned (None, None, None, Some err)
      | Ok crsb =>
          match latestBlockNumber ch with
          | Err err => Returned (None, None, None, Some err)
          | Ok number => Returned (Some cr, Some crsb, Some number, None)
          end
      end
  end.

Definition CurrentRoundInitialized (ch : Chain) (c : Client)
  : Panics (bool * option error) :=
  r <-! through (roundsManagerSession c) (RoundsManager_CurrentRoundInitialized ch) ;;
  match r with
  | Err err => Returned (false, Some err)
  | Ok initialized => Returned (initialized, None)
  end.

Definition IsActiveTranscoder (ch : Chain) (c : Client) : Panics (Result bool) :=
  through (bondingManagerSession c)
    (fun sess => BondingManager_IsActiveTranscoder ch sess (acc_Address (account c))).

Definition TranscoderBond (ch : Chain) (c : Client) : Panics (Result Z) :=
  r <-! through (bondingManagerSession c)
          (fun sess => BondingManager_Transcoders ch sess (acc_Address (account c))) ;;
  match r with
  | Err err => Returned (Err err)
  | Ok transcoder => Returned (Ok (BondedAmount transcoder))
  end.

Definition TranscoderStake (ch : Chain) (c : Client) : Panics (Result Z) :=
  through (bondingManagerSession c)
    (fun sess => BondingManager_TranscoderTotalStake ch sess (acc_Address (account c))).

Definition TranscoderStatus (ch : Chain) (c : Client) : Panics (Result Z) :=
  through (bondingManagerSession c)
    (fun sess => BondingManager_TranscoderStatus ch sess (acc_Address (account c))).

Definition DelegatorStake (ch : Chain) (c : Client) : Panics (Result Z) :=
  through (bondingManagerSession c)
    (fun sess => BondingManager_DelegatorStake ch sess (acc_Address (account c))).

Definition LastRewardRound (ch : Chain) (c : Client) : Panics (Result Z) :=
  r <-! through (bondingManagerSession c)
          (fun sess => BondingManager_Transcoders ch sess (acc_Address (account c))) ;;
  match r with
  | Err err => Returned (Err err)
  | Ok transcoderDetails => Returned (Ok (LastRewardRound_ transcoderDetails))
  end.

(** [ProtocolTimeParams]: five reads, through three sessions. *)
Definition ProtocolTimeParams (ch : Chain) (c : Client) : Panics (Result TimeParams) :=
  r <-! through (roundsManagerSession c) (RoundsManager_RoundLength ch) ;;
  match r with
  | Err err => Returned (Err err)
  | Ok roundLength =>
  r <-! through (jobsManagerSession c) (JobsManager_JobEndingPeriod ch) ;;
  match r with
  | Err err => Returned (Err err)
  | Ok jobEndingPeriod =>
  r <-! through (jobsManagerSession c) (JobsManager_VerificationPeriod ch) ;;
  match r with
  | Err err => Returned (Err err)
  | Ok verificationPeriod =>
  r <-! through (jobsManagerSession c) (JobsManager_SlashingPeriod ch) ;;
  match r with
  | Err err => Returned (Err err)
  | Ok slashingPeriod =>
  r <-! through (bondingManagerSession c) (BondingManager_UnbondingPeriod ch) ;;
  match r with
  | Err err => Returned (Err err)
  | Ok unbondingPeriod =>
      Returned (Ok {| RoundLength := roundLength;
                      JobEndingPeriod := jobEndingPeriod;
                      VerificationPeriod := verificationPeriod;
                      SlashingPeriod := slashingPeriod;
                      UnbondingPeriod := unbondingPeriod |})
  end end end end end.

Definition GetJob (ch : Chain) (c : Client) (jobID : Z) : Panics (Result JobInfo) :=
  through (jobsManagerSession c) (fun sess => JobsManager_Jobs ch sess jobID).

Definition TokenBalance (ch : Chain) (c : Client) : Result Z :=
  Token_BalanceOf ch (tokenSession c) (acc_Address (account c)).

(** The call returns: it does not panic. *)
Definition returns {A} (m : Panics A) : Prop := exists a, m = Returned a.

(** A chain on which every read succeeds. *)
Definition steadyChain : Chain :=
  {| RoundsManager_CurrentRound := fun _ => Ok 12;
     RoundsManager_CurrentRoundStartBlock := fun _ => Ok 240;
     RoundsManager_CurrentRoundInitialized := fun _ => Ok true;
     RoundsManager_RoundLength := fun _ => Ok 20;
     JobsManager_JobEndingPeriod := fun _ => Ok 100;
     JobsManager_VerificationPeriod := fun _ => Ok 100;
     JobsManager_SlashingPeriod := fun _ => Ok 100;
     JobsManager_Jobs := fun _ _ => Err (External 404);
     BondingManager_UnbondingPeriod := fun _ => Ok 2;
     BondingManager_IsActiveTranscoder := fun _ _ => Ok false;
     BondingManager_Transcoders := fun _ _ =>
       Ok {| BondedAmount := 0; LastRewardRound_ := 0 |};
     BondingManager_TranscoderTotalStake := fun _ _ => Ok 0;
     BondingManager_TranscoderStatus := fun _ _ => Ok 0;
     BondingManager_DelegatorStake := fun _ _ => Ok 0;
     Token_BalanceOf := fun _ _ => Ok 1000;
     latestBlockNumber := Ok 251 |}.

(** The same chain with a node that does not answer the block query. *)
Definition blocklessChain : Chain :=
  {| RoundsManager_CurrentRound := fun _ => Ok 12;
     RoundsManager_CurrentRoundStartBlock := fun _ => Ok 240;
     RoundsManager_CurrentRoundInitialized := fun _ => Ok true;
     RoundsManager_RoundLength := fun _ => Ok 20;
     JobsManager_JobEndingPeriod := fun _ => Ok 100;
     JobsManager_VerificationPeriod := fun _ => Err (External 5);
     JobsManager_SlashingPeriod := fun _ => Ok 100;
     JobsManager_Jobs := fun _ _ => Err (External 404);
     BondingManager_UnbondingPeriod := fun _ => Err (External 6);
     BondingManager_IsActiveTranscoder := fun _ _ => Ok false;
     BondingManager_Transcoders := fun _ _ =>
       Ok {| BondedAmount := 0; LastRewardRound_ := 0 |};
     BondingManager_TranscoderTotalStake := fun _ _ => Ok 0;
     BondingManager_TranscoderStatus := fun _ _ => Ok 0;
     BondingManager_DelegatorStake := fun _ _ => Ok 0;
     Token_BalanceOf := fun _ _ => Ok 1000;
     latestBlockNumber := Err (External 503) |}.

End Reads.

Module ReadsVocabulary.
Import Go Eth Bindings.

(** The error of the first failed read of a list, if any. *)
Fixpoint firstError {A} (reads : list (Result A)) : option error :=
  match reads with
  | [] => None
  | Ok _ :: rest => firstError rest
  | Err err :: _ => Some err
  end.

(** The resolution of role [r] fails against [w]: the registry lookup
    fails, or the handle for the address found cannot be built. *)
Definition resolutionFails (w : World) (protocol : Session) (r : Role) : Prop :=
  (exists err, lookup w protocol r = Err err) \/
  (exists a err, lookup w protocol r = Ok a /\ construct w r a = Err err).

End ReadsVocabulary.

(* ================================================================== *)
(** * Vocabulary for statements about the transcoder *)
(* ================================================================== *)

Module Renditions.
Import Go Core.
Local Open Scope string_scope.

Definition isDetectorOption (o : TranscodeOptions) : bool :=
  match Detector o with Some _ => true | None => false end.

(** The results that belong to renditions, and those that belong to
    detectors, when [encoded] lists the results of [opts] in order. *)
Definition renditionResults (opts : list TranscodeOptions) (encoded : list MediaInfo)
  : list MediaInfo :=
  map snd (filter (fun p => negb (isDetectorOption (fst p))) (combine opts encoded)).

Definition detectorResults (opts : list TranscodeOptions) (encoded : list MediaInfo)
  : list MediaInfo :=
  map snd (filter (fun p => isDetectorOption (fst p)) (combine opts encoded)).

(** A profile that [detectorsToTranscodeOptions] can convert: a pointer
    to a scene classification profile, or a profile of another
    implementation that reports another type. *)
Definition convertible (p : DetectorProfile) : bool :=
  match p with
  | SceneClassificationPtr _ => true
  | ForeignDetector (Returned (OtherDetectorType _)) => true
  | _ => false
  end.

(** The panic of a profile that cannot be converted: the nil dereference
    of a nil interface value or a nil pointer, the panic of a foreign
    [Type()], or the failed type assertion of a foreign profile that
    reports the scene classification type. *)
Definition panicOf (p : DetectorProfile) : any :=
  match p with
  | NilDetectorProfile | NilSceneClassificationPtr => nilPointerPanic
  | ForeignDetector (Panicked v) => v
  | _ => AnyError (RuntimeError "interface conversion")
  end.

(** The option [detectorsToTranscodeOptions] makes for a profile that it
    can convert. *)
Definition detectorOptionFor (x : Externals) (accel : Acceleration)
    (p : DetectorProfile) (o : TranscodeOptions) : Prop :=
  match p with
  | SceneClassificationPtr _ =>
      o = {| Oname := ""; Profile := None;
             Detector := Some {| ModelPath := ModelPath (DSceneAdultSoccer x);
                                 Input := Input (DSceneAdultSoccer x);
                                 Output := Output (DSceneAdultSoccer x) |};
             Accel := accel; AudioEncoder := ""; CalcSign := false |}
  | ForeignDetector (Returned (OtherDetectorType _)) => o = zeroTranscodeOptions
  | _ => False
  end.

(** The file system after [resToTranscodeData] has dealt with an option:
    for a rendition the hash file (if one was asked for) and the output
    have been removed. *)
Definition afterOption (x : Externals) (fs : FileSystem) (o : TranscodeOptions)
  : FileSystem :=
  match Detector o with
  | Some _ => fs
  | None =>
      removeFile x (if CalcSign o then removeFile x fs (Oname o ++ ".bin") else fs)
        (Oname o)
  end.

Definition afterOptions (x : Externals) (fs : FileSystem)
    (opts : list TranscodeOptions) : FileSystem :=
  fold_left (afterOption x) opts fs.

(** [segs] holds one segment per rendition among [opts], in order, each
    with the bytes of its output and of its hash file (if one was asked
    for) as the file system stood when its turn came. *)
Inductive delivered (x : Externals)
  : FileSystem -> list TranscodeOptions -> list TranscodedSegmentData -> Prop :=
| delivered_nil (fs : FileSystem) : delivered x fs [] []
| delivered_detector (fs : FileSystem) (o : TranscodeOptions)
    (opts : list TranscodeOptions) (segs : list TranscodedSegmentData) :
    Detector o <> None ->
    delivered x fs opts segs ->
    delivered x fs (o :: opts) segs
| delivered_rendition (fs : FileSystem) (o : TranscodeOptions)
    (opts : list TranscodeOptions) (seg : TranscodedSegmentData)
    (segs : list TranscodedSegmentData) :
    Detector o = None ->
    fs (Oname o) = Ok (Data seg) ->
    (if CalcSign o
     then exists s, fs (Oname o ++ ".bin") = Ok s /\ PHash seg = Some s
     else PHash seg = None) ->
    delivered x (afterOption x fs o) opts segs ->
    delivered x fs (o :: opts) (seg :: segs).

(** The loop of [resToTranscodeData] stops at [o], after [before]: the
    output of [o] or its hash file cannot be read, with the error [err]. *)
Definition unreadableAt (x : Externals) (fs : FileSystem)
    (before : list TranscodeOptions) (o : TranscodeOptions) (err : error) : Prop :=
  Detector o = None /\
  (exists segs, delivered x fs before segs) /\
  let fs' := afterOptions x fs before in
  (fs' (Oname o) = Err err \/
   (exists data, fs' (Oname o) = Ok data /\ CalcSign o = true /\
                 fs' (Oname o ++ ".bin") = Err err)).


(** A data or an error, one of the two. *)
Definition oneOfTwo (r : option TranscodeData * option error) : Prop :=
  match r with
  | (Some _, None) | (None, Some _) => True
  | _ => False
  end.

(** The name [profilesToTranscodeOptions] gives to its [i]-th output. *)
Definition outputName (x : Externals) (workDir : string) (i : nat) : string :=
  workDir ++ "/out_" ++ RandName x i ++ ".tempfile".

(** The input description the two transcoders hand to ffmpeg. *)
Definition softwareInput (md : SegTranscodingMetadata) : TranscodeOptionsIn :=
  {| in_Fname := Fname md; in_Accel := Software; in_Device := "" |}.

Definition nvidiaInput (nv : NvidiaTranscoder) (md : SegTranscodingMetadata)
  : TranscodeOptionsIn :=
  {| in_Fname := Fname md; in_Accel := Nvidia; in_Device := device nv |}.

(** An ffmpeg binding that answers every transcode call with [answer],
    on a file system where every file reads as [content]. *)
Definition answeringFfmpeg
    (answer : Panics (option TranscodeResults * option error))
    (content : Result (list byte)) : Externals :=
  {| Transcode3 := fun _ _ => answer;
     session_Transcode := fun _ _ => answer;
     monitor_Enabled := true;
     SegmentTranscoded := fun _ => Returned tt;
     ReadFile := fun _ => content;
     Remove := fun _ => None;
     RandName := fun i => String (ascii_of_nat (97 + i)) "";
     WorkDir := "/tmp";
     DSceneAdultSoccer := {| ModelPath := "m"; Input := "i"; Output := "o" |} |}.

(** The same, with the one name "r" for every output. *)
Definition sameNameFfmpeg
    (answer : Panics (option TranscodeResults * option error))
    (content : Result (list byte)) : Externals :=
  {| Transcode3 := fun _ _ => answer;
     session_Transcode := fun _ _ => answer;
     monitor_Enabled := true;
     SegmentTranscoded := fun _ => Returned tt;
     ReadFile := fun _ => content;
     Remove := fun _ => None;
     RandName := fun _ => "r";
     WorkDir := "/tmp";
     DSceneAdultSoccer := {| ModelPath := "m"; Input := "i"; Output := "o" |} |}.

Definition twoRenditions : TranscodeResults :=
  {| Decoded := {| Frames := 60; mi_Pixels := 1000; DetectData := 0 |};
     Encoded := [{| Frames := 60; mi_Pixels := 250; DetectData := 0 |};
                 {| Frames := 60; mi_Pixels := 500; DetectData := 0 |}] |}.

(** A segment to transcode into two renditions, with perceptual hashes. *)
Definition twoProfiles : SegTranscodingMetadata :=
  {| Fname := "http://host/stream/mid1/17.ts";
     Profiles := [{| ProfileName := "P240p30fps16x9" |};
                  {| ProfileName := "P360p30fps16x9" |}];
     CalcPerceptualHash := true;
     DetectorEnabled := false;
     DetectorProfiles := [];
     Duration_ := 2000 |}.

Definition oneRendition : TranscodeResults :=
  {| Decoded := {| Frames := 60; mi_Pixels := 1000; DetectData := 0 |};
     Encoded := [{| Frames := 60; mi_Pixels := 250; DetectData := 0 |}] |}.

End Renditions.

(* ================================================================== *)
(** * Package [core]: the capability tests of [core/transcoder.go] *)
(* ================================================================== *)

From Stdlib Require Import DecimalString.

Module CapabilityTests.
Import Go Core.
Local Open Scope string_scope.
Local Open Scope Z_scope.
Local Open Scope list_scope.

Definition Capability := Z.

Record CapabilityTest := {
  inVideoData : list byte;
  outProfile : VideoProfile
}.

(** What [core/capabilities.go] declares and this file uses: the two
    capability lists, the table of test segments, the names, and the
    membership test [InArray]. *)
Record CapabilityTables := {
  DefaultCapabilities : list Capability;
  OptionalCapabilities : list Capability;
  CapabilityTestLookup : Capability -> option CapabilityTest;
  CapabilityToName : Capability -> Result string;
  InArray : Capability -> list Capability -> bool
}.

(** The gzip reader and the file system of the test loop, and the ffmpeg
    binding as it behaves while the segment file holds the test segment of
    a capability. *)
Record TestBench := {
  gzip_NewReader : list byte -> Result (list byte);
  ioutil_ReadAll : list byte -> Result (list byte);
  ioutil_WriteFile : string -> list byte -> option error;
  segmentPath : string;     (* filepath.Join(WorkDir, "testseg.tempfile") *)
  ffmpegOn : Capability -> Externals
}.

Record transcodeTestParams := {
  TestAvailable : bool;
  Cap : Capability;
  OutProfile : VideoProfile;
  SegmentPath : string
}.

Definition IsRequired (ct : CapabilityTables) (params : transcodeTestParams) : bool :=
  InArray ct (Cap params) (DefaultCapabilities ct).

Definition Kind (ct : CapabilityTables) (params : transcodeTestParams) : string :=
  if IsRequired ct params then "required capability" else "optional capability".

Definition Name (ct : CapabilityTables) (params : transcodeTestParams) : string :=
  match CapabilityToName ct (Cap params) with
  | Ok name => name
  | Err _ => "unknown"
  end.

Definition continueLoop := bool.

(** The loop of [forEachTranscoderSample].  [S] is what the handler keeps
    between its calls (the variables its closure captures).  A test
    segment that cannot be unpacked or written makes the loop go on to the
    next capability without calling the handler. *)
Fixpoint forEachTranscoderSample_loop {S : Type} (ct : CapabilityTables)
    (tb : TestBench) (handler : transcodeTestParams -> S -> Panics (S * continueLoop))
    (allCaps : list Capability) (handlerParams : transcodeTestParams) (s : S)
  : Panics S :=
  match allCaps with
  | [] => Returned s
  | cap :: rest =>
      match CapabilityTestLookup ct cap with
      | Some capTest =>
          let handlerParams :=
            {| TestAvailable := true; Cap := cap;
               OutProfile := outProfile capTest;
               SegmentPath := SegmentPath handlerParams |} in
          match gzip_NewReader tb (inVideoData capTest) with
          | Err _ => forEachTranscoderSample_loop ct tb handler rest handlerParams s
          | Ok z =>
              match ioutil_ReadAll tb z with
              | Err _ => forEachTranscoderSample_loop ct tb handler rest handlerParams s
              | Ok mp4testSeg =>
                  match ioutil_WriteFile tb (SegmentPath handlerParams) mp4testSeg with
                  | Some _ =>
                      forEachTranscoderSample_loop ct tb handler rest handlerParams s
                  | None =>
                      '(s, goOn) <-! handler handlerParams s ;;
                      if negb goOn then Returned s
                      else forEachTranscoderSample_loop ct tb handler rest
                             handlerParams s
                  end
              end
          end
      | None =>
          let handlerParams :=
            {| TestAvailable := false; Cap := cap;
               OutProfile := OutProfile handlerParams;
               SegmentPath := SegmentPath handlerParams |} in
          '(s, goOn) <-! handler handlerParams s ;;
          if negb goOn then Returned s
          else forEachTranscoderSample_loop ct tb handler rest handlerParams s
      end
  end.

Definition forEachTranscoderSample {S : Type} (ct : CapabilityTables)
    (tb : TestBench) (handler : transcodeTestParams -> S -> Panics (S * continueLoop))
    (s : S) : Panics S :=
  let allCaps := DefaultCapabilities ct ++ OptionalCapabilities ct in
  let handlerParams :=
    {| TestAvailable := false; Cap := 0;
       OutProfile := {| ProfileName := "" |};
       SegmentPath := segmentPath tb |} in
  forEachTranscoderSample_loop ct tb handler allCaps handlerParams s.

(** The metadata of a test transcode: only the file and the profiles. *)
Definition testMetadata (fname : string) (profile : VideoProfile)
    (renditionCount : nat) : SegTranscodingMetadata :=
  {| Fname := fname;
     Profiles := repeat profile renditionCount;
     CalcPerceptualHash := false;
     DetectorEnabled := false;
     DetectorProfiles := [];
     Duration_ := 0 |}.

(** The end of both test transcodes: [td] is read only when there is no
    error, and a nil [td] is dereferenced then. *)
Definition testOutcome (r : option TranscodeData * option error)
  : Panics (bool * bool * option error) :=
  let '(td, err) := r in
  match err with
  | Some err => Returned (false, false, Some err)
  | None =>
      match td with
      | None =>
          Panicked (AnyError (RuntimeError "invalid memory address or nil pointer dereference"))
      | Some td =>
          Returned ((0 <? List.length (Segments td))%nat, 0 <? Pixels td, None)
      end
  end.

(** [transcoder.Stop()] releases the session of the binding; it has no
    result and is left out. *)
Definition testNvidiaTranscode (x : Externals) (device fname : string)
    (profile : VideoProfile) (renditionCount : nat)
  : Panics (bool * bool * option error) :=
  let transcoder := {| Core.device := device |} in
  testOutcome (NvidiaTranscoder_Transcode x transcoder
                 (testMetadata fname profile renditionCount)).

Definition testSoftwareTranscode (x : Externals) (tmpdir fname : string)
    (profile : VideoProfile) (renditionCount : nat)
  : Panics (bool * bool * option error) :=
  let transcoder := {| workDir := tmpdir |} in
  testOutcome (LocalTranscoder_Transcode x transcoder
                 (testMetadata fname profile renditionCount)).

Definition formatInt (z : Z) : string := NilZero.string_of_int (Z.to_int z).

(** The handler of [TestSoftwareTranscoderCapabilities]; it keeps [caps]
    and [fatalError]. *)
Definition softwareHandler (tb : TestBench) (tmpdir : string)
    (params : transcodeTestParams) (s : list Capability * option error)
  : Panics (list Capability * option error * continueLoop) :=
  let '(caps, fatalError) := s in
  if negb (TestAvailable params) then Returned (caps ++ [Cap params], fatalError, true)
  else
    '(outputProduced, outputValid, err) <-!
       testSoftwareTranscode (ffmpegOn tb (Cap params)) tmpdir (SegmentPath params)
         (OutProfile params) 4 ;;
    match err with
    | Some _ => Returned (caps, fatalError, true)
    | None =>
        if negb outputProduced || negb outputValid then
          Returned (caps,
                    Some (Errorf "empty result segment when testing for capability %d"
                            [formatInt (Cap params)]),
                    false)
        else Returned (caps ++ [Cap params], fatalError, true)
    end.

Definition TestSoftwareTranscoderCapabilities (ct : CapabilityTables)
    (tb : TestBench) (tmpdir : string) : Panics (list Capability * option error) :=
  forEachTranscoderSample ct tb (softwareHandler tb tmpdir) ([], None).

Definition restrictedError : error :=
  Errorf "maximum number of simultaneous NVENC video encoding sessions is restricted by driver" [].

(** The closure [transcodingFailed]: the new values of
    [runRestrictedSessionTest] and [fatalError].  [devices[0]] is indexed
    without a check. *)
Definition transcodingFailed (ct : CapabilityTables) (tb : TestBench)
    (devices : list string) (params : transcodeTestParams)
    (runRestrictedSessionTest : bool) (fatalError : option error)
  : Panics (bool * option error) :=
  fatalError <-!
    (if runRestrictedSessionTest then
       match devices with
       | [] => Panicked (AnyError (RuntimeError "index out of range [0] with length 0"))
       | device0 :: _ =>
           '(outputProduced, outputValid, err) <-!
              testNvidiaTranscode (ffmpegOn tb (Cap params)) device0
                (SegmentPath params) (OutProfile params) 3 ;;
           if negb (isNil err) && outputProduced && outputValid
           then Returned (Some restrictedError)
           else Returned fatalError
       end
     else Returned fatalError) ;;
  if IsRequired ct params then
    Returned (false,
              Some (Errorf "%s %q is not supported on hardware"
                      [Kind ct params; Name ct params]))
  else Returned (false, fatalError).

(** The loop over the devices in the handler of
    [TestTranscoderCapabilities], and what follows it. *)
Fixpoint nvidiaDevices_loop (ct : CapabilityTables) (tb : TestBench)
    (devices : list string) (params : transcodeTestParams)
    (remaining : list string) (runRestrictedSessionTest : bool)
    (caps : list Capability) (fatalError : option error)
  : Panics (list Capability * option error * continueLoop) :=
  match remaining with
  | [] => Returned (caps ++ [Cap params], fatalError, true)
  | device :: rest =>
      '(outputProduced, outputValid, err) <-!
         testNvidiaTranscode (ffmpegOn tb (Cap params)) device (SegmentPath params)
           (OutProfile params) 4 ;;
      if negb (isNil err) then
        '(_, fatalError) <-! transcodingFailed ct tb devices params
                               runRestrictedSessionTest fatalError ;;
        Returned (caps, fatalError, isNil fatalError)
      else if negb outputProduced || negb outputValid then
        '(_, fatalError) <-! transcodingFailed ct tb devices params
                               runRestrictedSessionTest fatalError ;;
        Returned (caps, fatalError, isNil fatalError)
      else nvidiaDevices_loop ct tb devices params rest false caps fatalError
  end.

Definition nvidiaHandler (ct : CapabilityTables) (tb : TestBench)
    (devices : list string) (params : transcodeTestParams)
    (s : list Capability * option error)
  : Panics (list Capability * option error * continueLoop) :=
  let '(caps, fatalError) := s in
  if negb (TestAvailable params) then Returned (caps ++ [Cap params], fatalError, true)
  else nvidiaDevices_loop ct tb devices params devices true caps fatalError.

Definition TestTranscoderCapabilities (ct : CapabilityTables) (tb : TestBench)
    (devices : list string) : Panics (list Capability * option error) :=
  forEachTranscoderSample ct tb (nvidiaHandler ct tb devices) ([], None).

(** ** Vocabulary *)

(** [l1] is [l2] with some elements left out. *)
Inductive Subsequence {A : Type} : list A -> list A -> Prop :=
| sub_nil : Subsequence [] []
| sub_skip (x : A) (l1 l2 : list A) : Subsequence l1 l2 -> Subsequence l1 (x :: l2)
| sub_take (x : A) (l1 l2 : list A) : Subsequence l1 l2 -> Subsequence (x :: l1) (x :: l2).

(** The test segment of the capability reaches the segment file. *)
Definition segmentReady (ct : CapabilityTables) (tb : TestBench) (cap : Capability)
  : bool :=
  match CapabilityTestLookup ct cap with
  | None => true
  | Some capTest =>
      match gzip_NewReader tb (inVideoData capTest) with
      | Err _ => false
      | Ok z =>
          match ioutil_ReadAll tb z with
          | Err _ => false
          | Ok mp4testSeg =>
              match ioutil_WriteFile tb (segmentPath tb) mp4testSeg with
              | Some _ => false
              | None => true
              end
          end
      end
  end.

Definition allCapabilities (ct : CapabilityTables) : list Capability :=
  DefaultCapabilities ct ++ OptionalCapabilities ct.

(** The error for a required capability that a device does not support. *)
Definition unsupportedError (ct : CapabilityTables) (cap : Capability) : error :=
  Errorf "%s %q is not supported on hardware"
    ["required capability";
     match CapabilityToName ct cap with Ok name => name | Err _ => "unknown" end].

(** Tables with one required capability (tested) and two optional ones
    (one tested, one not), and a bench whose ffmpeg always fails. *)
Definition sampleTables : CapabilityTables :=
  {| DefaultCapabilities := [1];
     OptionalCapabilities := [2; 3];
     CapabilityTestLookup := fun cap =>
       if (cap =? 1) || (cap =? 2)
       then Some {| inVideoData := [x1f; x8b];
                    outProfile := {| ProfileName := "P144p30fps16x9" |} |}
       else None;
     CapabilityToName := fun cap => if cap =? 1 then Ok "H264" else Err (External 1);
     InArray := fun cap l => existsb (Z.eqb cap) l |}.

Definition failingBench : TestBench :=
  {| gzip_NewReader := fun data => Ok data;
     ioutil_ReadAll := fun z => Ok z;
     ioutil_WriteFile := fun _ _ => None;
     segmentPath := "/tmp/testseg.tempfile";
     ffmpegOn := fun _ =>
       Renditions.answeringFfmpeg (Returned (None, Some (External 12))) (Ok []) |}.

(** The software test of the capability, if there is one, ran on its
    segment and produced valid output. *)
Definition softwarePasses (ct : CapabilityTables) (tb : TestBench)
    (tmpdir : string) (cap : Capability) : Prop :=
  match CapabilityTestLookup ct cap with
  | None => True
  | Some capTest =>
      segmentReady ct tb cap = true /\
      testSoftwareTranscode (ffmpegOn tb cap) tmpdir (segmentPath tb)
        (outProfile capTest) 4 = Returned (true, true, None)
  end.

(** The same on every device of the list. *)
Definition nvidiaPasses (ct : CapabilityTables) (tb : TestBench)
    (devices : list string) (cap : Capability) : Prop :=
  match CapabilityTestLookup ct cap with
  | None => True
  | Some capTest =>
      segmentReady ct tb cap = true /\
      forall device, In device devices ->
        testNvidiaTranscode (ffmpegOn tb cap) device (segmentPath tb)
          (outProfile capTest) 4 = Returned (true, true, None)
  end.

(** The test of the capability returned without an error and without a
    valid output. *)
Definition softwareComesBackEmpty (ct : CapabilityTables) (tb : TestBench)
    (tmpdir : string) (cap : Capability) : Prop :=
  exists capTest outputProduced outputValid,
    CapabilityTestLookup ct cap = Some capTest /\
    testSoftwareTranscode (ffmpegOn tb cap) tmpdir (segmentPath tb)
      (outProfile capTest) 4 = Returned (outputProduced, outputValid, None) /\
    outputProduced && outputValid = false.

Definition emptyResultError (cap : Capability) : error :=
  Errorf "empty result segment when testing for capability %d" [formatInt cap].

Definition fourRenditions : TranscodeResults :=
  {| Decoded := {| Frames := 60; mi_Pixels := 1000; DetectData := 0 |};
     Encoded := repeat {| Frames := 60; mi_Pixels := 250; DetectData := 0 |} 4 |}.

(** A bench whose ffmpeg fails on the segment of capability 2 and delivers
    four renditions on the others. *)
Definition workingBench : TestBench :=
  {| gzip_NewReader := fun data => Ok data;
     ioutil_ReadAll := fun z => Ok z;
     ioutil_WriteFile := fun _ _ => None;
     segmentPath := "/tmp/testseg.tempfile";
     ffmpegOn := fun cap =>
       Renditions.answeringFfmpeg
         (if cap =? 2 then Returned (None, Some (External 12))
          else Returned (Some fourRenditions, None))
         (Ok [x00; x01]) |}.

End CapabilityTests.

(* ================================================================== *)
(** * Properties *)
(* ================================================================== *)

(** ** Splitting and number parsing *)

Section SplitFacts.
Import Go Text.
Local Open Scope string_scope.

Lemma Split_length (s : string) (sep : ascii) :
  List.length (Split s sep) = S (count sep s).
Proof.
  induction s as [|c s IH]; simpl; [reflexivity|].
  destruct (Ascii.eqb c sep); simpl.
  - now rewrite IH.
  - destruct (Split s sep) as [|p ps]; simpl in *; [discriminate|exact IH].
Qed.

Lemma Split_join (s : string) (sep : ascii) : join sep (Split s sep) = s.
Proof.
  induction s as [|c s IH]; simpl; [reflexivity|].
  destruct (Ascii.eqb c sep) eqn:E.
  - apply Ascii.eqb_eq in E; subst c.
    pose proof (Split_length s sep) as L.
    destruct (Split s sep) as [|p ps]; [discriminate|].
    cbn [join]. simpl. now rewrite <- IH.
  - pose proof (Split_length s sep) as L.
    destruct (Split s sep) as [|p ps]; [discriminate|].
    destruct ps; simpl in *; now rewrite <- IH.
Qed.

Lemma Split_no_sep (s : string) (sep : ascii) :
  Forall (fun p => count sep p = 0) (Split s sep).
Proof.
  induction s as [|c s IH]; simpl.
  - constructor; [reflexivity|constructor].
  - destruct (Ascii.eqb c sep) eqn:E.
    + constructor; [reflexivity|exact IH].
    + destruct (Split s sep) as [|p ps].
      * constructor; [simpl; now rewrite E|constructor].
      * inversion IH; subst. constructor; [simpl; now rewrite E|assumption].
Qed.

Lemma Split_first (s : string) (sep : ascii) :
  nth 0 (Split s sep) "" = beforeFirst sep s.
Proof.
  induction s as [|c s IH]; simpl; [reflexivity|].
  destruct (Ascii.eqb c sep); [reflexivity|].
  pose proof (Split_length s sep) as L.
  destruct (Split s sep) as [|p ps]; [discriminate|].
  simpl in *. now rewrite IH.
Qed.

Lemma nth_last_part (parts : list string) :
  nth (List.length parts - 1) parts "" = last parts "".
Proof.
  induction parts as [|p ps IH]; [reflexivity|].
  destruct ps as [|q qs]; [reflexivity|].
  change (last (p :: q :: qs) "") with (last (q :: qs) "").
  rewrite <- IH. simpl. now rewrite Nat.sub_0_r.
Qed.

Lemma nth_secondToLast (parts : list string) :
  (2 <= List.length parts)%nat ->
  nth (List.length parts - 2) parts "" = secondToLast parts.
Proof.
  intros H. unfold secondToLast.
  assert (E : nth 1 (rev parts) "" = nth (List.length parts - 2) parts "").
  { rewrite rev_nth by lia. f_equal. }
  rewrite <- E.
  pose proof (length_rev parts) as L.
  destruct (rev parts) as [|a [|b l]]; simpl in *; try lia. reflexivity.
Qed.

End SplitFacts.

Section ParseUintFacts.
Import Go Text.
Local Open Scope string_scope.
Local Open Scope Z_scope.

Lemma decimalValue_from_grows (s : string) :
  forall acc v, 0 <= acc -> decimalValue_from s acc = Some v -> acc <= v.
Proof.
  induction s as [|c s IH]; cbn [decimalValue_from]; intros acc v Hacc H.
  - injection H as <-. lia.
  - set (d := Z.of_N (N_of_ascii c)) in *.
    destruct ((48 <=? d) && (d <=? 57)) eqn:D; [|discriminate].
    apply andb_prop in D as [D1 D2].
    apply Z.leb_le in D1. apply Z.leb_le in D2.
    apply IH in H; lia.
Qed.

Lemma digitOf_decimal (d : Z) :
  48 <= d <= 57 -> digitOf d = Some (d - 48).
Proof.
  intros H. unfold digitOf.
  replace (48 <=? d) with true by (symmetry; apply Z.leb_le; lia).
  replace (d <=? 57) with true by (symmetry; apply Z.leb_le; lia).
  reflexivity.
Qed.

Lemma digitOf_other (d : Z) :
  ~ (48 <= d <= 57) -> match digitOf d with Some x => 10 <= x | None => True end.
Proof.
  intros H. unfold digitOf.
  destruct ((48 <=? d) && (d <=? 57)) eqn:D.
  - apply andb_prop in D as [D1 D2].
    apply Z.leb_le in D1. apply Z.leb_le in D2. lia.
  - destruct ((97 <=? lower d) && (lower d <=? 122)) eqn:L; [|exact I].
    apply andb_prop in L as [L1 _]. apply Z.leb_le in L1. lia.
Qed.

(** The loop agrees with the decimal reading as long as the value fits,
    and reports an error otherwise. *)
Lemma parseUintLoop_decimal (s : string) :
  forall n, 0 <= n <= maxUint64 ->
  match decimalValue_from s n with
  | Some v =>
      if v <=? maxUint64
      then parseUintLoop false 10 cutoff10 maxUint64 s false n = (v, false, None)
      else exists m k,
             parseUintLoop false 10 cutoff10 maxUint64 s false n = (m, false, Some k)
  | None => exists m k,
             parseUintLoop false 10 cutoff10 maxUint64 s false n = (m, false, Some k)
  end.
Proof.
  induction s as [|c s IH]; intros n Hn.
  - simpl. replace (n <=? maxUint64) with true by (symmetry; apply Z.leb_le; lia).
    reflexivity.
  - cbn [decimalValue_from parseUintLoop]. rewrite andb_false_r. unfold byteOf.
    set (d := Z.of_N (N_of_ascii c)).
    destruct ((48 <=? d) && (d <=? 57)) eqn:D.
    + apply andb_prop in D as [D1 D2].
      apply Z.leb_le in D1. apply Z.leb_le in D2.
      rewrite digitOf_decimal by lia.
      replace (10 <=? d - 48) with false by (symmetry; apply Z.leb_gt; lia).
      unfold cutoff10, maxUint64 in *.
      destruct (1844674407370955162 <=? n) eqn:C.
      * apply Z.leb_le in C.
        destruct (decimalValue_from s (10 * n + (d - 48))) as [v|] eqn:V;
          [|eauto].
        apply decimalValue_from_grows in V; [|lia].
        replace (v <=? 18446744073709551615) with false
          by (symmetry; apply Z.leb_gt; lia).
        eauto.
      * apply Z.leb_gt in C.
        assert (W : wrap64 (n * 10) = n * 10).
        { unfold wrap64. apply Z.mod_small. lia. }
        rewrite W.
        destruct (n * 10 + (d - 48) <=? 18446744073709551615) eqn:F.
        -- apply Z.leb_le in F.
           assert (W1 : wrap64 (n * 10 + (d - 48)) = 10 * n + (d - 48)).
           { unfold wrap64. rewrite Z.mod_small by lia. lia. }
           rewrite W1.
           replace (10 * n + (d - 48) <? n * 10) with false
             by (symmetry; apply Z.ltb_ge; lia).
           replace (18446744073709551615 <? 10 * n + (d - 48)) with false
             by (symmetry; apply Z.ltb_ge; lia).
           cbn [orb]. apply IH. lia.
        -- apply Z.leb_gt in F.
           assert (W1 : wrap64 (n * 10 + (d - 48)) < n * 10).
           { unfold wrap64. Z.div_mod_to_equations. lia. }
           replace (wrap64 (n * 10 + (d - 48)) <? n * 10) with true
             by (symmetry; apply Z.ltb_lt; lia).
           cbn [orb].
           destruct (decimalValue_from s (10 * n + (d - 48))) as [v|] eqn:V;
             [|eauto].
           apply decimalValue_from_grows in V; [|lia].
           replace (v <=? 18446744073709551615) with false
             by (symmetry; apply Z.leb_gt; lia).
           eauto.
    + assert (N : ~ (48 <= d <= 57)).
      { intros [A B]. apply Z.leb_le in A. apply Z.leb_le in B.
        rewrite A, B in D. discriminate. }
      pose proof (digitOf_other N) as O.
      destruct (digitOf d) as [x|]; [|eauto].
      replace (10 <=? x) with true by (symmetry; apply Z.leb_le; lia).
      eauto.
Qed.

(** [strconv.ParseUint(s, 10, 64)] against the decimal reading of [s]. *)
Lemma ParseUint_decimal (s : string) :
  match decimalValue s with
  | Some v =>
      if v <=? maxUint64 then ParseUint s 10 64 = (v, None)
      else exists m e, ParseUint s 10 64 = (m, Some e)
  | None => exists m e, ParseUint s 10 64 = (m, Some e)
  end.
Proof.
  destruct s as [|c s]; [simpl; eauto|].
  assert (E : ParseUint (String c s) 10 64 =
              match parseUintLoop false 10 cutoff10 maxUint64 (String c s) false 0 with
              | (n, _, Some k) => (n, Some (NumError "ParseUint" (String c s) k))
              | (n, underscores, None) =>
                  if underscores && negb (underscoreOK (String c s))
                  then (0, Some (NumError "ParseUint" (String c s) ErrSyntax))
                  else (n, None)
              end) by reflexivity.
  rewrite E. clear E.
  assert (H0 : 0 <= 0 <= maxUint64) by (unfold maxUint64; lia).
  pose proof (parseUintLoop_decimal (String c s) H0) as P.
  change (decimalValue (String c s)) with (decimalValue_from (String c s) 0).
  destruct (decimalValue_from (String c s) 0) as [v|].
  - destruct (v <=? maxUint64).
    + now rewrite P.
    + destruct P as (m & k & ->). eauto.
  - destruct P as (m & k & ->). eauto.
Qed.

End ParseUintFacts.

Section ParseURI.
Import Go Text Core.
Local Open Scope string_scope.
Local Open Scope Z_scope.

(** C10. [parseURI] on a URI with fewer than three parts between slashes
    returns an error (and the zero values); with at least three parts it
    returns the second-to-last part as the identifier, reads the last part
    up to its first dot as a decimal unsigned 64-bit number, and returns
    an error exactly when that text is not such a number. *)
Theorem parseURI_parts (uri : string) :
  let parts := Split uri "/" in
  if (S (count "/" uri) <? 3)%nat
  then exists err, parseURI uri = ("", 0, Some err)
  else
    let digits := beforeFirst "." (last parts "") in
    exists seqNo err,
      parseURI uri = (secondToLast parts, seqNo, err) /\
      match decimalValue digits with
      | Some v => if v <=? maxUint64 then seqNo = v /\ err = None else err <> None
      | None => err <> None
      end.
Proof.
  intros parts. unfold parseURI. fold parts.
  rewrite <- (Split_length uri "/"). fold parts.
  destruct (List.length parts <? 3)%nat eqn:L.
  - eauto.
  - apply Nat.ltb_ge in L.
    rewrite nth_last_part, Split_first, nth_secondToLast by lia.
    cbv zeta. set (digits := beforeFirst "." (last parts "")).
    pose proof (ParseUint_decimal digits) as P.
    destruct (decimalValue digits) as [v|].
    + destruct (v <=? maxUint64).
      * rewrite P. eauto.
      * destruct P as (m & e & ->). exists m, (Some e). split; [reflexivity|discriminate].
    + destruct P as (m & e & ->). exists m, (Some e). split; [reflexivity|discriminate].
Qed.
End ParseURI.

(** ** Contract bindings *)

Section ContractBindings.
Import Go Eth Bindings Scenarios.
Local Open Scope string_scope.

Lemma SetManagers_sameRoots (w : World) (c : Client) :
  sameRoots c (fst (SetManagers w c)).
Proof.
  unfold SetManagers, sameRoots.
  repeat match goal with
         | |- context [match ?x with Ok _ => _ | Err _ => _ end] => destruct x
         end; simpl; repeat split.
Qed.

(** C4 (as amended). [SetManagers] resolves the roles one after the other
    and stops at the first failure: when it fails, the roles before the
    failing one carry their newly resolved address and session, the roles
    after it carry what they carried before, and the failing role keeps
    its session and has its old address (the registry lookup failed) or
    the new one (the handle could not be built).  When it succeeds every
    role is resolved anew.  The other fields are never changed. *)
Theorem SetManagers_stops_at_first_failure (w : World) (c : Client) :
  let c' := fst (SetManagers w c) in
  sameRoots c c' /\
  match snd (SetManagers w c) with
  | None => forall r, resolvedAnew w c c' r
  | Some err =>
      exists r,
        (forall r', (position r' < position r)%nat -> resolvedAnew w c c' r') /\
        (forall r', (position r < position r')%nat -> untouched c c' r') /\
        managerSession r c' = managerSession r c /\
        ((lookup w (protocolSession c) r = Err err /\
          managerAddr r c' = managerAddr r c) \/
         (exists a, lookup w (protocolSession c) r = Ok a /\
                    construct w r a = Err err /\ managerAddr r c' = a))
  end.
Proof.
  intros c'. split; [apply SetManagers_sameRoots|].
  subst c'. unfold SetManagers, resolvedAnew, untouched, lookup.
  cbn [roleName].
  destruct (Registry w (protocolSession c) (Keccak256Hash w "BondingManager"))
    as [ba|e] eqn:RB; cbn [fst snd protocolSession set_bondingManagerAddr
      set_bondingManagerSession set_jobsManagerAddr set_jobsManagerSession
      set_roundsManagerAddr set_roundsManagerSession transactOpts].
  2:{ failing_at BondingManager ltac:(left; auto). }
  destruct (NewBondingManager w ba) as [bm|e] eqn:CB; cbn.
  2:{ failing_at BondingManager ltac:(right; exists ba; auto). }
  destruct (Registry w (protocolSession c) (Keccak256Hash w "JobsManager"))
    as [ja|e] eqn:RJ; cbn.
  2:{ failing_at JobsManager ltac:(left; auto). }
  destruct (NewJobsManager w ja) as [jm|e] eqn:CJ; cbn.
  2:{ failing_at JobsManager ltac:(right; exists ja; auto). }
  destruct (Registry w (protocolSession c) (Keccak256Hash w "RoundsManager"))
    as [ra|e] eqn:RR; cbn.
  2:{ failing_at RoundsManager ltac:(left; auto). }
  destruct (NewRoundsManager w ra) as [rm|e] eqn:CR; cbn.
  2:{ failing_at RoundsManager ltac:(right; exists ra; auto). }
  by_role.
Qed.

Lemma NewClient_silentNode :
  NewClient silentNode alice "secret" "/data" (addr x01) (addr x02)
    (5 * Second)%Z (30 * Second)%Z = (Some aliceClient, None).
Proof. reflexivity. Qed.

(** C4 (as stated) fails: on a node where the BondingManager has moved and
    the JobsManager lookup fails, [SetManagers] returns the error and has
    already replaced the BondingManager binding. *)
Lemma SetManagers_not_all_or_nothing :
  ~ (forall w c, snd (SetManagers w c) <> None ->
                 forall r, untouched c (fst (SetManagers w c)) r).
Proof.
  intros H.
  assert (F : snd (SetManagers halfMigratedNode aliceClient) <> None)
    by (vm_compute; discriminate).
  destruct (H halfMigratedNode aliceClient F BondingManager) as [A _].
  vm_compute in A. discriminate.
Qed.

(** A role whose registry lookup fails keeps what it had. *)
Lemma SetManagers_failed_lookup_untouched (w : World) (c : Client) (r : Role)
    (err : error) :
  lookup w (protocolSession c) r = Err err ->
  untouched c (fst (SetManagers w c)) r.
Proof.
  unfold lookup, untouched, SetManagers. intros L.
  destruct r; cbn [roleName] in L;
    repeat (match goal with
            | |- context [match ?x with Ok _ => _ | Err _ => _ end] =>
                destruct x eqn:?
            end; cbn in *);
    try congruence; split; reflexivity.
Qed.

(** C9. [NewClient] does not look at the result of [SetManagers]: once the
    account is unlocked and the token and protocol contracts are bound, it
    returns a client and a nil error whatever the registry answers, and
    every manager role whose registry lookup fails is left with the zero
    address and a nil session. *)
Theorem NewClient_ignores_resolution_failure
    (w : World) (account : Account) (passphrase datadir : string)
    (protocolAddr tokenAddr : Address) (rpcTimeout eventTimeout : Duration)
    (opts : TransactOpts) (token protocol : Contract) :
  NewTransactOptsForAccount w account passphrase = Ok opts ->
  NewLivepeerToken w tokenAddr = Ok token ->
  NewLivepeerProtocol w protocolAddr = Ok protocol ->
  exists client,
    NewClient w account passphrase datadir protocolAddr tokenAddr
      rpcTimeout eventTimeout = (Some client, None) /\
    forall r err,
      lookup w {| session_Contract := protocol; session_TransactOpts := opts |} r
        = Err err ->
      managerAddr r client = zeroAddress /\ managerSession r client = None.
Proof.
  intros HO HT HP. unfold NewClient. rewrite HO, HT, HP.
  match goal with
  | |- context [SetManagers w ?c0] =>
      set (fresh0 := c0);
      pose proof (SetManagers_failed_lookup_untouched w fresh0) as U;
      destruct (SetManagers w fresh0) as [client e] eqn:S
  end.
  exists client. split; [reflexivity|].
  intros r err L. cbn [fst] in U.
  destruct (U r err L) as [A B]. rewrite A, B.
  destruct r; split; reflexivity.
Qed.

(** On a node without a registered JobsManager, [NewClient] still hands
    out a client; its JobsManager binding is empty. *)
Lemma NewClient_ignores_resolution_failure_witness :
  exists client,
    NewClient halfMigratedNode alice "secret" "/data" (addr x01) (addr x02)
      (5 * Second)%Z (30 * Second)%Z = (Some client, None) /\
    jobsManagerAddr client = zeroAddress /\ jobsManagerSession client = None.
Proof.
  destruct (@NewClient_ignores_resolution_failure halfMigratedNode alice "secret"
              "/data" (addr x01) (addr x02) (5 * Second)%Z (30 * Second)%Z
              aliceOpts {| boundAt := addr x02 |} {| boundAt := addr x01 |}
              eq_refl eq_refl eq_refl) as (client & E & U).
  exists client. split; [exact E|].
  exact (U JobsManager (External 404) eq_refl).
Defined.

End ContractBindings.

(** ** Watching for an event *)

Section EventWatching.
Import Go Eth Traces Scenarios.
Local Open Scope Z_scope.

Variable w : World.

Lemma WatchEvent_loop_not_removed (timer : Z) (logsCh : list (Z * Log)) :
  Removed (fst (WatchEvent_loop w timer logsCh)) = false.
Proof.
  induction logsCh as [|[t log] rest IH]; simpl; [reflexivity|].
  destruct (arrivesFirst w timer t); [|reflexivity].
  destruct (Removed log) eqn:R; simpl; [exact IH|exact R].
Qed.

Lemma WatchEvent_loop_skips (timer : Z) (retracted rest : list (Z * Log)) :
  Forall (discarded w timer) retracted ->
  WatchEvent_loop w timer (retracted ++ rest) = WatchEvent_loop w timer rest.
Proof.
  induction 1 as [|[t log] l [A R] _ IH]; simpl in *; [reflexivity|].
  now rewrite A, R.
Qed.

Lemma WatchEvent_loop_times_out (timer : Z) (logsCh : list (Z * Log)) :
  (forall t log, In (t, log) logsCh ->
                 arrivesFirst w timer t = true -> Removed log = true) ->
  WatchEvent_loop w timer logsCh = (zeroLog, Some (Errorf "watchEvent timed out" [])).
Proof.
  induction logsCh as [|[t log] rest IH]; intros H; simpl; [reflexivity|].
  destruct (arrivesFirst w timer t) eqn:A; [|reflexivity].
  rewrite (H t log (or_introl eq_refl) A). simpl.
  apply IH. intros t' log' I. apply H. now right.
Qed.

(** C6. [WatchEvent] never returns a log flagged removed.  A removed log is
    dropped and the wait goes on against the timer that was set when
    [WatchEvent] was called (the rest of the channel is watched as if the
    call had been made at the same time [now]); the first log that is not
    removed and arrives before the timer is returned; and when every log
    that arrives before the timer is removed, the result is the
    timed-out error. *)
Theorem WatchEvent_never_returns_retracted
    (c : Client) (now : Z) (logsCh : list (Z * Log)) :
  let timer := now + eventTimeout c in
  Removed (fst (WatchEvent w c now logsCh)) = false /\
  (forall retracted rest,
      logsCh = retracted ++ rest ->
      Forall (discarded w timer) retracted ->
      WatchEvent w c now logsCh = WatchEvent w c now rest) /\
  (forall retracted t valid rest,
      logsCh = retracted ++ (t, valid) :: rest ->
      Forall (discarded w timer) retracted ->
      arrivesFirst w timer t = true -> Removed valid = false ->
      WatchEvent w c now logsCh = (valid, None)) /\
  ((forall t log, In (t, log) logsCh ->
                  arrivesFirst w timer t = true -> Removed log = true) ->
   WatchEvent w c now logsCh
   = (zeroLog, Some (Errorf "watchEvent timed out" []))).
Proof.
  intros timer. unfold WatchEvent. fold timer. repeat split.
  - apply WatchEvent_loop_not_removed.
  - intros retracted rest -> F. now apply WatchEvent_loop_skips.
  - intros retracted t valid rest -> F A V.
    rewrite WatchEvent_loop_skips by exact F.
    simpl. now rewrite A, V.
  - apply WatchEvent_loop_times_out.
Qed.

End EventWatching.

(** Two removed logs and then a valid one, all within the thirty seconds:
    the valid one is returned. *)
Lemma WatchEvent_never_returns_retracted_witness :
  Eth.WatchEvent Scenarios.silentNode Scenarios.aliceClient 0
    [(1 * Go.Second, Scenarios.approvalLog true);
     (2 * Go.Second, Scenarios.approvalLog true);
     (3 * Go.Second, Scenarios.approvalLog false)]%Z
  = (Scenarios.approvalLog false, None).
Proof.
  pose proof (@WatchEvent_never_returns_retracted Scenarios.silentNode
                Scenarios.aliceClient 0%Z
                [(1 * Go.Second, Scenarios.approvalLog true);
                 (2 * Go.Second, Scenarios.approvalLog true);
                 (3 * Go.Second, Scenarios.approvalLog false)]%Z) as H.
  cbv zeta in H. destruct H as (_ & _ & H & _).
  apply (H [(1 * Go.Second, Scenarios.approvalLog true);
            (2 * Go.Second, Scenarios.approvalLog true)]%Z
           (3 * Go.Second)%Z (Scenarios.approvalLog false) []).
  - reflexivity.
  - repeat constructor.
  - reflexivity.
  - reflexivity.
Defined.

(** ** Waiting for a receipt *)

Section Receipts.
Import Go Eth Traces Scenarios.
Local Open Scope Z_scope.

Variables (w : World) (c : Client) (tx : Transaction).

(** The loop condition compares the time between its own two clock
    readings with the timeout. *)
Hypothesis timeout_exceeds_clock_reading : nowCost w < eventTimeout c.

Lemma WaitForReceipt_turn_pending (fuel : nat) (s : St) :
  notMinedAt w tx (polls s) ->
  WaitForReceipt w c (S fuel) tx s
  = WaitForReceipt w c fuel tx (afterSleep (afterRequest w tx s)).
Proof.
  intros [N E]. cbn [WaitForReceipt].
  unfold bind, time_Since, bind, time_Now, ret, backend_TransactionReceipt,
    time_Sleep, elapse. cbn.
  replace (clock s + nowCost w - clock s <? eventTimeout c) with true
    by (symmetry; apply Z.ltb_lt; lia).
  cbn.
  destruct (TransactionReceipt w (polls s) (tx_Hash tx)) as [receipt err].
  cbn [fst snd] in N, E. subst receipt.
  destruct err as [[]|]; try discriminate; reflexivity.
Qed.

Lemma WaitForReceipt_turn_mined (fuel : nat) (s : St) (r : Receipt) :
  minedAt w tx (polls s) r ->
  WaitForReceipt w c (S fuel) tx s = Done (byGas tx r) (afterRequest w tx s).
Proof.
  intros [N E]. cbn [WaitForReceipt].
  unfold bind, time_Since, bind, time_Now, ret, backend_TransactionReceipt,
    time_Sleep, elapse, byGas. cbn.
  replace (clock s + nowCost w - clock s <? eventTimeout c) with true
    by (symmetry; apply Z.ltb_lt; lia).
  cbn.
  destruct (TransactionReceipt w (polls s) (tx_Hash tx)) as [receipt err].
  cbn [fst snd] in N, E. subst receipt.
  destruct err as [[]|]; try discriminate;
    cbn; destruct (tx_Gas tx =? GasUsed r); reflexivity.
Qed.

(** Requests that find nothing only move the loop on. *)
Lemma WaitForReceipt_skips_pending (k : nat) :
  forall (fuel : nat) (s : St),
  (forall i, (i < k)%nat -> notMinedAt w tx (polls s + i)) ->
  exists s',
    WaitForReceipt w c (k + fuel) tx s = WaitForReceipt w c fuel tx s' /\
    polls s' = (polls s + k)%nat /\
    clock s' = clock s + Z.of_nat k * (2 * nowCost w + rpcCost w + Second).
Proof.
  induction k as [|k IH]; intros fuel s H.
  - exists s. repeat split; [now rewrite Nat.add_0_r | lia].
  - change (S k + fuel)%nat with (S (k + fuel)).
    rewrite WaitForReceipt_turn_pending
      by (specialize (H 0%nat); rewrite Nat.add_0_r in H; apply H; lia).
    destruct (IH fuel (afterSleep (afterRequest w tx s))) as (s' & E & P & C).
    { intros i Hi. cbn [polls afterSleep afterRequest].
      replace (S (polls s) + i)%nat with (polls s + S i)%nat by lia.
      apply H. lia. }
    exists s'. split; [exact E|]. cbn [polls clock afterSleep afterRequest] in P, C.
    split; lia.
Qed.

End Receipts.

Section ReceiptTheorems.
Import Go Eth Traces Scenarios.
Local Open Scope Z_scope.

(** The only way to the timed-out error: a timeout that is not longer than
    the time between the two clock readings of the loop condition.  Then
    the error is returned at once, before any request. *)
Lemma WaitForReceipt_times_out_at_once
    (w : World) (c : Client) (tx : Transaction) (fuel : nat) (s : St) :
  eventTimeout c <= nowCost w ->
  WaitForReceipt w c (S fuel) tx s
  = Done (Err (Errorf "Tx %v timed out" [Hex (tx_Hash tx)]))
         {| clock := clock s + nowCost w + nowCost w; polls := polls s;
            trace := trace s |}.
Proof.
  intros T. cbn [WaitForReceipt].
  unfold bind, time_Since, bind, time_Now, ret. cbn.
  replace (clock s + nowCost w - clock s <? eventTimeout c) with false
    by (symmetry; apply Z.ltb_ge; lia).
  reflexivity.
Qed.

(** C1 (what the code does, against the statement of the design document).  When
    the timeout is longer than the time between two clock readings and the
    node never has the receipt, [WaitForReceipt] has not returned after
    any number of turns of its loop: it never yields the timed-out error,
    while the clock moves on by more than a second per turn. *)
Theorem WaitForReceipt_never_times_out
    (w : World) (c : Client) (tx : Transaction) (turns : nat) (s : St) :
  nowCost w < eventTimeout c ->
  (forall n, notMinedAt w tx n) ->
  exists s',
    WaitForReceipt w c turns tx s = OutOfFuel s' /\
    polls s' = (polls s + turns)%nat /\
    clock s' = clock s + Z.of_nat turns * (2 * nowCost w + rpcCost w + Second).
Proof.
  intros T N.
  destruct (@WaitForReceipt_skips_pending w c tx T turns 0%nat s) as (s' & E & P & C).
  { intros i _. apply N. }
  exists s'. rewrite Nat.add_0_r in E. rewrite E. repeat split; assumption.
Qed.

(** Thirty seconds of timeout, a node without the receipt: after forty
    turns the call is still polling and more than forty seconds have gone. *)
Lemma WaitForReceipt_never_times_out_witness :
  exists s',
    WaitForReceipt silentNode aliceClient 40 someTx (initialSt 0) = OutOfFuel s' /\
    eventTimeout aliceClient + Second < clock s'.
Proof.
  destruct (@WaitForReceipt_never_times_out silentNode aliceClient someTx 40
              (initialSt 0)) as (s' & E & _ & C).
  - vm_compute. reflexivity.
  - intros n. split; reflexivity.
  - exists s'. split; [exact E|]. rewrite C. vm_compute. reflexivity.
Defined.

(** C5. A receipt that [WaitForReceipt] finds (after any number of
    requests that found nothing) is judged by its gas: when the gas used
    equals the gas limit of the transaction the result is the "threw"
    error and no receipt, otherwise the receipt itself. *)
Theorem WaitForReceipt_classifies_by_gas
    (w : World) (c : Client) (tx : Transaction) (k fuel : nat) (s : St)
    (r : Receipt) :
  nowCost w < eventTimeout c ->
  (forall i, (i < k)%nat -> notMinedAt w tx (polls s + i)) ->
  minedAt w tx (polls s + k) r ->
  (k < fuel)%nat ->
  exists s',
    (tx_Gas tx = GasUsed r ->
     WaitForReceipt w c fuel tx s
     = Done (Err (Errorf "Tx %v threw" [Hex (tx_Hash tx)])) s') /\
    (tx_Gas tx <> GasUsed r ->
     WaitForReceipt w c fuel tx s = Done (Ok r) s').
Proof.
  intros T N F L.
  destruct (@WaitForReceipt_skips_pending w c tx T k (fuel - k) s N)
    as (s1 & E & P & _).
  replace (k + (fuel - k))%nat with fuel in E by lia.
  destruct (fuel - k)%nat as [|fuel'] eqn:D; [lia|].
  rewrite <- P in F.
  rewrite (@WaitForReceipt_turn_mined w c tx T fuel' s1 r F) in E.
  exists (afterRequest w tx s1). rewrite E. unfold byGas.
  split; intros G.
  - apply Z.eqb_eq in G. now rewrite G.
  - apply Z.eqb_neq in G. now rewrite G.
Qed.

(** The receipt appears at the third request: with less gas used than the
    limit it is returned, with all the gas used the result is the error. *)
Lemma WaitForReceipt_classifies_by_gas_witness :
  (exists s', WaitForReceipt (minedNode 40000) aliceClient 10 someTx (initialSt 0)
              = Done (Ok (receiptUsing 40000)) s') /\
  (exists s', WaitForReceipt (minedNode 90000) aliceClient 10 someTx (initialSt 0)
              = Done (Err (Errorf "Tx %v threw" [Hex (tx_Hash someTx)])) s').
Proof.
  split.
  - destruct (@WaitForReceipt_classifies_by_gas (minedNode 40000) aliceClient
                someTx 2 10 (initialSt 0) (receiptUsing 40000)) as (s' & _ & H).
    + vm_compute. reflexivity.
    + intros [|[|i]] Hi; [split; reflexivity | split; reflexivity | lia].
    + split; reflexivity.
    + lia.
    + exists s'. apply H. vm_compute. discriminate.
  - destruct (@WaitForReceipt_classifies_by_gas (minedNode 90000) aliceClient
                someTx 2 10 (initialSt 0) (receiptUsing 90000)) as (s' & H & _).
    + vm_compute. reflexivity.
    + intros [|[|i]] Hi; [split; reflexivity | split; reflexivity | lia].
    + split; reflexivity.
    + lia.
    + exists s'. apply H. reflexivity.
Defined.

End ReceiptTheorems.

(** ** What a run adds to the trace *)

Section TraceFacts.
Import Go Eth Traces.
Local Open Scope Z_scope.

Context {P : Event -> Prop}.

Lemma appendsOnly_nothing {A} (m : M A) :
  (forall s, trace (finalSt (m s)) = trace s) -> appendsOnly P m.
Proof.
  intros H s. exists []. rewrite H, app_nil_r. split; [reflexivity|constructor].
Qed.

Lemma appendsOnly_ret {A} (a : A) : appendsOnly P (ret a).
Proof. now apply appendsOnly_nothing. Qed.

Lemma appendsOnly_block {A} : appendsOnly P (@block A).
Proof. now apply appendsOnly_nothing. Qed.

Lemma appendsOnly_crash {A} (v : any) : appendsOnly P (@crash A v).
Proof. now apply appendsOnly_nothing. Qed.

Lemma appendsOnly_outOfFuel {A} : appendsOnly P (@outOfFuel A).
Proof. now apply appendsOnly_nothing. Qed.

Lemma appendsOnly_elapse (d : Duration) : appendsOnly P (elapse d).
Proof. now apply appendsOnly_nothing. Qed.

Lemma appendsOnly_waitUntil (t : Z) : appendsOnly P (waitUntil t).
Proof. now apply appendsOnly_nothing. Qed.

Lemma appendsOnly_time_Now (w : World) : appendsOnly P (time_Now w).
Proof. now apply appendsOnly_nothing. Qed.

Lemma appendsOnly_time_NewTimer (d : Duration) : appendsOnly P (time_NewTimer d).
Proof. now apply appendsOnly_nothing. Qed.

Lemma appendsOnly_emit (e : Event) : P e -> appendsOnly P (emit e).
Proof.
  intros H s. exists [e]. split; [reflexivity|]. constructor; [exact H|constructor].
Qed.

Lemma appendsOnly_bind {A B} (m : M A) (k : A -> M B) :
  appendsOnly P m -> (forall a, appendsOnly P (k a)) -> appendsOnly P (bind m k).
Proof.
  intros Hm Hk s. destruct (Hm s) as (evs1 & E1 & F1).
  unfold bind. destruct (m s) as [a s1|s1|v s1|s1]; cbn [finalSt] in *;
    try (exists evs1; split; assumption).
  destruct (Hk a s1) as (evs2 & E2 & F2).
  exists (evs1 ++ evs2). rewrite E2, E1, app_assoc. split; [reflexivity|].
  apply Forall_app. split; assumption.
Qed.

Lemma appendsOnly_backend_TransactionReceipt (w : World) (h : Hash) :
  P (EvReceipt h) -> appendsOnly P (backend_TransactionReceipt w h).
Proof.
  intros H s. exists [EvReceipt h]. split; [reflexivity|].
  constructor; [exact H|constructor].
Qed.

End TraceFacts.

Section ApprovalChain.
Import Go Eth Traces Scenarios.
Local Open Scope Z_scope.

(** Unfolds a computation into the steps whose traces are known. *)
Ltac appends :=
  repeat first
    [ apply appendsOnly_ret | apply appendsOnly_block | apply appendsOnly_crash
    | apply appendsOnly_outOfFuel | apply appendsOnly_elapse
    | apply appendsOnly_waitUntil | apply appendsOnly_time_Now
    | apply appendsOnly_time_NewTimer
    | apply appendsOnly_emit; unfold notGrant; cbn; tauto
    | apply appendsOnly_backend_TransactionReceipt; unfold notGrant; cbn; tauto
    | assumption
    | apply appendsOnly_bind; [|intros]
    | match goal with
      | |- appendsOnly _ (match ?x with _ => _ end) => destruct x
      end ].

(** The account topic of the filters: the twenty bytes of the address
    after twelve zero bytes. *)
Lemma account_topic (a : Address) :
  List.length a = 20%nat ->
  BytesToHash (LeftPadBytes a 32) = repeat x00 12 ++ a.
Proof.
  intros L. unfold LeftPadBytes. rewrite L. cbn [Nat.leb Nat.sub].
  set (padded := repeat x00 12 ++ a).
  assert (P : List.length padded = 32%nat)
    by (subst padded; rewrite length_app, repeat_length, L; reflexivity).
  unfold BytesToHash, HashLength. rewrite P.
  change (32 <? 32)%nat with false. cbv iota. rewrite P. reflexivity.
Qed.

Lemma WaitForReceipt_adds_no_grant (w : World) (c : Client) (tx : Transaction)
    (fuel : nat) :
  appendsOnly notGrant (WaitForReceipt w c fuel tx).
Proof.
  induction fuel as [|fuel IH]; cbn [WaitForReceipt]; unfold time_Since, time_Sleep;
    appends.
Qed.

Lemma session_call_adds_no_grant (w : World) (session : option Session)
    (call : TxCall) :
  (forall d, notGrant (EvTransact call d)) ->
  appendsOnly notGrant (session_call w session call).
Proof.
  intros H. unfold session_call. destruct session; appends.
  apply appendsOnly_emit. apply H.
Qed.


Lemma subscribedBeforeGrant_app (w : World) (c : Client) (evs1 evs2 : list Event) :
  subscribedBeforeGrant w c evs1 -> Forall notGrant evs2 ->
  subscribedBeforeGrant w c (evs1 ++ evs2).
Proof.
  intros H1 H2 pre e post E G.
  apply app_eq_app in E as [l [[E1 E2]|[E1 E2]]].
  - destruct l as [|x l].
    + cbn in E2. subst evs2. inversion H2; subst. contradiction.
    + injection E2 as <- E2. exact (H1 pre e l E1 G).
  - subst evs2. apply Forall_app in H2 as [_ H2].
    inversion H2; subst. contradiction.
Qed.

(** A run whose first part subscribes before it grants and whose second
    part makes no grant. *)
Lemma subscribedBeforeGrant_bind (w : World) (c : Client) {A B}
    (m : M A) (k : A -> M B) (s : St) :
  (exists evs, trace (finalSt (m s)) = trace s ++ evs /\
               subscribedBeforeGrant w c evs) ->
  (forall a, appendsOnly notGrant (k a)) ->
  exists evs, trace (finalSt (bind m k s)) = trace s ++ evs /\
              subscribedBeforeGrant w c evs.
Proof.
  intros (evs1 & E1 & S1) Hk. unfold bind.
  destruct (m s) as [a s1|s1|v s1|s1]; cbn [finalSt] in *;
    try (exists evs1; split; assumption).
  destruct (Hk a s1) as (evs2 & E2 & F2).
  exists (evs1 ++ evs2). rewrite E2, E1, app_assoc. split; [reflexivity|].
  now apply subscribedBeforeGrant_app.
Qed.

(** The calls [Approve] makes, in order: nothing (the ABI does not
    decode), a refused subscription, or an established subscription
    followed by the grant. *)
Lemma Approve_calls (w : World) (c : Client) (toAddr : Address) (amount : Z)
    (s : St) :
  exists evs,
    trace (finalSt (Approve w c toAddr amount s)) = trace s ++ evs /\
    (evs = [] \/
     exists q, isApprovalSubscription w c q /\
       (evs = [EvSubscribe q false] \/
        exists d, evs = [EvSubscribe q true;
                         EvTransact (Token_Approve toAddr amount) d])).
Proof.
  unfold Approve, SubscribeToApproval.
  destruct (abi_JSON w LivepeerTokenABI) as [abiJSON|err] eqn:J.
  2:{ exists []. cbn. rewrite app_nil_r. auto. }
  match goal with
  | |- context [backend_SubscribeFilterLogs w ?q0] => set (q := q0)
  end.
  unfold bind, backend_SubscribeFilterLogs, session_call, bind, emit, elapse, ret, block.
  cbn.
  destruct (SubscribeFilterLogs w q) as [err|] eqn:F; cbn.
  - exists [EvSubscribe q false]. split; [reflexivity|]. right. exists q.
    split; [unfold isApprovalSubscription; exists abiJSON; split; [exact J|reflexivity]|now left].
  - destruct (transact w (tokenSession c) (Token_Approve toAddr amount))
      as [tx|err]; cbn; rewrite <- app_assoc; cbn;
      (eexists; split; [reflexivity|]); right; exists q;
      (split; [unfold isApprovalSubscription; exists abiJSON; split; [exact J|reflexivity]|right; eauto]).
Qed.

Lemma Approve_trace (w : World) (c : Client) (toAddr : Address) (amount : Z)
    (s : St) :
  exists evs,
    trace (finalSt (Approve w c toAddr amount s)) = trace s ++ evs /\
    subscribedBeforeGrant w c evs.
Proof.
  destruct (Approve_calls w c toAddr amount s) as (evs & E & Shape).
  exists evs. split; [exact E|].
  intros pre ev post Split G.
  destruct Shape as [->|(q & Q & [->|[d ->]])].
  - destruct pre; discriminate.
  - destruct pre as [|x0 [|x1 pre]]; try discriminate.
    injection Split as <- _. contradiction.
  - destruct pre as [|x0 [|x1 pre]].
    + injection Split as <- _. contradiction.
    + injection Split as <- _ _. exists q. split; [now left|exact Q].
    + injection Split as _ _ Split. destruct pre; discriminate.
Qed.

(** [Approve] calls neither the bonding nor the deposit method. *)
Lemma Approve_spends_nothing (w : World) (c : Client) (toAddr : Address)
    (amount : Z) (s : St) (same : TxCall -> bool) :
  (forall a m, same (Token_Approve a m) = false) ->
  calls same (trace (finalSt (Approve w c toAddr amount s))) = calls same (trace s).
Proof.
  intros H. destruct (Approve_calls w c toAddr amount s) as (evs & -> & Shape).
  unfold calls. rewrite filter_app, length_app.
  destruct Shape as [->|(q & _ & [->|[d ->]])]; cbn; rewrite ?H; cbn; lia.
Qed.

Lemma select3_adds_nothing (w : World) (inRes : option (Z * Log)) (timer : Z) :
  appendsOnly notGrant (select3 w inRes timer).
Proof.
  unfold select3. destruct inRes as [[t log]|]; appends.
Qed.

Lemma Bond_unfold (w : World) (c : Client) (fuel : nat) (amount : Z)
    (toAddr : Address) :
  Bond w c fuel amount toAddr
  = bind (Approve w c (bondingManagerAddr c) amount)
         (spendAfterGrant w c fuel (bondingManagerSession c)
            (BondingManager_Bond amount toAddr)).
Proof. reflexivity. Qed.

Lemma Deposit_unfold (w : World) (c : Client) (fuel : nat) (amount : Z) :
  Deposit w c fuel amount
  = bind (Approve w c (jobsManagerAddr c) amount)
         (spendAfterGrant w c fuel (jobsManagerSession c)
            (JobsManager_Deposit amount)).
Proof. reflexivity. Qed.

(** What follows [Approve] in [Bond] and [Deposit] makes no grant. *)
Lemma spend_adds_no_grant (w : World) (c : Client) (fuel : nat)
    (session : option Session) (call : TxCall) (inRes : option (Z * Log)) :
  (forall d, notGrant (EvTransact call d)) ->
  appendsOnly notGrant (spendAfterGrant w c fuel session call inRes).
Proof.
  intros H. unfold spendAfterGrant.
  pose proof (WaitForReceipt_adds_no_grant w c) as W.
  pose proof (@session_call_adds_no_grant w session call H) as S.
  pose proof (select3_adds_nothing w inRes) as L.
  apply appendsOnly_bind; [appends|intros timer].
  apply appendsOnly_bind; [|intros; appends].
  apply appendsOnly_bind; [apply L|intros sel].
  destruct sel as [log| |]; appends. apply W.
Qed.

(** C7. In [Approve], and so in [Bond] and [Deposit], every submission of
    the allowance grant is preceded in the run by an established log
    subscription for the Approval event of the token contract with the
    account of the client as its indexed argument: no run sends the grant
    without that subscription. *)
Theorem grant_is_sent_after_subscription (w : World) (c : Client) (s : St) :
  (forall toAddr amount,
      exists evs,
        trace (finalSt (Approve w c toAddr amount s)) = trace s ++ evs /\
        subscribedBeforeGrant w c evs) /\
  (forall fuel amount toAddr,
      exists evs,
        trace (finalSt (Bond w c fuel amount toAddr s)) = trace s ++ evs /\
        subscribedBeforeGrant w c evs) /\
  (forall fuel amount,
      exists evs,
        trace (finalSt (Deposit w c fuel amount s)) = trace s ++ evs /\
        subscribedBeforeGrant w c evs).
Proof.
  split; [|split].
  - intros. apply Approve_trace.
  - intros. rewrite Bond_unfold. apply subscribedBeforeGrant_bind.
    + apply Approve_trace.
    + intros inRes. apply spend_adds_no_grant. intros d G. exact G.
  - intros. rewrite Deposit_unfold. apply subscribedBeforeGrant_bind.
    + apply Approve_trace.
    + intros inRes. apply spend_adds_no_grant. intros d G. exact G.
Qed.


(** A removed log taken by the [select]: nothing is sent, the channels
    are closed. *)
Lemma spendAfterGrant_retracted (w : World) (c : Client) (fuel : nat)
    (session : option Session) (call : TxCall) (t : Z) (log : Log) (s : St) :
  arrivesFirst w (clock s + eventTimeout c) t = true ->
  Removed log = true ->
  spendAfterGrant w c fuel session call (Some (t, log)) s
  = Done [CloseErr; CloseRes]
         {| clock := Z.max (clock s) t; polls := polls s; trace := trace s |}.
Proof.
  intros A R. unfold spendAfterGrant, bind, time_NewTimer, select3.
  rewrite A. unfold bind, waitUntil, ret. cbn. now rewrite R.
Qed.

(** The timer taken by the [select]: the timed-out error is sent and no
    transaction is submitted. *)
Lemma spendAfterGrant_timeout (w : World) (c : Client) (fuel : nat)
    (session : option Session) (call : TxCall) (inRes : option (Z * Log)) (s : St) :
  match inRes with
  | Some (t, _) => arrivesFirst w (clock s + eventTimeout c) t = false
  | None => True
  end ->
  spendAfterGrant w c fuel session call inRes s
  = Done [SendErr (Errorf "Event subscription timed out" []); CloseErr; CloseRes]
         {| clock := Z.max (clock s) (clock s + eventTimeout c);
            polls := polls s; trace := trace s |}.
Proof.
  intros A. unfold spendAfterGrant, bind, time_NewTimer, select3.
  destruct inRes as [[t log]|]; [rewrite A|]; reflexivity.
Qed.

(** The spending method is called only after a log that is not removed was
    received before the timer. *)
Lemma spendAfterGrant_needs_event (w : World) (c : Client) (fuel : nat)
    (session : option Session) (call : TxCall) (inRes : option (Z * Log)) (s : St)
    (same : TxCall -> bool) :
  calls same (trace (finalSt (spendAfterGrant w c fuel session call inRes s)))
    <> calls same (trace s) ->
  exists t log,
    inRes = Some (t, log) /\
    arrivesFirst w (clock s + eventTimeout c) t = true /\ Removed log = false.
Proof.
  intros N.
  destruct inRes as [[t log]|].
  - destruct (arrivesFirst w (clock s + eventTimeout c) t) eqn:A.
    + destruct (Removed log) eqn:R; [|eauto].
      rewrite spendAfterGrant_retracted in N by assumption. now cbn in N.
    + rewrite spendAfterGrant_timeout in N by exact A. now cbn in N.
  - rewrite spendAfterGrant_timeout in N by exact I. now cbn in N.
Qed.

(** The parts of the approve-then-spend statement that the code keeps: the
    spending transaction is submitted only after [Approve] has handed over
    a log that is not removed, received before the timer; and when the
    timer comes first the caller gets the timed-out error and nothing is
    submitted. *)
Lemma Bond_needs_grant_event (w : World) (c : Client) (fuel : nat)
    (amount : Z) (toAddr : Address) (s : St) :
  calls isBondCall (trace (finalSt (Bond w c fuel amount toAddr s)))
    <> calls isBondCall (trace s) ->
  exists t log s1,
    Approve w c (bondingManagerAddr c) amount s = Done (Some (t, log)) s1 /\
    arrivesFirst w (clock s1 + eventTimeout c) t = true /\ Removed log = false.
Proof.
  rewrite Bond_unfold. unfold bind. intros N.
  pose proof (@Approve_spends_nothing w c (bondingManagerAddr c) amount s
                isBondCall (fun _ _ => eq_refl)) as K.
  destruct (Approve w c (bondingManagerAddr c) amount s) as [inRes s1|s1|v s1|s1];
    cbn [finalSt] in *; try congruence.
  rewrite <- K in N.
  destruct (spendAfterGrant_needs_event _ _ _ _ _ _ _ _ N) as (t & log & -> & A & R).
  eauto 6.
Qed.

Lemma Deposit_needs_grant_event (w : World) (c : Client) (fuel : nat)
    (amount : Z) (s : St) :
  calls isDepositCall (trace (finalSt (Deposit w c fuel amount s)))
    <> calls isDepositCall (trace s) ->
  exists t log s1,
    Approve w c (jobsManagerAddr c) amount s = Done (Some (t, log)) s1 /\
    arrivesFirst w (clock s1 + eventTimeout c) t = true /\ Removed log = false.
Proof.
  rewrite Deposit_unfold. unfold bind. intros N.
  pose proof (@Approve_spends_nothing w c (jobsManagerAddr c) amount s
                isDepositCall (fun _ _ => eq_refl)) as K.
  destruct (Approve w c (jobsManagerAddr c) amount s) as [inRes s1|s1|v s1|s1];
    cbn [finalSt] in *; try congruence.
  rewrite <- K in N.
  destruct (spendAfterGrant_needs_event _ _ _ _ _ _ _ _ N) as (t & log & -> & A & R).
  eauto 6.
Qed.

Lemma Bond_times_out (w : World) (c : Client) (fuel : nat) (amount : Z)
    (toAddr : Address) (s s1 : St) (inRes : option (Z * Log)) :
  Approve w c (bondingManagerAddr c) amount s = Done inRes s1 ->
  match inRes with
  | Some (t, _) => arrivesFirst w (clock s1 + eventTimeout c) t = false
  | None => True
  end ->
  exists s',
    Bond w c fuel amount toAddr s
    = Done [SendErr (Errorf "Event subscription timed out" []); CloseErr; CloseRes] s' /\
    trace s' = trace s1.
Proof.
  intros E A. rewrite Bond_unfold. unfold bind. rewrite E.
  rewrite spendAfterGrant_timeout by exact A. eauto.
Qed.

Lemma Deposit_times_out (w : World) (c : Client) (fuel : nat) (amount : Z)
    (s s1 : St) (inRes : option (Z * Log)) :
  Approve w c (jobsManagerAddr c) amount s = Done inRes s1 ->
  match inRes with
  | Some (t, _) => arrivesFirst w (clock s1 + eventTimeout c) t = false
  | None => True
  end ->
  exists s',
    Deposit w c fuel amount s
    = Done [SendErr (Errorf "Event subscription timed out" []); CloseErr; CloseRes] s' /\
    trace s' = trace s1.
Proof.
  intros E A. rewrite Deposit_unfold. unfold bind. rewrite E.
  rewrite spendAfterGrant_timeout by exact A. eauto.
Qed.

(** C3 (what the code does, against the statement of the design document).  When
    the node rejects the allowance grant, [Bond] and [Deposit] never get
    as far as returning their channels: [Approve] is parked on its send
    to [outErr].  No spending transaction is submitted, and the failure
    is not handed to the caller either. *)
Theorem grant_failure_is_never_reported
    (w : World) (c : Client) (fuel : nat) (amount : Z) (toAddr : Address)
    (s : St) :
  (forall err,
      transact w (tokenSession c) (Token_Approve (bondingManagerAddr c) amount)
        = Err err ->
      exists s',
        Bond w c fuel amount toAddr s = Blocked s' /\
        calls isBondCall (trace s') = calls isBondCall (trace s)) /\
  (forall err,
      transact w (tokenSession c) (Token_Approve (jobsManagerAddr c) amount)
        = Err err ->
      exists s',
        Deposit w c fuel amount s = Blocked s' /\
        calls isDepositCall (trace s') = calls isDepositCall (trace s)).
Proof.
  assert (G : forall spender session call (same : TxCall -> bool) err,
             (forall a m, same (Token_Approve a m) = false) ->
             transact w (tokenSession c) (Token_Approve spender amount) = Err err ->
             exists s',
               bind (Approve w c spender amount)
                    (spendAfterGrant w c fuel session call) s = Blocked s' /\
               calls same (trace s') = calls same (trace s)).
  { intros spender session call same err Hsame T.
    pose proof (@Approve_spends_nothing w c spender amount s same Hsame) as K.
    assert (B : exists s', Approve w c spender amount s = Blocked s').
    { unfold Approve, SubscribeToApproval.
      destruct (abi_JSON w LivepeerTokenABI); [|cbn; eauto].
      unfold bind, backend_SubscribeFilterLogs, session_call, bind, emit, elapse,
        ret, block. cbn.
      match goal with
      | |- context [SubscribeFilterLogs w ?q0] => destruct (SubscribeFilterLogs w q0)
      end; cbn; [eauto|]. rewrite T. cbn. eauto. }
    destruct B as (s' & B). exists s'. unfold bind. rewrite B in *.
    split; [reflexivity|exact K]. }
  split; intros err T.
  - rewrite Bond_unfold. exact (G _ _ _ isBondCall err (fun _ _ => eq_refl) T).
  - rewrite Deposit_unfold. exact (G _ _ _ isDepositCall err (fun _ _ => eq_refl) T).
Qed.

(** The node rejects the grant: [Bond] is parked, with two calls made (the
    subscription and the rejected grant). *)
Lemma grant_failure_is_never_reported_witness :
  exists s',
    Bond rejectingNode aliceClient 10 1000 (addr x33) (initialSt 0) = Blocked s' /\
    calls isBondCall (trace s') = 0%nat.
Proof.
  destruct (@grant_failure_is_never_reported rejectingNode aliceClient 10 1000
              (addr x33) (initialSt 0)) as [H _].
  exact (H (External 3) eq_refl).
Defined.

(** C2 (what the code does, against the statement of the design document).  When
    the log that [Approve] hands over is flagged removed, the goroutine of
    [Bond] (and of [Deposit]) leaves its [select] without sending
    anything: both channels are closed and the caller is given neither a
    receipt nor an error. *)
Theorem retracted_grant_event_yields_no_outcome
    (w : World) (c : Client) (fuel : nat) (amount : Z) (toAddr : Address)
    (s s1 : St) (t : Z) (log : Log) :
  arrivesFirst w (clock s1 + eventTimeout c) t = true ->
  Removed log = true ->
  (Approve w c (bondingManagerAddr c) amount s = Done (Some (t, log)) s1 ->
   exists h s', Bond w c fuel amount toAddr s = Done h s' /\ outcomes h = []) /\
  (Approve w c (jobsManagerAddr c) amount s = Done (Some (t, log)) s1 ->
   exists h s', Deposit w c fuel amount s = Done h s' /\ outcomes h = []).
Proof.
  intros A R. split; intros E.
  - rewrite Bond_unfold. unfold bind. rewrite E.
    rewrite spendAfterGrant_retracted by assumption. eauto.
  - rewrite Deposit_unfold. unfold bind. rewrite E.
    rewrite spendAfterGrant_retracted by assumption. eauto.
Qed.

(** The Approval log comes after five seconds, flagged removed: the handle
    of [Bond] is closed without a value. *)
Lemma retracted_grant_event_yields_no_outcome_witness :
  exists h s',
    Bond retractedNode aliceClient 10 1000 (addr x33) (initialSt 0) = Done h s' /\
    outcomes h = [].
Proof.
  refine (proj1 (@retracted_grant_event_yields_no_outcome retractedNode aliceClient
                   10 1000 (addr x33) (initialSt 0)
                   {| clock := 2 * rpcCost retractedNode; polls := 0;
                      trace := [EvSubscribe
                                  {| Addresses := [tokenAddr aliceClient];
                                     Topics := [[roleKey "Approval"];
                                                [BytesToHash (LeftPadBytes (addr x0a) 32)]] |}
                                  true;
                                EvTransact (Token_Approve (addr x0b) 1000) true] |}
                   (5 * Second) (approvalLog true) _ _) _).
  - vm_compute. reflexivity.
  - reflexivity.
  - vm_compute. reflexivity.
Defined.

(** Every operation without a prerequisite that gets to the end of its
    goroutine has sent exactly one value. *)
Lemma submitThenWait_one_outcome (w : World) (c : Client) (fuel : nat)
    (session : option Session) (call : TxCall) (s s' : St) (h : Handle) :
  submitThenWait w c fuel session call s = Done h s' ->
  List.length (outcomes h) = 1%nat.
Proof.
  unfold submitThenWait, bind, session_call.
  destruct session as [sess|]; [|discriminate].
  unfold bind, emit, elapse, ret. cbn.
  destruct (transact w sess call) as [tx|err]; cbn.
  - match goal with
    | |- context [WaitForReceipt w c fuel tx ?s0] =>
        destruct (WaitForReceipt w c fuel tx s0) as [[r|e] s2|s2|v s2|s2]
    end; try discriminate; intros H; injection H as <- _; reflexivity.
  - intros H; injection H as <- _; reflexivity.
Qed.

End ApprovalChain.

(** ** Panics inside [Transcode] *)

Section TranscoderPanics.
Import Go Core Scenarios.
Local Open Scope string_scope.

(** Without a panic the deferred call changes nothing. *)
Lemma withRecover_returned (r : option TranscodeData * option error) :
  withRecover (Returned r) = r.
Proof. destruct r as [td err]. reflexivity. Qed.

Lemma withRecover_panicked (v : any) :
  withRecover (Panicked v)
  = (None, match v with
           | AnyNil => None
           | AnyError err => Some (UnrecoverableError err)
           | AnyOther _ =>
               Some (UnrecoverableError
                       (Errorf "unrecoverable transcoding failure" []))
           end).
Proof. destruct v; reflexivity. Qed.

(** X30. A panic with a value other than nil, raised while the
    statements of [Transcode] run (in [LocalTranscoder] and in
    [NvidiaTranscoder]), does not leave the function: [Transcode] returns
    no data and an [UnrecoverableError], which wraps the panic value when
    that is an error and the generic "unrecoverable transcoding failure"
    error when it is not. *)
Theorem Transcode_converts_panics
    (x : Externals) (lt : LocalTranscoder) (nv : NvidiaTranscoder)
    (md : SegTranscodingMetadata) (v : any) :
  v <> AnyNil ->
  let converted :=
    UnrecoverableError
      match v with
      | AnyError err => err
      | _ => Errorf "unrecoverable transcoding failure" []
      end in
  (LocalTranscoder_Transcode_body x lt md = Panicked v ->
   LocalTranscoder_Transcode x lt md = (None, Some converted)) /\
  (NvidiaTranscoder_Transcode_body x nv md = Panicked v ->
   NvidiaTranscoder_Transcode x nv md = (None, Some converted)).
Proof.
  intros N converted. subst converted.
  unfold LocalTranscoder_Transcode, NvidiaTranscoder_Transcode.
  split; intros ->; rewrite withRecover_panicked;
    destruct v; [contradiction|reflexivity|reflexivity
                |contradiction|reflexivity|reflexivity].
Qed.

(** The ffmpeg binding panics with a string: both transcoders return the
    generic unrecoverable error. *)
Lemma Transcode_converts_panics_witness :
  LocalTranscoder_Transcode (panickingFfmpeg (AnyOther "boom"))
    {| workDir := "/work" |} someSegment
  = (None, Some (UnrecoverableError
                   (Errorf "unrecoverable transcoding failure" []))) /\
  NvidiaTranscoder_Transcode (panickingFfmpeg (AnyOther "boom"))
    {| device := "0" |} someSegment
  = (None, Some (UnrecoverableError
                   (Errorf "unrecoverable transcoding failure" []))).
Proof.
  destruct (@Transcode_converts_panics (panickingFfmpeg (AnyOther "boom"))
              {| workDir := "/work" |} {| device := "0" |} someSegment
              (AnyOther "boom")) as [L N].
  - discriminate.
  - split; [apply L|apply N]; reflexivity.
Defined.

(** C8 (what the code does, against the design document and against the
    comment at the head of both [Transcode] methods).  A panic with the
    nil value, raised while the statements of [Transcode] run, is stopped
    but not converted: [recover()] returns nil, the deferred call takes
    that for "no panic" and leaves the error result alone, and
    [Transcode] returns neither data nor an error. *)
Theorem Transcode_loses_nil_panic
    (x : Externals) (lt : LocalTranscoder) (nv : NvidiaTranscoder)
    (md : SegTranscodingMetadata) :
  (LocalTranscoder_Transcode_body x lt md = Panicked AnyNil ->
   LocalTranscoder_Transcode x lt md = (None, None)) /\
  (NvidiaTranscoder_Transcode_body x nv md = Panicked AnyNil ->
   NvidiaTranscoder_Transcode x nv md = (None, None)).
Proof.
  unfold LocalTranscoder_Transcode, NvidiaTranscoder_Transcode.
  split; intros ->; rewrite withRecover_panicked; reflexivity.
Qed.

(** The ffmpeg binding panics with nil: both transcoders return
    [(nil, nil)], no [UnrecoverableError]. *)
Lemma Transcode_loses_nil_panic_witness :
  (LocalTranscoder_Transcode_body (panickingFfmpeg AnyNil)
     {| workDir := "/work" |} someSegment = Panicked AnyNil /\
   LocalTranscoder_Transcode (panickingFfmpeg AnyNil)
     {| workDir := "/work" |} someSegment = (None, None)) /\
  (NvidiaTranscoder_Transcode_body (panickingFfmpeg AnyNil)
     {| device := "0" |} someSegment = Panicked AnyNil /\
   NvidiaTranscoder_Transcode (panickingFfmpeg AnyNil)
     {| device := "0" |} someSegment = (None, None)).
Proof.
  destruct (@Transcode_loses_nil_panic (panickingFfmpeg AnyNil)
              {| workDir := "/work" |} {| device := "0" |} someSegment) as [L N].
  split; (split; [reflexivity|]); [apply L|apply N]; reflexivity.
Defined.

End TranscoderPanics.

(* ================================================================== *)
(** * Further properties of the client *)
(* ================================================================== *)

Section MoreEventWatching.
Import Go Eth Traces Scenarios.
Local Open Scope Z_scope.

(** X1. A log that [WatchEvent] returns without an error is one the
    channel delivered: it is not flagged removed, it was received before
    the timer, and every log delivered before it was received before the
    timer and flagged removed. *)
Theorem WatchEvent_returns_first_valid
    (w : World) (c : Client) (now : Z) (logsCh : list (Z * Log)) (log : Log) :
  WatchEvent w c now logsCh = (log, None) ->
  exists retracted t rest,
    logsCh = retracted ++ (t, log) :: rest /\
    Forall (discarded w (now + eventTimeout c)) retracted /\
    arrivesFirst w (now + eventTimeout c) t = true /\
    Removed log = false.
Proof.
  unfold WatchEvent. set (timer := now + eventTimeout c).
  induction logsCh as [|[t l] rest IH]; cbn [WatchEvent_loop]; [discriminate|].
  destruct (arrivesFirst w timer t) eqn:A; [|discriminate].
  destruct (Removed l) eqn:R; cbn [negb].
  - intros H. destruct (IH H) as (retracted & t' & rest' & -> & F & A' & R').
    exists ((t, l) :: retracted), t', rest'. repeat split; try assumption.
    constructor; [split; assumption|exact F].
  - intros H. injection H as <-. exists [], t, rest. repeat split; auto.
Qed.

Lemma WatchEvent_returns_first_valid_witness :
  exists retracted t rest,
    [(1 * Second, approvalLog true); (2 * Second, approvalLog false);
     (3 * Second, approvalLog false)]
    = retracted ++ (t, approvalLog false) :: rest /\
    Forall (discarded silentNode (0 + eventTimeout aliceClient)) retracted /\
    arrivesFirst silentNode (0 + eventTimeout aliceClient) t = true /\
    Removed (approvalLog false) = false.
Proof.
  apply (@WatchEvent_returns_first_valid silentNode aliceClient 0
           [(1 * Second, approvalLog true); (2 * Second, approvalLog false);
            (3 * Second, approvalLog false)] (approvalLog false)).
  reflexivity.
Defined.

(** X2. Whenever [WatchEvent] returns an error, the error is the timed-out
    error and the log is the empty log: there is no other failure. *)
Theorem WatchEvent_only_fails_by_timeout
    (w : World) (c : Client) (now : Z) (logsCh : list (Z * Log)) (err : error) :
  snd (WatchEvent w c now logsCh) = Some err ->
  WatchEvent w c now logsCh = (zeroLog, Some (Errorf "watchEvent timed out" [])).
Proof.
  unfold WatchEvent. set (timer := now + eventTimeout c).
  induction logsCh as [|[t l] rest IH]; cbn [WatchEvent_loop]; [reflexivity|].
  destruct (arrivesFirst w timer t); [|reflexivity].
  destruct (Removed l); cbn [negb snd]; [exact IH|discriminate].
Qed.

Lemma WatchEvent_only_fails_by_timeout_witness :
  WatchEvent silentNode aliceClient 0
    [(1 * Second, approvalLog true); (31 * Second, approvalLog false)]
  = (zeroLog, Some (Errorf "watchEvent timed out" [])).
Proof.
  apply (@WatchEvent_only_fails_by_timeout silentNode aliceClient 0
           [(1 * Second, approvalLog true); (31 * Second, approvalLog false)]
           (Errorf "watchEvent timed out" [])).
  reflexivity.
Defined.

End MoreEventWatching.

Section MoreReceipts.
Import Go Eth Traces Scenarios.
Local Open Scope Z_scope.

(** One turn of the loop whose request is answered with an error other
    than [ethereum.NotFound]. *)
Lemma WaitForReceipt_turn_failed
    (w : World) (c : Client) (tx : Transaction) (fuel : nat) (s : St)
    (receipt : option Receipt) (err : error) :
  nowCost w < eventTimeout c ->
  TransactionReceipt w (polls s) (tx_Hash tx) = (receipt, Some err) ->
  err <> NotFound ->
  WaitForReceipt w c (S fuel) tx s = Done (Err err) (afterRequest w tx s).
Proof.
  intros T E N. cbn [WaitForReceipt].
  unfold bind, time_Since, bind, time_Now, ret, backend_TransactionReceipt. cbn.
  replace (clock s + nowCost w - clock s <? eventTimeout c) with true
    by (symmetry; apply Z.ltb_lt; lia).
  cbn. rewrite E. destruct err; try contradiction; reflexivity.
Qed.

(** X3. An error of the node other than [ethereum.NotFound] ends
    [WaitForReceipt] at once: the error is returned as it is (also when a
    receipt came with it) and no further request is made. *)
Theorem WaitForReceipt_returns_node_error
    (w : World) (c : Client) (tx : Transaction) (k fuel : nat) (s : St)
    (receipt : option Receipt) (err : error) :
  nowCost w < eventTimeout c ->
  (forall i, (i < k)%nat -> notMinedAt w tx (polls s + i)) ->
  TransactionReceipt w (polls s + k) (tx_Hash tx) = (receipt, Some err) ->
  err <> NotFound ->
  (k < fuel)%nat ->
  exists s',
    WaitForReceipt w c fuel tx s = Done (Err err) s' /\
    polls s' = (polls s + k + 1)%nat.
Proof.
  intros T P E N L.
  destruct (@WaitForReceipt_skips_pending w c tx T k (fuel - k) s P)
    as (s1 & E1 & P1 & _).
  replace (k + (fuel - k))%nat with fuel in E1 by lia.
  destruct (fuel - k)%nat as [|fuel'] eqn:D; [lia|].
  rewrite <- P1 in E.
  rewrite (@WaitForReceipt_turn_failed w c tx fuel' s1 receipt err T E N) in E1.
  exists (afterRequest w tx s1). split; [exact E1|]. cbn. lia.
Qed.

(** What the node can answer to a receipt request. *)
Lemma receipt_request_cases (w : World) (tx : Transaction) (n : nat) :
  notMinedAt w tx n \/
  (exists r, minedAt w tx n r) \/
  (exists receipt err,
      TransactionReceipt w n (tx_Hash tx) = (receipt, Some err) /\ err <> NotFound).
Proof.
  unfold notMinedAt, minedAt.
  destruct (TransactionReceipt w n (tx_Hash tx)) as [receipt err]. cbn.
  destruct err as [e|].
  - destruct e;
      try (right; right; eexists; eexists; split; [reflexivity|discriminate]);
      destruct receipt as [r|]; [right; left; eauto|left; auto].
  - destruct receipt as [r|]; [right; left; eauto|left; auto].
Qed.

(** X4. [WaitForReceipt] only ever asks the node for the receipt of its
    transaction: however the call ends, what it has added to the trace is
    one receipt request for the hash of the transaction per request
    counted, and nothing else (no submission, no subscription). *)
Theorem WaitForReceipt_only_requests_receipts
    (w : World) (c : Client) (tx : Transaction) (fuel : nat) (s : St) :
  exists n,
    polls (finalSt (WaitForReceipt w c fuel tx s)) = (polls s + n)%nat /\
    trace (finalSt (WaitForReceipt w c fuel tx s))
    = trace s ++ repeat (EvReceipt (tx_Hash tx)) n.
Proof.
  revert s. induction fuel as [|fuel IH]; intros s.
  - exists 0%nat. cbn. now rewrite Nat.add_0_r, app_nil_r.
  - destruct (Z_lt_le_dec (nowCost w) (eventTimeout c)) as [T|T].
    + destruct (receipt_request_cases w tx (polls s))
        as [P|[(r & P)|(receipt & err & P & N)]].
      * rewrite (@WaitForReceipt_turn_pending w c tx T fuel s P).
        destruct (IH (afterSleep (afterRequest w tx s))) as (n & Hp & Ht).
        exists (S n). rewrite Hp, Ht. cbn. rewrite <- app_assoc. split; [lia|reflexivity].
      * rewrite (@WaitForReceipt_turn_mined w c tx T fuel s r P).
        exists 1%nat. cbn. split; [lia|reflexivity].
      * rewrite (@WaitForReceipt_turn_failed w c tx fuel s receipt err T P N).
        exists 1%nat. cbn. split; [lia|reflexivity].
    + rewrite WaitForReceipt_times_out_at_once by exact T.
      exists 0%nat. cbn. now rewrite Nat.add_0_r, app_nil_r.
Qed.

(** X5. Every result of [WaitForReceipt] is backed by an answer of the
    node.  A returned receipt is the one the last request delivered and
    its gas used differs from the gas limit; the "threw" error stands for
    a delivered receipt whose gas used equals the limit; any other error
    is the one the last request failed with, except the timed-out error,
    which is only returned when the timeout is not longer than the time
    between two readings of the clock. *)
Theorem WaitForReceipt_result_is_backed
    (w : World) (c : Client) (tx : Transaction) (fuel : nat) (s s' : St)
    (res : Result Receipt) :
  WaitForReceipt w c fuel tx s = Done res s' ->
  let last := TransactionReceipt w (polls s' - 1) (tx_Hash tx) in
  match res with
  | Ok r =>
      (polls s < polls s')%nat /\ fst last = Some r /\ tx_Gas tx <> GasUsed r
  | Err err =>
      (err = Errorf "Tx %v timed out" [Hex (tx_Hash tx)] /\
       eventTimeout c <= nowCost w) \/
      ((polls s < polls s')%nat /\
       ((exists r, fst last = Some r /\ tx_Gas tx = GasUsed r /\
                   err = Errorf "Tx %v threw" [Hex (tx_Hash tx)]) \/
        (snd last = Some err /\ err <> NotFound)))
  end.
Proof.
  revert s. induction fuel as [|fuel IH]; intros s; [discriminate|].
  destruct (Z_lt_le_dec (nowCost w) (eventTimeout c)) as [T|T].
  - destruct (receipt_request_cases w tx (polls s))
      as [P|[(r & P)|(receipt & err & P & N)]].
    + rewrite (@WaitForReceipt_turn_pending w c tx T fuel s P). intros H.
      specialize (IH _ H). cbn [polls afterSleep afterRequest] in IH.
      cbv zeta in *. destruct res as [r|err].
      * destruct IH as (L & F & G). repeat split; [lia|exact F|exact G].
      * destruct IH as [IH|(L & IH)]; [now left|right]. split; [lia|exact IH].
    + rewrite (@WaitForReceipt_turn_mined w c tx T fuel s r P).
      intros H. injection H as <- <-. cbn [polls afterRequest]. cbv zeta.
      replace (S (polls s) - 1)%nat with (polls s) by lia.
      destruct P as [F _]. unfold byGas.
      destruct (tx_Gas tx =? GasUsed r) eqn:G.
      * apply Z.eqb_eq in G. right. split; [lia|]. left. eauto.
      * apply Z.eqb_neq in G. repeat split; [lia|exact F|exact G].
    + rewrite (@WaitForReceipt_turn_failed w c tx fuel s receipt err T P N).
      intros H. injection H as <- <-. cbn [polls afterRequest]. cbv zeta.
      replace (S (polls s) - 1)%nat with (polls s) by lia.
      right. split; [lia|]. right. rewrite P. auto.
  - rewrite WaitForReceipt_times_out_at_once by exact T.
    intros H. injection H as <- <-. cbv zeta. left. auto.
Qed.

End MoreReceipts.

(** The second request fails with an internal error: that error is the
    result, although a receipt came with it. *)
Lemma WaitForReceipt_returns_node_error_witness :
  exists s',
    Eth.WaitForReceipt MoreScenarios.brokenNode Scenarios.aliceClient 10
      Scenarios.someTx (Eth.initialSt 0)
    = Eth.Done (Go.Err (Go.External 500)) s' /\ Eth.polls s' = 2%nat.
Proof.
  apply (@WaitForReceipt_returns_node_error MoreScenarios.brokenNode
           Scenarios.aliceClient Scenarios.someTx 1 10 (Eth.initialSt 0)
           (Some (Scenarios.receiptUsing 40000)) (Go.External 500)).
  - vm_compute. reflexivity.
  - intros [|i] Hi; [split; reflexivity|lia].
  - reflexivity.
  - discriminate.
  - lia.
Defined.

(** The receipt found at the third request is the result, and it is the
    answer to the last request made. *)
Lemma WaitForReceipt_result_is_backed_witness :
  exists s',
    Eth.WaitForReceipt (Scenarios.minedNode 40000) Scenarios.aliceClient 10
      Scenarios.someTx (Eth.initialSt 0)
    = Eth.Done (Go.Ok (Scenarios.receiptUsing 40000)) s' /\
    fst (Eth.TransactionReceipt (Scenarios.minedNode 40000) (Eth.polls s' - 1)
           (Eth.tx_Hash Scenarios.someTx))
    = Some (Scenarios.receiptUsing 40000).
Proof.
  eexists. split.
  - vm_compute. reflexivity.
  - refine (proj1 (proj2 (@WaitForReceipt_result_is_backed
             (Scenarios.minedNode 40000) Scenarios.aliceClient Scenarios.someTx
             10 (Eth.initialSt 0) _ (Go.Ok (Scenarios.receiptUsing 40000)) _))).
    vm_compute. reflexivity.
Defined.

Section MoreOperations.
Import Go Eth Bindings Traces Operations Scenarios MoreScenarios.
Local Open Scope Z_scope.

Lemma run_plain (op : Operation) (w : World) (c : Client) (fuel : nat) :
  needsApproval op = false ->
  run op w c fuel = submitThenWait w c fuel (sessionOf op c) (callOf op).
Proof. destruct op; intros H; try discriminate; reflexivity. Qed.

Lemma run_approval (op : Operation) (w : World) (c : Client) (fuel : nat) :
  needsApproval op = true ->
  run op w c fuel
  = bind (Approve w c (spenderOf op c) (amountOf op))
         (spendAfterGrant w c fuel (sessionOf op c) (callOf op)).
Proof. destruct op; intros H; try discriminate; reflexivity. Qed.

Lemma roleOf_session (op : Operation) (r : Role) (c : Client) :
  roleOf op = Some r -> sessionOf op c = managerSession r c.
Proof. destruct op; intros H; try discriminate; injection H as <-; reflexivity. Qed.

(** X6. When the node refuses the transaction of an operation without a
    prerequisite, the operation ends there: the error of the node is sent
    as it is, the channels are closed, the transaction is not sent again
    and no receipt is asked for. *)
Theorem dispatch_failure_is_final
    (op : Operation) (w : World) (c : Client) (fuel : nat) (s : St)
    (sess : Session) (err : error) :
  needsApproval op = false ->
  sessionOf op c = Some sess ->
  transact w sess (callOf op) = Err err ->
  run op w c fuel s
  = Done [SendErr err; CloseErr; CloseRes]
         {| clock := clock s + rpcCost w; polls := polls s;
            trace := trace s ++ [EvTransact (callOf op) false] |}.
Proof.
  intros P S T. rewrite run_plain by exact P. rewrite S.
  unfold submitThenWait, bind, session_call, bind, emit, elapse, ret.
  rewrite T. reflexivity.
Qed.

Lemma dispatch_failure_is_final_witness :
  exists s',
    Reward tightNode aliceClient 10 (initialSt 0)
    = Done [SendErr (External 7); CloseErr; CloseRes] s' /\
    polls s' = 0%nat /\ trace s' = [EvTransact BondingManager_Reward false].
Proof.
  eexists. split.
  - refine (@dispatch_failure_is_final OpReward tightNode aliceClient 10 (initialSt 0)
              {| session_Contract := {| boundAt := addr x0b |};
                 session_TransactOpts := aliceOpts |} (External 7) _ _ _);
      reflexivity.
  - split; reflexivity.
Defined.

(** Picks the value a three-step handle carries. *)
Ltac one_sent :=
  unfold deferredCloses; cbn [app];
  match goal with
  | |- exists outs, ([?x; CloseErr; CloseRes] = _ /\ _) /\ _ =>
      exists [x]; cbn; repeat split; try lia; repeat constructor
  end.

(** The handle of what follows [Approve] in [Bond] and [Deposit]. *)
Lemma spendAfterGrant_handle (w : World) (c : Client) (fuel : nat)
    (session : option Session) (call : TxCall) (inRes : option (Z * Log))
    (s s' : St) (h : Handle) :
  spendAfterGrant w c fuel session call inRes s = Done h s' ->
  exists outs, sentBeforeClose h outs /\ (List.length outs <= 1)%nat.
Proof.
  unfold spendAfterGrant, bind, time_NewTimer, select3, sentBeforeClose,
    deferredCloses.
  assert (T : forall s0 s1 h0,
             Done (deferredCloses [SendErr (Errorf "Event subscription timed out" [])]) s0
             = Done h0 s1 ->
             exists outs, (h0 = outs ++ [CloseErr; CloseRes] /\
                           Forall (fun op => isOutcome op = true) outs) /\
                          (List.length outs <= 1)%nat).
  { intros s0 s1 h0 H. injection H as <- _. one_sent. }
  destruct inRes as [[t log]|]; [|cbn; apply T].
  destruct (arrivesFirst w (clock s + eventTimeout c) t); [|cbn; apply T].
  unfold bind, waitUntil, ret. cbn.
  destruct (Removed log); cbn.
  - intros H. injection H as <- _. exists []. repeat split; [constructor|cbn; lia].
  - unfold session_call. destruct session as [sess|]; [|discriminate].
    unfold bind, emit, elapse, ret. cbn.
    destruct (transact w sess call) as [tx|err]; cbn.
    + match goal with
      | |- context [WaitForReceipt w c fuel tx ?s0] =>
          destruct (WaitForReceipt w c fuel tx s0) as [[r|e] s2|s2|v s2|s2]
      end; try discriminate; intros H; injection H as <- _; one_sent.
    + intros H; injection H as <- _. one_sent.
Qed.

(** X7. The goroutine of every operation that runs to its end has sent at
    most one value (a receipt or an error) and then closed the error
    channel and the receipt channel, in this order; an operation without a
    prerequisite has sent exactly one. *)
Theorem handle_carries_at_most_one_value
    (op : Operation) (w : World) (c : Client) (fuel : nat) (s s' : St)
    (h : Handle) :
  run op w c fuel s = Done h s' ->
  exists outs,
    sentBeforeClose h outs /\
    (List.length outs <= 1)%nat /\
    (needsApproval op = false -> List.length outs = 1%nat).
Proof.
  destruct (needsApproval op) eqn:N.
  - rewrite run_approval by exact N. unfold bind.
    destruct (Approve w c (spenderOf op c) (amountOf op) s)
      as [inRes s1|s1|v s1|s1]; try discriminate.
    intros H. destruct (spendAfterGrant_handle _ _ _ _ _ _ _ H) as (outs & S & L).
    exists outs. repeat split; try apply S; [exact L|discriminate].
  - rewrite run_plain by exact N. intros H.
    pose proof (submitThenWait_one_outcome _ _ _ _ _ _ H) as L.
    revert H. unfold submitThenWait, bind, session_call, sentBeforeClose.
    destruct (sessionOf op c) as [sess|]; [|discriminate].
    unfold bind, emit, elapse, ret. cbn.
    destruct (transact w sess (callOf op)) as [tx|err]; cbn.
    + match goal with
      | |- context [WaitForReceipt w c fuel tx ?s0] =>
          destruct (WaitForReceipt w c fuel tx s0) as [[r|e] s2|s2|v s2|s2]
      end; try discriminate; intros H; injection H as <- _; one_sent.
    + intros H; injection H as <- _. one_sent.
Qed.

Lemma handle_carries_at_most_one_value_witness :
  exists outs,
    sentBeforeClose [SendRes (receiptUsing 40000); CloseErr; CloseRes] outs /\
    (List.length outs <= 1)%nat /\
    (needsApproval OpReward = false -> List.length outs = 1%nat).
Proof.
  refine (@handle_carries_at_most_one_value OpReward (minedNode 40000) aliceClient
            10 (initialSt 0) _ [SendRes (receiptUsing 40000); CloseErr; CloseRes] _).
  vm_compute. reflexivity.
Defined.

(** What [NewClient] returns is what [SetManagers] leaves of the client
    it starts from. *)
Lemma NewClient_client (w : World) (account : Account)
    (passphrase datadir : string) (protocolAddr tokenAddr : Address)
    (rpcTimeout eventTimeout : Duration) (client : Client) (err : option error) :
  NewClient w account passphrase datadir protocolAddr tokenAddr rpcTimeout
    eventTimeout = (Some client, err) ->
  exists fresh,
    client = fst (SetManagers w fresh) /\
    bondingManagerSession fresh = None /\ jobsManagerSession fresh = None /\
    roundsManagerSession fresh = None /\
    bondingManagerAddr fresh = zeroAddress /\ jobsManagerAddr fresh = zeroAddress /\
    roundsManagerAddr fresh = zeroAddress /\
    Eth.account fresh = account /\ Eth.protocolAddr fresh = protocolAddr /\
    Eth.tokenAddr fresh = tokenAddr /\ Eth.rpcTimeout fresh = rpcTimeout /\
    Eth.eventTimeout fresh = eventTimeout.
Proof.
  unfold NewClient.
  destruct (NewTransactOptsForAccount w account passphrase); [|discriminate].
  destruct (NewLivepeerToken w tokenAddr); [|discriminate].
  destruct (NewLivepeerProtocol w protocolAddr); [|discriminate].
  match goal with
  | |- context [SetManagers w ?c0] => set (fresh := c0)
  end.
  destruct (SetManagers w fresh) as [c' e] eqn:S. intros H. injection H as <- _.
  exists fresh. rewrite S. repeat split.
Qed.

(** X8. A client that [NewClient] returned although the registry lookup of
    a manager role failed crashes in every operation without a
    prerequisite that uses this manager: the operation dereferences the
    nil session before it makes any call to the node. *)
Theorem unresolved_manager_crashes_operation
    (w : World) (account : Account) (passphrase datadir : string)
    (protocolAddr tokenAddr : Address) (rpcTimeout eventTimeout : Duration)
    (client : Client) (r : Role) (err : error)
    (op : Operation) (w' : World) (fuel : nat) (s : St) :
  NewClient w account passphrase datadir protocolAddr tokenAddr rpcTimeout
    eventTimeout = (Some client, None) ->
  lookup w (protocolSession client) r = Err err ->
  needsApproval op = false ->
  roleOf op = Some r ->
  run op w' client fuel s = Crashed nilDereference s.
Proof.
  intros N L P R.
  destruct (NewClient_client _ _ _ _ _ _ _ _ N)
    as (fresh & -> & B & J & Rd & _).
  pose proof (SetManagers_sameRoots w fresh) as (_ & _ & _ & _ & _ & PS & _).
  rewrite PS in L.
  destruct (SetManagers_failed_lookup_untouched w fresh r L) as [_ U].
  rewrite run_plain by exact P. rewrite (roleOf_session _ _ R), U.
  assert (Z0 : managerSession r fresh = None) by (destruct r; assumption).
  rewrite Z0. reflexivity.
Qed.

(** The JobsManager is not registered: [NewClient] returns a client, and
    creating a job with it crashes. *)
Lemma unresolved_manager_crashes_operation_witness :
  exists client,
    NewClient halfMigratedNode alice "secret" "/data" (addr x01) (addr x02)
      (5 * Second) (30 * Second) = (Some client, None) /\
    Job silentNode client 10 "stream" "P240p30fps16x9" 100 (initialSt 0)
    = Crashed nilDereference (initialSt 0).
Proof.
  exists (fst (SetManagers halfMigratedNode unboundClient)).
  split; [reflexivity|].
  exact (@unresolved_manager_crashes_operation halfMigratedNode alice "secret"
           "/data" (addr x01) (addr x02) (5 * Second) (30 * Second)
           (fst (SetManagers halfMigratedNode unboundClient))
           JobsManager (External 404)
           (OpJob "stream" "P240p30fps16x9" 100) silentNode 10 (initialSt 0)
           eq_refl eq_refl eq_refl eq_refl).
Defined.

(** What follows [Approve] when the log stands, the spending transaction
    is accepted and its receipt is found. *)
Lemma spendAfterGrant_succeeds (w : World) (c : Client) (fuel k : nat)
    (sess : Session) (call : TxCall) (t : Z) (log : Log) (s : St)
    (tx : Transaction) (r : Receipt) :
  arrivesFirst w (clock s + eventTimeout c) t = true ->
  Removed log = false ->
  transact w sess call = Ok tx ->
  nowCost w < eventTimeout c ->
  (forall i, (i < k)%nat -> notMinedAt w tx (polls s + i)) ->
  minedAt w tx (polls s + k) r ->
  (k < fuel)%nat ->
  exists s',
    spendAfterGrant w c fuel (Some sess) call (Some (t, log)) s
    = Done (deferredCloses
              match byGas tx r with
              | Ok receipt => [SendRes receipt]
              | Err err => [SendErr err]
              end) s' /\
    polls s' = (polls s + k + 1)%nat.
Proof.
  intros A R T N P F L.
  unfold spendAfterGrant, bind, time_NewTimer, select3. rewrite A.
  unfold bind, waitUntil, ret. cbn. rewrite R. cbn.
  unfold session_call, bind, emit, elapse, ret. rewrite T. cbn.
  match goal with
  | |- context [WaitForReceipt w c fuel tx ?s0] => set (s1 := s0)
  end.
  destruct (@WaitForReceipt_skips_pending w c tx N k (fuel - k) s1 P)
    as (s2 & E & P2 & _).
  replace (k + (fuel - k))%nat with fuel in E by lia.
  destruct (fuel - k)%nat as [|fuel'] eqn:D; [lia|].
  change (polls s) with (polls s1) in F. rewrite <- P2 in F.
  rewrite (@WaitForReceipt_turn_mined w c tx N fuel' s2 r F) in E.
  rewrite E.
  exists (afterRequest w tx s2). destruct (byGas tx r); (split; [reflexivity|]).
  all: cbn [polls afterRequest]; subst s1; cbn in *; lia.
Qed.

(** X9. [Bond] and [Deposit] on the good path: once [Approve] has handed
    over a log that is not flagged removed and was received before the
    timer, the spending transaction is sent, [WaitForReceipt] polls until
    the receipt is there, and a receipt whose gas used differs from the
    gas limit is the one value sent before the channels are closed. *)
Theorem approved_spend_delivers_receipt
    (op : Operation) (w : World) (c : Client) (fuel k : nat) (s s1 : St)
    (t : Z) (log : Log) (sess : Session) (tx : Transaction) (r : Receipt) :
  needsApproval op = true ->
  Approve w c (spenderOf op c) (amountOf op) s = Done (Some (t, log)) s1 ->
  arrivesFirst w (clock s1 + eventTimeout c) t = true ->
  Removed log = false ->
  sessionOf op c = Some sess ->
  transact w sess (callOf op) = Ok tx ->
  nowCost w < eventTimeout c ->
  (forall i, (i < k)%nat -> notMinedAt w tx (polls s1 + i)) ->
  minedAt w tx (polls s1 + k) r ->
  tx_Gas tx <> GasUsed r ->
  (k < fuel)%nat ->
  exists s',
    run op w c fuel s = Done [SendRes r; CloseErr; CloseRes] s' /\
    polls s' = (polls s1 + k + 1)%nat.
Proof.
  intros N A F R S T C P M G L.
  rewrite run_approval by exact N. unfold bind. rewrite A, S.
  destruct (@spendAfterGrant_succeeds w c fuel k sess (callOf op) t log s1 tx r
              F R T C P M L) as (s' & E & Q).
  exists s'. rewrite E. split; [|exact Q].
  unfold byGas. apply Z.eqb_neq in G. now rewrite G.
Qed.

(** Bonding 1000 on a node that confirms the allowance after five seconds
    and mines the bond: the receipt is delivered after three requests. *)
Lemma approved_spend_delivers_receipt_witness :
  exists s',
    Bond grantingNode aliceClient 10 1000 (addr x33) (initialSt 0)
    = Done [SendRes (receiptUsing 40000); CloseErr; CloseRes] s' /\
    polls s' = 3%nat.
Proof.
  refine (@approved_spend_delivers_receipt (OpBond 1000 (addr x33)) grantingNode
            aliceClient 10 2 (initialSt 0)
            (afterApprove grantingNode (addr x0b) 1000)
            (5 * Second) (approvalLog false)
            {| session_Contract := {| boundAt := addr x0b |};
               session_TransactOpts := aliceOpts |}
            someTx (receiptUsing 40000) _ _ _ _ _ _ _ _ _ _ _);
    try reflexivity.
  - intros [|[|i]] Hi; [split; reflexivity|split; reflexivity|lia].
  - split; reflexivity.
  - vm_compute. discriminate.
  - lia.
Defined.

(** X10. [Bond] and [Deposit] when the timer comes first ([Approve] has
    returned, and the log arrives after the timer or never): the one value
    sent is the "Event subscription timed out" error, and nothing is asked
    of the node after the two calls of [Approve] (no spending transaction,
    no receipt request). *)
Theorem approved_spend_times_out
    (op : Operation) (w : World) (c : Client) (fuel : nat) (s s1 : St)
    (inRes : option (Z * Log)) :
  needsApproval op = true ->
  Approve w c (spenderOf op c) (amountOf op) s = Done inRes s1 ->
  match inRes with
  | Some (t, _) => arrivesFirst w (clock s1 + eventTimeout c) t = false
  | None => True
  end ->
  exists s',
    run op w c fuel s
    = Done [SendErr (Errorf "Event subscription timed out" []);
            CloseErr; CloseRes] s' /\
    trace s' = trace s1 /\ polls s' = polls s1 /\
    clock s' = clock s1 + Z.max 0 (eventTimeout c).
Proof.
  intros N A T. rewrite run_approval by exact N. unfold bind. rewrite A.
  rewrite spendAfterGrant_timeout by exact T.
  eexists. split; [reflexivity|]. cbn. repeat split. lia.
Qed.

(** The Approval log never comes: after thirty seconds [Deposit] reports
    the timeout. *)
Lemma approved_spend_times_out_witness :
  exists s',
    Deposit silentNode aliceClient 10 500 (initialSt 0)
    = Done [SendErr (Errorf "Event subscription timed out" []);
            CloseErr; CloseRes] s' /\
    trace s' = trace (afterApprove silentNode (addr x0c) 500) /\
    polls s' = 0%nat /\
    clock s' = 2 * rpcCost silentNode + 30 * Second.
Proof.
  refine (@approved_spend_times_out (OpDeposit 500) silentNode aliceClient 10
            (initialSt 0) (afterApprove silentNode (addr x0c) 500) None _ _ _).
  - reflexivity.
  - reflexivity.
  - exact I.
Defined.

(** X11. [Bond] and [Deposit] call their spending method only after
    [Approve] has returned a log that is not flagged removed and that was
    received before the timer set on its return. *)
Theorem spend_needs_grant_event
    (op : Operation) (w : World) (c : Client) (fuel : nat) (s : St) :
  needsApproval op = true ->
  calls (isSpendOf op) (trace (finalSt (run op w c fuel s)))
    <> calls (isSpendOf op) (trace s) ->
  exists t log s1,
    Approve w c (spenderOf op c) (amountOf op) s = Done (Some (t, log)) s1 /\
    arrivesFirst w (clock s1 + eventTimeout c) t = true /\ Removed log = false.
Proof.
  intros N. destruct op; try discriminate; cbn [run isSpendOf spenderOf amountOf].
  - apply Bond_needs_grant_event.
  - apply Deposit_needs_grant_event.
Qed.

Lemma spend_needs_grant_event_witness :
  exists t log s1,
    Approve grantingNode aliceClient (addr x0b) 1000 (initialSt 0)
    = Done (Some (t, log)) s1 /\
    arrivesFirst grantingNode (clock s1 + eventTimeout aliceClient) t = true /\
    Removed log = false.
Proof.
  refine (@spend_needs_grant_event (OpBond 1000 (addr x33)) grantingNode
            aliceClient 10 (initialSt 0) _ _).
  - reflexivity.
  - vm_compute. discriminate.
Defined.

End MoreOperations.

Section MoreBindings.
Import Go Eth Bindings Scenarios.
Local Open Scope string_scope.

(** One step of a resolution: split on its result and replay it where
    the second resolution repeats it. *)
Ltac resolve_step x :=
  let E := fresh "E" in
  destruct x eqn:E; cbn;
  repeat match goal with
         | H : _ = _ |- _ => rewrite H
         end;
  cbn; try reflexivity.

(** X12. Resolving the managers twice against the same registry is the
    same as resolving them once: the second [SetManagers] returns the same
    error (or none) and leaves the client as the first one left it. *)
Theorem SetManagers_twice (w : World) (c : Client) :
  SetManagers w (fst (SetManagers w c)) = SetManagers w c.
Proof.
  destruct c as [acc ks opts pa ta ba ja ra ps ts bs js rs rt et].
  unfold SetManagers. cbn.
  repeat first
    [ match goal with
      | |- context [match Registry w ps ?k with Ok _ => _ | Err _ => _ end] =>
          resolve_step (Registry w ps k)
      end
    | match goal with
      | |- context [match NewBondingManager w ?a with Ok _ => _ | Err _ => _ end] =>
          is_var a; resolve_step (NewBondingManager w a)
      end
    | match goal with
      | |- context [match NewJobsManager w ?a with Ok _ => _ | Err _ => _ end] =>
          is_var a; resolve_step (NewJobsManager w a)
      end
    | match goal with
      | |- context [match NewRoundsManager w ?a with Ok _ => _ | Err _ => _ end] =>
          is_var a; resolve_step (NewRoundsManager w a)
      end ].
Qed.

(** X13. [NewClient] returns either a client and no error or an error and
    no client.  It fails exactly when unlocking the account or binding the
    token or the protocol contract fails, with the error of the first of
    these steps that fails; a failure of the manager resolution is not
    among them. *)
Theorem NewClient_client_or_error
    (w : World) (account : Account) (passphrase datadir : string)
    (protocolAddr tokenAddr : Address) (rpcTimeout eventTimeout : Duration) :
  match NewClient w account passphrase datadir protocolAddr tokenAddr rpcTimeout
          eventTimeout with
  | (Some client, None) =>
      (exists opts token protocol,
          NewTransactOptsForAccount w account passphrase = Ok opts /\
          NewLivepeerToken w tokenAddr = Ok token /\
          NewLivepeerProtocol w protocolAddr = Ok protocol /\
          transactOpts client = opts /\
          tokenSession client
          = {| session_Contract := token; session_TransactOpts := opts |} /\
          protocolSession client
          = {| session_Contract := protocol; session_TransactOpts := opts |}) /\
      Eth.account client = account /\
      Eth.protocolAddr client = protocolAddr /\ Eth.tokenAddr client = tokenAddr /\
      Eth.rpcTimeout client = rpcTimeout /\ Eth.eventTimeout client = eventTimeout
  | (None, Some err) =>
      NewTransactOptsForAccount w account passphrase = Err err \/
      (exists opts,
          NewTransactOptsForAccount w account passphrase = Ok opts /\
          (NewLivepeerToken w tokenAddr = Err err \/
           exists token,
             NewLivepeerToken w tokenAddr = Ok token /\
             NewLivepeerProtocol w protocolAddr = Err err))
  | _ => False
  end.
Proof.
  unfold NewClient.
  destruct (NewTransactOptsForAccount w account passphrase) as [opts|e]; [|now left].
  destruct (NewLivepeerToken w tokenAddr) as [token|e]; [|right; eauto].
  destruct (NewLivepeerProtocol w protocolAddr) as [protocol|e]; [|right; eauto 6].
  match goal with
  | |- context [SetManagers w ?c0] =>
      pose proof (SetManagers_sameRoots w c0) as R;
      destruct (SetManagers w c0) as [client e]
  end.
  cbn [fst] in R. destruct R as (A & _ & O & PA & TA & PS & TS & RT & ET).
  cbn in *. split; [|auto].
  exists opts, token, protocol. auto 10.
Qed.

End MoreBindings.

(** ** The read-only accessors *)

Section ReadAccessors.
Import Go Eth Bindings Operations Reads ReadsVocabulary Scenarios.
Local Open Scope Z_scope.

(** X14. With a resolved RoundsManager, [RoundInfo] returns either the
    three numbers and no error (when the three reads succeed) or no number
    at all and the error of the first read that failed, in the order
    current round, start block, latest block: never a partial result. *)
Theorem RoundInfo_whole_or_error (ch : Chain) (c : Client) (sess : Session) :
  roundsManagerSession c = Some sess ->
  let reads := [RoundsManager_CurrentRound ch sess;
                RoundsManager_CurrentRoundStartBlock ch sess;
                latestBlockNumber ch] in
  match firstError reads with
  | Some err => RoundInfo ch c = Returned (None, None, None, Some err)
  | None =>
      exists cr crsb number,
        reads = [Ok cr; Ok crsb; Ok number] /\
        RoundInfo ch c = Returned (Some cr, Some crsb, Some number, None)
  end.
Proof.
  intros S reads. subst reads. unfold RoundInfo. rewrite S. cbn.
  destruct (RoundsManager_CurrentRound ch sess) as [cr|e]; cbn; [|reflexivity].
  destruct (RoundsManager_CurrentRoundStartBlock ch sess) as [crsb|e]; cbn;
    [|reflexivity].
  destruct (latestBlockNumber ch) as [n|e]; cbn; [|reflexivity].
  eauto 6.
Qed.

Lemma RoundInfo_whole_or_error_witness :
  RoundInfo blocklessChain aliceClient
  = Returned (None, None, None, Some (External 503)).
Proof.
  exact (@RoundInfo_whole_or_error blocklessChain aliceClient
           {| session_Contract := {| boundAt := addr x0d |};
              session_TransactOpts := aliceOpts |} eq_refl).
Defined.

(** X15. With the three managers resolved, [ProtocolTimeParams] returns
    the five parameters when the five reads succeed, and otherwise the
    error of the first read that failed, in the order round length, job
    ending period, verification period, slashing period, unbonding
    period. *)
Theorem ProtocolTimeParams_first_error
    (ch : Chain) (c : Client) (rs js bs : Session) :
  roundsManagerSession c = Some rs ->
  jobsManagerSession c = Some js ->
  bondingManagerSession c = Some bs ->
  let reads := [RoundsManager_RoundLength ch rs;
                JobsManager_JobEndingPeriod ch js;
                JobsManager_VerificationPeriod ch js;
                JobsManager_SlashingPeriod ch js;
                BondingManager_UnbondingPeriod ch bs] in
  match firstError reads with
  | Some err => ProtocolTimeParams ch c = Returned (Err err)
  | None =>
      exists rl je ve sl un,
        reads = [Ok rl; Ok je; Ok ve; Ok sl; Ok un] /\
        ProtocolTimeParams ch c
        = Returned (Ok {| RoundLength := rl; JobEndingPeriod := je;
                          VerificationPeriod := ve; SlashingPeriod := sl;
                          UnbondingPeriod := un |})
  end.
Proof.
  intros R J B reads. subst reads. unfold ProtocolTimeParams. rewrite R, J, B. cbn.
  destruct (RoundsManager_RoundLength ch rs); cbn; [|reflexivity].
  destruct (JobsManager_JobEndingPeriod ch js); cbn; [|reflexivity].
  destruct (JobsManager_VerificationPeriod ch js); cbn; [|reflexivity].
  destruct (JobsManager_SlashingPeriod ch js); cbn; [|reflexivity].
  destruct (BondingManager_UnbondingPeriod ch bs); cbn; [|reflexivity].
  eauto 10.
Qed.

Lemma ProtocolTimeParams_first_error_witness :
  ProtocolTimeParams blocklessChain aliceClient = Returned (Err (External 5)).
Proof.
  exact (@ProtocolTimeParams_first_error blocklessChain aliceClient
           {| session_Contract := {| boundAt := addr x0d |};
              session_TransactOpts := aliceOpts |}
           {| session_Contract := {| boundAt := addr x0c |};
              session_TransactOpts := aliceOpts |}
           {| session_Contract := {| boundAt := addr x0b |};
              session_TransactOpts := aliceOpts |} eq_refl eq_refl eq_refl).
Defined.

Lemma SetManagers_success_sessions (w : World) (c : Client) :
  snd (SetManagers w c) = None ->
  exists bs js rs,
    bondingManagerSession (fst (SetManagers w c)) = Some bs /\
    jobsManagerSession (fst (SetManagers w c)) = Some js /\
    roundsManagerSession (fst (SetManagers w c)) = Some rs.
Proof.
  unfold SetManagers.
  repeat match goal with
         | |- context [match ?x with Ok _ => _ | Err _ => _ end] => destruct x
         end; cbn; try discriminate.
  intros _. do 3 eexists. repeat split.
Qed.

Lemma through_returns {A} (sess : Session) (call : Session -> A) :
  through (Some sess) call = Returned (call sess).
Proof. reflexivity. Qed.

(** X16. After a [SetManagers] that returned no error, no read accessor
    dereferences a nil session: each of them returns, with a value or with
    the error of the chain. *)
Theorem resolved_client_reads_safely (w : World) (c : Client) (ch : Chain) :
  snd (SetManagers w c) = None ->
  let c' := fst (SetManagers w c) in
  returns (RoundInfo ch c') /\ returns (CurrentRoundInitialized ch c') /\
  returns (IsActiveTranscoder ch c') /\ returns (TranscoderBond ch c') /\
  returns (TranscoderStake ch c') /\ returns (TranscoderStatus ch c') /\
  returns (DelegatorStake ch c') /\ returns (LastRewardRound ch c') /\
  returns (ProtocolTimeParams ch c') /\ forall jobID, returns (GetJob ch c' jobID).
Proof.
  intros S c'. destruct (SetManagers_success_sessions w c S) as (bs & js & rs & B & J & R).
  fold c' in B, J, R.
  unfold returns, RoundInfo, CurrentRoundInitialized, IsActiveTranscoder,
    TranscoderBond, TranscoderStake, TranscoderStatus, DelegatorStake,
    LastRewardRound, ProtocolTimeParams, GetJob.
  rewrite B, J, R. cbn.
  repeat split; try intros jobID;
    repeat match goal with
           | |- context [match ?x with Ok _ => _ | Err _ => _ end] =>
               destruct x; cbn
           end; eauto.
Qed.

Lemma resolved_client_reads_safely_witness :
  returns (RoundInfo steadyChain aliceClient) /\
  returns (ProtocolTimeParams steadyChain aliceClient).
Proof.
  destruct (@resolved_client_reads_safely silentNode unboundClient steadyChain
              eq_refl) as (A & _ & _ & _ & _ & _ & _ & _ & B & _).
  split; [exact A|exact B].
Defined.

Lemma SetManagers_failure_leaves_rounds_unset (w : World) (c : Client) (r : Role) :
  roundsManagerSession c = None ->
  resolutionFails w (protocolSession c) r ->
  roundsManagerSession (fst (SetManagers w c)) = None.
Proof.
  intros N F. unfold resolutionFails, lookup, construct in F. unfold SetManagers.
  destruct r; cbn [roleName] in F;
    destruct F as [(e & L)|(a & e & L & K)];
    repeat (match goal with
            | |- context [match ?x with Ok _ => _ | Err _ => _ end] =>
                destruct x eqn:?
            end; cbn in *);
    try assumption; congruence.
Qed.

(** X17. A client that [NewClient] returned although the resolution of
    some manager role failed cannot read the round: the RoundsManager is
    resolved last, so its session is nil, and [RoundInfo],
    [CurrentRoundInitialized] and [ProtocolTimeParams] dereference it. *)
Theorem unresolved_client_cannot_read_round
    (w : World) (account : Account) (passphrase datadir : string)
    (protocolAddr tokenAddr : Address) (rpcTimeout eventTimeout : Duration)
    (client : Client) (r : Role) (ch : Chain) :
  NewClient w account passphrase datadir protocolAddr tokenAddr rpcTimeout
    eventTimeout = (Some client, None) ->
  resolutionFails w (protocolSession client) r ->
  RoundInfo ch client = Panicked nilDereference /\
  CurrentRoundInitialized ch client = Panicked nilDereference /\
  ProtocolTimeParams ch client = Panicked nilDereference.
Proof.
  intros N F.
  destruct (NewClient_client _ _ _ _ _ _ _ _ N) as (fresh & -> & _ & _ & Rd & _).
  pose proof (SetManagers_sameRoots w fresh) as (_ & _ & _ & _ & _ & PS & _).
  rewrite PS in F.
  pose proof (@SetManagers_failure_leaves_rounds_unset w fresh r Rd F) as U.
  unfold RoundInfo, CurrentRoundInitialized, ProtocolTimeParams. rewrite U.
  repeat split.
Qed.

Lemma unresolved_client_cannot_read_round_witness :
  RoundInfo steadyChain (fst (SetManagers halfMigratedNode unboundClient))
  = Panicked nilDereference.
Proof.
  refine (proj1 (@unresolved_client_cannot_read_round halfMigratedNode alice
                   "secret" "/data" (addr x01) (addr x02) (5 * Second) (30 * Second)
                   (fst (SetManagers halfMigratedNode unboundClient))
                   JobsManager steadyChain eq_refl _)).
  left. exists (External 404). reflexivity.
Defined.

End ReadAccessors.

(* ================================================================== *)
(** * Further properties of the transcoder *)
(* ================================================================== *)

Section MoreParseURI.
Import Go Text Core.
Local Open Scope string_scope.
Local Open Scope Z_scope.

Lemma append_empty (s : string) : s ++ "" = s.
Proof. induction s as [|c s IH]; cbn; [reflexivity|now rewrite IH]. Qed.

Lemma Split_without_sep (s : string) (sep : ascii) :
  count sep s = 0%nat -> Split s sep = [s].
Proof.
  induction s as [|c s IH]; cbn; [reflexivity|].
  destruct (Ascii.eqb c sep); [discriminate|].
  cbn. intros H. now rewrite IH.
Qed.

Lemma Split_append (s1 s2 : string) (sep : ascii) :
  Split (s1 ++ String sep s2) sep = (Split s1 sep ++ Split s2 sep)%list.
Proof.
  induction s1 as [|c s1 IH]; cbn.
  - now rewrite Ascii.eqb_refl.
  - destruct (Ascii.eqb c sep); [now rewrite IH|].
    rewrite IH. pose proof (Split_length s1 sep) as L.
    destruct (Split s1 sep); [discriminate|reflexivity].
Qed.

Lemma beforeFirst_append (s1 s2 : string) (sep : ascii) :
  count sep s1 = 0%nat -> beforeFirst sep (s1 ++ String sep s2) = s1.
Proof.
  induction s1 as [|c s1 IH]; cbn.
  - now rewrite Ascii.eqb_refl.
  - destruct (Ascii.eqb c sep); [discriminate|]. cbn. intros H. now rewrite IH.
Qed.

Lemma beforeFirst_without_sep (s : string) (sep : ascii) :
  count sep s = 0%nat -> beforeFirst sep s = s.
Proof.
  induction s as [|c s IH]; cbn; [reflexivity|].
  destruct (Ascii.eqb c sep); [discriminate|]. cbn. intros H. now rewrite IH.
Qed.

(** A string of decimal digits holds neither a dot nor a slash. *)
Lemma decimal_digits_have_no_separator (s : string) :
  forall acc v, decimalValue_from s acc = Some v ->
  count "." s = 0%nat /\ count "/" s = 0%nat.
Proof.
  induction s as [|c s IH]; cbn [decimalValue_from count]; intros acc v H;
    [split; reflexivity|].
  set (d := Z.of_N (N_of_ascii c)) in *.
  destruct ((48 <=? d) && (d <=? 57)) eqn:D; [|discriminate].
  apply andb_prop in D as [D1 D2]. apply Z.leb_le in D1.
  destruct (IH _ _ H) as [A B].
  assert (N1 : Ascii.eqb c "." = false).
  { apply Ascii.eqb_neq. intros ->. vm_compute in D1. now apply D1. }
  assert (N2 : Ascii.eqb c "/" = false).
  { apply Ascii.eqb_neq. intros ->. vm_compute in D1. now apply D1. }
  rewrite N1, N2, A, B. split; reflexivity.
Qed.

(** X18. The address of a segment, read back: for any text before, an
    identifier without a slash, a decimal number below 2^64 and either
    nothing after it or a dot and an extension without a slash,
    [parseURI] returns the identifier, the number and no error. *)
Theorem parseURI_reads_segment_address
    (before mid digits suffix : string) (n : Z) :
  count "/" mid = 0%nat ->
  decimalValue digits = Some n ->
  n <= maxUint64 ->
  (suffix = "" \/ exists ext, suffix = String "." ext) ->
  count "/" suffix = 0%nat ->
  parseURI (before ++ String "/" (mid ++ String "/" (digits ++ suffix)))
  = (mid, n, None).
Proof.
  intros M D B S T.
  assert (ND : count "." digits = 0%nat /\ count "/" digits = 0%nat).
  { destruct digits as [|c ds]; [discriminate|].
    exact (@decimal_digits_have_no_separator _ _ _ D). }
  destruct ND as [Dot Slash].
  assert (NS : count "/" (digits ++ suffix) = 0%nat).
  { clear - Slash T. induction digits as [|c ds IH]; cbn in *; [exact T|].
    destruct (Ascii.eqb c "/"); [discriminate|]. now apply IH. }
  unfold parseURI.
  rewrite !Split_append, (@Split_without_sep mid "/" M),
    (@Split_without_sep (digits ++ suffix) "/" NS).
  pose proof (Split_length before "/") as L.
  set (pre := Split before "/") in *.
  rewrite length_app. cbn [List.length app].
  replace (List.length pre + 2 <? 3)%nat with false
    by (symmetry; apply Nat.ltb_ge; lia).
  replace (List.length pre + 2 - 2)%nat with (List.length pre + 0)%nat by lia.
  replace (List.length pre + 2 - 1)%nat with (List.length pre + 1)%nat by lia.
  rewrite !app_nth2_plus. cbn [nth].
  rewrite Split_first.
  assert (BF : beforeFirst "." (digits ++ suffix) = digits).
  { destruct S as [->|[ext ->]].
    - rewrite append_empty. now apply beforeFirst_without_sep.
    - now apply beforeFirst_append. }
  rewrite BF.
  pose proof (ParseUint_decimal digits) as P. rewrite D in P.
  replace (n <=? maxUint64) with true in P by (symmetry; apply Z.leb_le; exact B).
  now rewrite P.
Qed.

Lemma parseURI_reads_segment_address_witness :
  parseURI "http://host/stream/mid1/17.ts" = ("mid1", 17, None).
Proof.
  apply (@parseURI_reads_segment_address "http://host/stream" "mid1" "17" ".ts" 17).
  - reflexivity.
  - reflexivity.
  - vm_compute. discriminate.
  - right. exists "ts". reflexivity.
  - reflexivity.
Defined.

End MoreParseURI.

Section MoreTranscoding.
Import Go Core Renditions Scenarios.
Local Open Scope string_scope.

(** X19. [profilesToTranscodeOptions] makes one output per profile, in the
    order of the profiles: the [i]-th output encodes the [i]-th profile
    into the file "workDir/out_<i-th random name>.tempfile", with the
    acceleration and the hash flag it was given, audio copied, and no
    detector. *)
Theorem profilesToTranscodeOptions_one_per_profile
    (x : Externals) (workDir : string) (accel : Acceleration)
    (profiles : list VideoProfile) (calcPHash : bool) :
  let opts := profilesToTranscodeOptions x workDir accel profiles calcPHash in
  map Profile opts = map Some profiles /\
  map Oname opts = map (outputName x workDir) (seq 0 (List.length profiles)) /\
  Forall (fun o => Accel o = accel /\ CalcSign o = calcPHash /\
                   Detector o = None /\ AudioEncoder o = "copy") opts.
Proof.
  intros opts. subst opts. unfold profilesToTranscodeOptions.
  generalize 0%nat as i.
  induction profiles as [|p rest IH]; intros i; cbn.
  - repeat split. constructor.
  - destruct (IH (S i)) as (A & B & C). rewrite A, B. repeat split.
    constructor; [repeat split|exact C].
Qed.

(** X20. [detectorsToTranscodeOptions] converts the profiles in order and
    stops at the first one it cannot convert.  When every profile is a
    pointer to a scene classification profile or a foreign profile of
    another type, it makes one option per profile, in order: a detector
    option with the model of [DSceneAdultSoccer] and the acceleration
    given, or the zero value of the options.  Otherwise it panics with the
    panic of the first other profile: a nil dereference for a nil interface
    value or a nil pointer, the runtime error of the failed conversion for
    a foreign profile that reports the scene classification type, the
    panic of a foreign [Type()]. *)
Theorem detectorsToTranscodeOptions_spec
    (x : Externals) (workDir : string) (accel : Acceleration)
    (profiles : list DetectorProfile) :
  match detectorsToTranscodeOptions x workDir accel profiles with
  | Returned opts => Forall2 (detectorOptionFor x accel) profiles opts
  | Panicked v =>
      exists before p after,
        profiles = (before ++ p :: after)%list /\
        forallb convertible before = true /\
        convertible p = false /\ v = panicOf p
  end.
Proof.
  induction profiles as [|p rest IH]; cbn [detectorsToTranscodeOptions].
  - constructor.
  - assert (Good : forall o,
              convertible p = true -> detectorOptionFor x accel p o ->
              match (os <-! detectorsToTranscodeOptions x workDir accel rest ;;
                     Returned (o :: os)) with
              | Returned opts => Forall2 (detectorOptionFor x accel) (p :: rest) opts
              | Panicked v =>
                  exists before p' after,
                    (p :: rest) = (before ++ p' :: after)%list /\
                    forallb convertible before = true /\
                    convertible p' = false /\ v = panicOf p'
              end).
    { intros o C O.
      destruct (detectorsToTranscodeOptions x workDir accel rest) as [os|v]; cbn.
      - constructor; assumption.
      - destruct IH as (before & p' & after & -> & B & N & ->).
        exists (p :: before), p', after. cbn. rewrite C, B. auto. }
    destruct p as [ | |cl|[[|n]|v]]; cbn [DetectorProfile_Type pbind];
      try (apply Good; reflexivity);
      eexists [], _, rest; repeat split.
Qed.

Lemma detectors_return (x : Externals) (workDir : string) (accel : Acceleration)
    (profiles : list DetectorProfile) :
  forallb convertible profiles = true ->
  exists ds, detectorsToTranscodeOptions x workDir accel profiles = Returned ds.
Proof.
  induction profiles as [|p rest IH]; cbn [detectorsToTranscodeOptions forallb];
    intros N; [eauto|].
  apply andb_prop in N as [C N]. destruct (IH N) as [ds E]. rewrite E.
  destruct p as [ | |cl|[[|n]|v]]; cbn in *; try discriminate; eauto.
Qed.

Lemma afterOptions_cons (x : Externals) (fs : FileSystem) (o : TranscodeOptions)
    (opts : list TranscodeOptions) :
  afterOptions x fs (o :: opts) = afterOptions x (afterOption x fs o) opts.
Proof. reflexivity. Qed.

(** The loop of [resToTranscodeData] keeps what was collected and adds
    one segment per rendition and one detection per detector, or it stops
    at the first rendition it cannot read. *)
Lemma resToTranscodeData_loop_spec (x : Externals) (opts : list TranscodeOptions) :
  forall (fs : FileSystem) (encoded : list MediaInfo)
         (segments : list TranscodedSegmentData) (detections : list Z),
  List.length encoded = List.length opts ->
  match resToTranscodeData_loop x fs opts encoded segments detections with
  | Ok (segments', detections') =>
      exists added,
        segments' = (segments ++ added)%list /\
        map seg_Pixels added = map mi_Pixels (renditionResults opts encoded) /\
        delivered x fs opts added /\
        detections' = (detections ++ map DetectData (detectorResults opts encoded))%list
  | Err err =>
      exists before o after,
        opts = (before ++ o :: after)%list /\ unreadableAt x fs before o err
  end.
Proof.
  unfold renditionResults, detectorResults, isDetectorOption.
  induction opts as [|o opts IH]; intros fs encoded segments detections L.
  - destruct encoded; [|discriminate]. cbn.
    exists []. rewrite !app_nil_r. repeat split. constructor.
  - destruct encoded as [|e encoded]; [discriminate|].
    injection L as L. cbn [resToTranscodeData_loop combine filter fst].
    assert (Next : forall fs1 seg sg,
              Detector o = None ->
              fs (Oname o) = Ok (Data seg) ->
              (if CalcSign o
               then exists s, fs (Oname o ++ ".bin") = Ok s /\ PHash seg = Some s
               else PHash seg = None) ->
              fs1 = afterOption x fs o ->
              sg = (segments ++ [seg])%list ->
              match resToTranscodeData_loop x fs1 opts encoded sg detections with
              | Ok (segments', detections') =>
                  exists added,
                    segments' = (segments ++ added)%list /\
                    map seg_Pixels added
                    = seg_Pixels seg
                      :: map mi_Pixels
                           (map snd
                              (filter
                                 (fun p => negb match Detector (fst p) with
                                                | Some _ => true
                                                | None => false
                                                end) (combine opts encoded))) /\
                    delivered x fs (o :: opts) added /\
                    detections'
                    = (detections ++
                       map DetectData
                         (map snd
                            (filter
                               (fun p => match Detector (fst p) with
                                         | Some _ => true
                                         | None => false
                                         end) (combine opts encoded))))%list
              | Err err =>
                  exists before o' after,
                    (o :: opts) = (before ++ o' :: after)%list /\
                    unreadableAt x fs before o' err
              end).
    { intros fs1 seg sg Dt RF RH -> ->.
      specialize (IH (afterOption x fs o) encoded (segments ++ [seg])%list detections L).
      destruct (resToTranscodeData_loop x (afterOption x fs o) opts encoded
                  (segments ++ [seg]) detections) as [[s' d']|err].
      - destruct IH as (added & -> & P & F & ->).
        exists (seg :: added). rewrite <- app_assoc. cbn.
        split; [reflexivity|]. split; [now rewrite P|].
        split; [now constructor|reflexivity].
      - destruct IH as (before & o' & after & -> & Dt' & [segs Dl] & R).
        exists (o :: before), o', after. split; [reflexivity|].
        split; [exact Dt'|]. split; [|exact R].
        exists (seg :: segs). now constructor. }
    destruct (Detector o) as [d|] eqn:Dt; cbn [negb].
    + specialize (IH fs encoded segments (detections ++ [DetectData e])%list L).
      destruct (resToTranscodeData_loop x fs opts encoded segments
                  (detections ++ [DetectData e])) as [[s' d']|err].
      * destruct IH as (added & -> & P & F & ->).
        exists added. rewrite <- app_assoc. cbn. repeat split; try assumption.
        apply delivered_detector; [congruence|assumption].
      * destruct IH as (before & o' & after & -> & Dt' & [segs Dl] & R).
        exists (o :: before), o', after. split; [reflexivity|].
        split; [exact Dt'|]. split.
        -- exists segs. apply delivered_detector; [congruence|assumption].
        -- assert (E : afterOption x fs o = fs)
             by (unfold afterOption; now rewrite Dt).
           rewrite afterOptions_cons, E. exact R.
    + destruct (fs (Oname o)) as [data|err] eqn:RF.
      2:{ exists [], o, opts. split; [reflexivity|].
          split; [exact Dt|]. split; [exists []; constructor|]. cbn. now left. }
      destruct (CalcSign o) eqn:CS.
      * destruct (fs (Oname o ++ ".bin")) as [h|err] eqn:RH.
        2:{ exists [], o, opts. split; [reflexivity|].
            split; [exact Dt|]. split; [exists []; constructor|]. cbn.
            right. exists data. auto. }
        apply (Next _ {| Data := data; seg_Pixels := mi_Pixels e; PHash := Some h |});
          try reflexivity; cbn; eauto.
        unfold afterOption. now rewrite Dt, CS.
      * apply (Next _ {| Data := data; seg_Pixels := mi_Pixels e; PHash := None |});
          try reflexivity; cbn; eauto.
        unfold afterOption. now rewrite Dt, CS.
Qed.

(** X21. [resToTranscodeData] accounts for every output.  It returns data
    only when ffmpeg delivered one result per option, and then there is
    one segment per rendition, in the order of the options, with the
    pixels ffmpeg counted for it, the bytes of its output file and (when a
    hash was asked for) the bytes of its hash file, each read from the
    file system as the removals of the earlier turns left it; there is one
    detection per detector, and the pixel count of the decoded input.  It
    returns an error (and no data) when the numbers of results and options
    differ, and otherwise exactly at the first rendition whose output or
    hash file cannot be read then, with the error of that read.  It never
    returns both, and never neither.  A nil result is dereferenced. *)
Theorem resToTranscodeData_accounts_for_outputs
    (x : Externals) (res : option TranscodeResults) (opts : list TranscodeOptions) :
  match resToTranscodeData x res opts with
  | Panicked v => res = None /\ v = nilPointerPanic
  | Returned (Some td, None) =>
      exists r,
        res = Some r /\ List.length (Encoded r) = List.length opts /\
        map seg_Pixels (Segments td)
        = map mi_Pixels (renditionResults opts (Encoded r)) /\
        delivered x (ReadFile x) opts (Segments td) /\
        Detections td = map DetectData (detectorResults opts (Encoded r)) /\
        Pixels td = mi_Pixels (Decoded r)
  | Returned (None, Some err) =>
      exists r,
        res = Some r /\
        ((List.length (Encoded r) <> List.length opts /\
          err = Errorf "lengths of results and options different" []) \/
         (List.length (Encoded r) = List.length opts /\
          exists before o after,
            opts = (before ++ o :: after)%list /\
            unreadableAt x (ReadFile x) before o err))
  | Returned _ => False
  end.
Proof.
  unfold resToTranscodeData. destruct res as [r|]; [|split; reflexivity].
  destruct (List.length (Encoded r) =? List.length opts)%nat eqn:L; cbn [negb].
  - apply Nat.eqb_eq in L.
    pose proof (@resToTranscodeData_loop_spec x opts (ReadFile x) (Encoded r) [] [] L)
      as H.
    destruct (resToTranscodeData_loop x (ReadFile x) opts (Encoded r) [] [])
      as [[sg dt]|err].
    + destruct H as (added & -> & P & F & ->). cbn.
      exists r. repeat split; assumption.
    + exists r. split; [reflexivity|]. right. split; assumption.
  - apply Nat.eqb_neq in L. exists r. split; [reflexivity|]. left. auto.
Qed.

Lemma resToTranscodeData_oneOfTwo (x : Externals) (res : option TranscodeResults)
    (opts : list TranscodeOptions) (r : option TranscodeData * option error) :
  resToTranscodeData x res opts = Returned r -> oneOfTwo r.
Proof.
  unfold resToTranscodeData. destruct res as [tr|]; [|discriminate].
  destruct (negb (List.length (Encoded tr) =? List.length opts)%nat).
  - intros H; injection H as <-. exact I.
  - destruct (resToTranscodeData_loop x (ReadFile x) opts (Encoded tr) [] [])
      as [[sg dt]|err];
      intros H; injection H as <-; exact I.
Qed.

(** What the statements after the call to ffmpeg make of its answer. *)
Lemma after_ffmpeg_oneOfTwo (x : Externals) (seqNo : Z) (parseErr : option error)
    (answer : Panics (option TranscodeResults * option error))
    (opts : list TranscodeOptions) (r : option TranscodeData * option error) :
  ('(res, err) <-! answer ;;
   match err with
   | Some err => Returned (None, Some err)
   | None =>
       _ <-! (if monitor_Enabled x && isNil parseErr
              then SegmentTranscoded x seqNo else Returned tt) ;;
       resToTranscodeData x res opts
   end) = Returned r ->
  oneOfTwo r.
Proof.
  destruct answer as [[res [err|]]|v]; cbn; try discriminate.
  - intros H; injection H as <-. exact I.
  - destruct (if monitor_Enabled x && isNil parseErr
              then SegmentTranscoded x seqNo else Returned tt); cbn;
      [|discriminate].
    apply resToTranscodeData_oneOfTwo.
Qed.

Lemma LocalTranscoder_body_oneOfTwo (x : Externals) (lt : LocalTranscoder)
    (md : SegTranscodingMetadata) (r : option TranscodeData * option error) :
  LocalTranscoder_Transcode_body x lt md = Returned r -> oneOfTwo r.
Proof.
  unfold LocalTranscoder_Transcode_body.
  destruct (DetectorEnabled md);
    [destruct (detectorsToTranscodeOptions x (workDir lt) Software
                 (DetectorProfiles md)); cbn; [|discriminate]|cbn];
    destruct (parseURI (Fname md)) as [[mid seqNo] parseErr];
    apply after_ffmpeg_oneOfTwo.
Qed.

Lemma NvidiaTranscoder_body_oneOfTwo (x : Externals) (nv : NvidiaTranscoder)
    (md : SegTranscodingMetadata) (r : option TranscodeData * option error) :
  NvidiaTranscoder_Transcode_body x nv md = Returned r -> oneOfTwo r.
Proof.
  unfold NvidiaTranscoder_Transcode_body.
  destruct (DetectorEnabled md);
    [destruct (detectorsToTranscodeOptions x (WorkDir x) Nvidia
                 (DetectorProfiles md)); cbn; [|discriminate]|cbn];
    destruct (parseURI (Fname md)) as [[mid seqNo] parseErr];
    apply after_ffmpeg_oneOfTwo.
Qed.

(** X22. [Transcode] never returns data together with an error, and it
    returns neither only in one case: when its statements panicked with a
    nil value.  This holds for [LocalTranscoder] and [NvidiaTranscoder]. *)
Theorem Transcode_data_or_error
    (x : Externals) (lt : LocalTranscoder) (nv : NvidiaTranscoder)
    (md : SegTranscodingMetadata) :
  match LocalTranscoder_Transcode x lt md with
  | (Some _, Some _) => False
  | (None, None) => LocalTranscoder_Transcode_body x lt md = Panicked AnyNil
  | _ => True
  end /\
  match NvidiaTranscoder_Transcode x nv md with
  | (Some _, Some _) => False
  | (None, None) => NvidiaTranscoder_Transcode_body x nv md = Panicked AnyNil
  | _ => True
  end.
Proof.
  unfold LocalTranscoder_Transcode, NvidiaTranscoder_Transcode. split.
  - pose proof (@LocalTranscoder_body_oneOfTwo x lt md) as H.
    destruct (LocalTranscoder_Transcode_body x lt md) as [[td err]|v].
    + specialize (H _ eq_refl). destruct td, err; cbn in *; try contradiction; auto.
    + destruct v; cbn; auto.
  - pose proof (@NvidiaTranscoder_body_oneOfTwo x nv md) as H.
    destruct (NvidiaTranscoder_Transcode_body x nv md) as [[td err]|v].
    + specialize (H _ eq_refl). destruct td, err; cbn in *; try contradiction; auto.
    + destruct v; cbn; auto.
Qed.

(** X23. An error that ffmpeg returns (without panicking) is returned by
    [Transcode] as it is, with no data: it is not wrapped into an
    [UnrecoverableError], and no output file is read.  (Detection is off
    or every detector profile can be converted, so that ffmpeg is
    called.) *)
Theorem ffmpeg_error_is_returned_as_is
    (x : Externals) (lt : LocalTranscoder) (nv : NvidiaTranscoder)
    (md : SegTranscodingMetadata) (res : option TranscodeResults) (err : error) :
  DetectorEnabled md = false \/
  forallb convertible (DetectorProfiles md) = true ->
  ((forall opts, Transcode3 x (softwareInput md) opts = Returned (res, Some err)) ->
   LocalTranscoder_Transcode x lt md = (None, Some err)) /\
  ((forall opts, session_Transcode x (nvidiaInput nv md) opts
                 = Returned (res, Some err)) ->
   NvidiaTranscoder_Transcode x nv md = (None, Some err)).
Proof.
  intros D. unfold softwareInput, nvidiaInput. split; intros F.
  - unfold LocalTranscoder_Transcode, LocalTranscoder_Transcode_body.
    destruct (DetectorEnabled md) eqn:E.
    + destruct D as [D|D]; [discriminate|].
      destruct (@detectors_return x (workDir lt) Software _ D) as [ds ->]. cbn.
      destruct (parseURI (Fname md)) as [[mid seqNo] parseErr].
      rewrite F. reflexivity.
    + cbn. destruct (parseURI (Fname md)) as [[mid seqNo] parseErr].
      rewrite F. reflexivity.
  - unfold NvidiaTranscoder_Transcode, NvidiaTranscoder_Transcode_body.
    destruct (DetectorEnabled md) eqn:E.
    + destruct D as [D|D]; [discriminate|].
      destruct (@detectors_return x (WorkDir x) Nvidia _ D) as [ds ->]. cbn.
      destruct (parseURI (Fname md)) as [[mid seqNo] parseErr].
      rewrite F. reflexivity.
    + cbn. destruct (parseURI (Fname md)) as [[mid seqNo] parseErr].
      rewrite F. reflexivity.
Qed.

Lemma ffmpeg_error_is_returned_as_is_witness :
  LocalTranscoder_Transcode
    (answeringFfmpeg (Returned (None, Some (External 12))) (Ok []))
    {| workDir := "/work" |} someSegment
  = (None, Some (External 12)).
Proof.
  refine (proj1 (@ffmpeg_error_is_returned_as_is
                   (answeringFfmpeg (Returned (None, Some (External 12))) (Ok []))
                   {| workDir := "/work" |} {| device := "0" |} someSegment
                   None (External 12) _) _).
  - left. reflexivity.
  - intros opts. reflexivity.
Defined.



(** *** Output names *)













(** When two outputs share a name the first turn removes the file and the
    second cannot read it: the transcode fails although ffmpeg delivered
    both renditions. *)
Lemma Transcode_shared_output_name :
  LocalTranscoder_Transcode
    (sameNameFfmpeg (Returned (Some twoRenditions, None)) (Ok [x00; x01]))
    {| workDir := "/work" |} twoProfiles
  = (None, Some (PathError "open" "/work/out_r.tempfile" ENOENT)).
Proof. reflexivity. Qed.

End MoreTranscoding.

(* ================================================================== *)
(** * The capability tests *)
(* ================================================================== *)

Section CapabilityTestFacts.
Import Go Core Renditions CapabilityTests.
Local Open Scope string_scope.
Local Open Scope Z_scope.
Local Open Scope list_scope.

Variable ct : CapabilityTables.
Variable tb : TestBench.

Lemma testOutcome_error (r : option TranscodeData * option error)
    (p v : bool) (err : option error) :
  testOutcome r = Returned (p, v, err) ->
  err <> None -> p = false /\ v = false.
Proof.
  destruct r as [td [e|]]; cbn.
  - intros H _. now inversion H.
  - destruct td; intros H N; inversion H; subst; contradiction.
Qed.

Lemma testOutcome_panics (r : option TranscodeData * option error) (v : any) :
  testOutcome r = Panicked v <-> r = (None, None) /\
    v = AnyError (RuntimeError "invalid memory address or nil pointer dereference").
Proof.
  destruct r as [[td|] [e|]]; cbn; split;
    try discriminate; try (intros [H _]; discriminate).
  - intros H. now inversion H.
  - intros [_ ->]. reflexivity.
Qed.

Lemma withRecover_nil (body : Panics (option TranscodeData * option error)) :
  (forall r, body = Returned r -> oneOfTwo r) ->
  withRecover body = (None, None) <-> body = Panicked AnyNil.
Proof.
  intros H. destruct body as [[td err]|v].
  - specialize (H _ eq_refl). rewrite withRecover_returned. split.
    + intros E. inversion E; subst. contradiction.
    + discriminate.
  - rewrite withRecover_panicked. destruct v; split; try discriminate; auto.
Qed.

(** X25. A test transcode crashes in exactly one case: a panic with a nil
    value inside [Transcode], which [Transcode] turns into a nil data
    without an error and the test then dereferences. *)
Theorem test_transcode_crashes_on_nil_panic
    (x : Externals) (dir fname : string) (profile : VideoProfile) (n : nat) :
  ((exists v, testSoftwareTranscode x dir fname profile n = Panicked v) <->
   LocalTranscoder_Transcode_body x {| workDir := dir |} (testMetadata fname profile n)
   = Panicked AnyNil) /\
  ((exists v, testNvidiaTranscode x dir fname profile n = Panicked v) <->
   NvidiaTranscoder_Transcode_body x {| device := dir |} (testMetadata fname profile n)
   = Panicked AnyNil).
Proof.
  unfold testSoftwareTranscode, testNvidiaTranscode,
    LocalTranscoder_Transcode, NvidiaTranscoder_Transcode.
  split.
  - rewrite <- (withRecover_nil (@LocalTranscoder_body_oneOfTwo x _ _)). split.
    + intros [v H]. now apply testOutcome_panics in H.
    + intros ->. eexists. reflexivity.
  - rewrite <- (withRecover_nil (@NvidiaTranscoder_body_oneOfTwo x _ _)). split.
    + intros [v H]. now apply testOutcome_panics in H.
    + intros ->. eexists. reflexivity.
Qed.

(** ** Subsequences *)

Lemma Subsequence_nil {A : Type} (l : list A) : Subsequence [] l.
Proof. induction l; constructor; assumption. Qed.

Lemma Subsequence_app {A : Type} (a b c d : list A) :
  Subsequence a b -> Subsequence c d -> Subsequence (a ++ c) (b ++ d).
Proof.
  induction 1; cbn; intros H'.
  - assumption.
  - apply sub_skip. auto.
  - apply sub_take. auto.
Qed.

Lemma Subsequence_skip_last {A : Type} (a b : list A) (x : A) :
  Subsequence a b -> Subsequence a (b ++ [x]).
Proof.
  intros H. rewrite <- (app_nil_r a).
  apply Subsequence_app; [assumption | apply sub_skip, sub_nil].
Qed.

Lemma Subsequence_take_last {A : Type} (a b : list A) (x : A) :
  Subsequence a b -> Subsequence (a ++ [x]) (b ++ [x]).
Proof.
  intros H. apply Subsequence_app; [assumption | apply sub_take, sub_nil].
Qed.

(** ** The loop of [forEachTranscoderSample] *)

Lemma segmentReady_untested (cap : Capability) :
  CapabilityTestLookup ct cap = None -> segmentReady ct tb cap = true.
Proof. unfold segmentReady. now intros ->. Qed.

(** An invariant [P] of the capabilities seen so far is kept by the loop,
    unless the handler stops it, and then [Q] holds. *)
Lemma forEachTranscoderSample_loop_invariant (S : Type)
    (handler : transcodeTestParams -> S -> Panics (S * continueLoop))
    (P Q : list Capability -> S -> Prop) :
  (forall done cap s, segmentReady ct tb cap = false ->
     P done s -> P (done ++ [cap]) s) ->
  (forall done cap s, Q done s -> Q (done ++ [cap]) s) ->
  (forall done params s s' goOn,
     P done s ->
     SegmentPath params = segmentPath tb ->
     segmentReady ct tb (Cap params) = true ->
     match CapabilityTestLookup ct (Cap params) with
     | Some capTest => TestAvailable params = true /\ OutProfile params = outProfile capTest
     | None => TestAvailable params = false
     end ->
     handler params s = Returned (s', goOn) ->
     if goOn then P (done ++ [Cap params]) s' else Q (done ++ [Cap params]) s') ->
  forall allCaps done params s s',
    SegmentPath params = segmentPath tb ->
    P done s ->
    forEachTranscoderSample_loop ct tb handler allCaps params s = Returned s' ->
    P (done ++ allCaps) s' \/ Q (done ++ allCaps) s'.
Proof.
  intros Skip Qmono Step.
  assert (Qapp : forall rest done s, Q done s -> Q (done ++ rest) s).
  { induction rest as [|c rest IH]; intros done s H.
    - now rewrite app_nil_r.
    - change (c :: rest) with ([c] ++ rest). rewrite app_assoc. auto. }
  induction allCaps as [|cap rest IH]; intros done params s s' Path Inv Run.
  - cbn in Run. inversion Run; subst. rewrite app_nil_r. now left.
  - change (cap :: rest) with ([cap] ++ rest). rewrite app_assoc.
    cbn [forEachTranscoderSample_loop] in Run.
    pose proof (fun p => Step done p s) as Step'.
    destruct (CapabilityTestLookup ct cap) as [capTest|] eqn:L.
    + assert (Next : forall p, SegmentPath p = segmentPath tb ->
                 segmentReady ct tb cap = false ->
                 forEachTranscoderSample_loop ct tb handler rest p s = Returned s' ->
                 P ((done ++ [cap]) ++ rest) s' \/ Q ((done ++ [cap]) ++ rest) s').
      { intros p Hp Hr Hrun. eapply IH; [exact Hp | apply Skip; eassumption | exact Hrun]. }
      unfold segmentReady in Next. rewrite L in Next.
      destruct (gzip_NewReader tb (inVideoData capTest)) as [z|e] eqn:G;
        [|refine (Next _ _ _ Run); [exact Path | reflexivity]].
      destruct (ioutil_ReadAll tb z) as [seg|e] eqn:R;
        [|refine (Next _ _ _ Run); [exact Path | reflexivity]].
      cbn [SegmentPath] in Run. rewrite Path in Run.
      destruct (ioutil_WriteFile tb (segmentPath tb) seg) eqn:W;
        [refine (Next _ _ _ Run); reflexivity|].
      match type of Run with
      | context [handler ?p s] =>
          specialize (Step' p); destruct (handler p s) as [[s1 goOn]|v] eqn:H
      end; [|discriminate].
      cbn [pbind] in Run.
      specialize (Step' s1 goOn Inv eq_refl). cbn [Cap] in Step'.
      unfold segmentReady in Step'. rewrite L, G, R, W in Step'.
      specialize (Step' eq_refl (conj eq_refl eq_refl) eq_refl).
      destruct goOn; cbn in Run.
      * eapply IH; [| exact Step' | exact Run]. reflexivity.
      * inversion Run; subst. right. now apply Qapp.
    + match type of Run with
      | context [handler ?p s] =>
          specialize (Step' p); destruct (handler p s) as [[s1 goOn]|v] eqn:H
      end; [|discriminate].
      cbn [pbind] in Run.
      specialize (Step' s1 goOn Inv Path). cbn [Cap] in Step'.
      unfold segmentReady in Step'. rewrite L in Step'.
      specialize (Step' eq_refl eq_refl eq_refl).
      destruct goOn; cbn in Run.
      * eapply IH; [| exact Step' | exact Run]. exact Path.
      * inversion Run; subst. right. now apply Qapp.
Qed.

(** ** The software test *)

(** X26. What [TestSoftwareTranscoderCapabilities] reports: the
    capabilities come in the order of the default and optional lists;
    each reported one either has no test or passed its test on its own
    segment; without a fatal error every capability without a test is
    reported; and the only fatal error is the one for a test that returned
    without an error and without a valid output. *)
Theorem TestSoftwareTranscoderCapabilities_report
    (tmpdir : string) (caps : list Capability) (fatalError : option error) :
  TestSoftwareTranscoderCapabilities ct tb tmpdir = Returned (caps, fatalError) ->
  Subsequence caps (allCapabilities ct) /\
  (forall cap, In cap caps -> softwarePasses ct tb tmpdir cap) /\
  match fatalError with
  | None =>
      forall cap, In cap (allCapabilities ct) ->
        CapabilityTestLookup ct cap = None -> In cap caps
  | Some e =>
      exists cap, In cap (allCapabilities ct) /\
        softwareComesBackEmpty ct tb tmpdir cap /\ e = emptyResultError cap
  end.
Proof.
  pose (P := fun (done : list Capability) (s : list Capability * option error) =>
               snd s = None /\ Subsequence (fst s) done /\
               (forall cap, In cap (fst s) -> softwarePasses ct tb tmpdir cap) /\
               (forall cap, In cap done -> CapabilityTestLookup ct cap = None ->
                            In cap (fst s))).
  pose (Q := fun (done : list Capability) (s : list Capability * option error) =>
               Subsequence (fst s) done /\
               (forall cap, In cap (fst s) -> softwarePasses ct tb tmpdir cap) /\
               exists cap, In cap done /\ softwareComesBackEmpty ct tb tmpdir cap /\
                           snd s = Some (emptyResultError cap)).
  intros Run. unfold TestSoftwareTranscoderCapabilities, forEachTranscoderSample in Run.
  apply (@forEachTranscoderSample_loop_invariant _ _ P Q) with (done := []) in Run.
  - cbn [app] in Run. fold (allCapabilities ct) in Run.
    destruct Run as [(F & Sub & Pass & All)|(Sub & Pass & cap & I & E & F)];
      cbn [fst snd] in *; subst; auto.
    repeat split; auto. exists cap. auto.
  - intros done cap [cs f] NotReady (F & Sub & Pass & All). cbn [fst snd] in *.
    repeat split; auto using Subsequence_skip_last.
    intros c I L. apply in_app_or in I. destruct I as [I|[<-|[]]]; auto.
    rewrite (segmentReady_untested _ L) in NotReady. discriminate.
  - intros done cap [cs f] (Sub & Pass & c & I & E & F). cbn [fst snd] in *.
    repeat split; auto using Subsequence_skip_last.
    exists c. repeat split; auto using in_or_app.
  - intros done params [cs f] [cs' f'] goOn (F & Sub & Pass & All) Path Ready Test H.
    cbn [fst snd] in *. subst f. unfold softwareHandler in H.
    assert (Old : forall c, In c (done ++ [Cap params]) ->
                    CapabilityTestLookup ct c = None -> c <> Cap params -> In c cs).
    { intros c I L N. apply in_app_or in I. destruct I as [I|[E|[]]]; auto.
      now elim N. }
    assert (Empty : forall capTest p v,
              CapabilityTestLookup ct (Cap params) = Some capTest ->
              testSoftwareTranscode (ffmpegOn tb (Cap params)) tmpdir (segmentPath tb)
                (outProfile capTest) 4 = Returned (p, v, None) ->
              p && v = false ->
              Q (done ++ [Cap params])
                (cs, Some (Errorf "empty result segment when testing for capability %d"
                             [formatInt (Cap params)]))).
    { intros capTest p v L E B. split; [|split]; cbn [fst snd];
        auto using Subsequence_skip_last.
      exists (Cap params). split; [|split]; auto using in_or_app, in_eq.
      exists capTest, p, v. auto. }
    destruct (CapabilityTestLookup ct (Cap params)) as [capTest|] eqn:L.
    + destruct Test as [T O]. rewrite T, Path, O in H. cbn [negb] in H.
      destruct (testSoftwareTranscode _ _ _ _ _) as [[[p v] [e|]]|x] eqn:E;
        cbn in H; try discriminate.
      * inversion H; subst. split; [|split; [|split]]; cbn [fst snd];
          auto using Subsequence_skip_last.
        intros c I L'. apply Old; congruence.
      * destruct p, v; cbn in H; inversion H; subst; cbn [fst snd];
          try (eapply Empty; [reflexivity | eassumption | reflexivity]).
        split; [|split; [|split]]; cbn [fst snd]; auto using Subsequence_take_last.
        -- intros c I. apply in_app_or in I. destruct I as [I|[<-|[]]]; auto.
           unfold softwarePasses. rewrite L. auto.
        -- intros c I L'. apply in_or_app. left. apply Old; congruence.
    + rewrite Test in H. cbn in H. inversion H; subst.
      split; [|split; [|split]]; cbn [fst snd]; auto using Subsequence_take_last.
      * intros c I. apply in_app_or in I. destruct I as [I|[<-|[]]]; auto.
        unfold softwarePasses. now rewrite L.
      * intros c I L'. apply in_or_app.
        destruct (Z.eq_dec c (Cap params)) as [->|N]; [right; apply in_eq|left; auto].
  - reflexivity.
  - split; [|split; [|split]]; cbn; auto using Subsequence_nil; intros c [].
Qed.

(** ** The test on Nvidia devices *)

Lemma testNvidiaTranscode_error (x : Externals) (device fname : string)
    (profile : VideoProfile) (n : nat) (p v : bool) (err : option error) :
  testNvidiaTranscode x device fname profile n = Returned (p, v, err) ->
  negb (isNil err) && p && v = false.
Proof.
  unfold testNvidiaTranscode. intros H. destruct err as [e|]; [|reflexivity].
  apply testOutcome_error in H; [|discriminate]. destruct H as [-> ->]. reflexivity.
Qed.

(** With no fatal error before, [transcodingFailed] leaves one only for a
    required capability. *)
Lemma transcodingFailed_spec (devices : list string) (params : transcodeTestParams)
    (run run' : bool) (fatalError : option error) :
  transcodingFailed ct tb devices params run None = Returned (run', fatalError) ->
  fatalError = if IsRequired ct params
               then Some (unsupportedError ct (Cap params)) else None.
Proof.
  unfold transcodingFailed, unsupportedError, Kind, Name. intros H.
  assert (E : forall m : Panics (option error),
            (forall f, m = Returned f -> f = None) ->
            (f <-! m ;;
             if IsRequired ct params then
               Returned (false,
                         Some (Errorf "%s %q is not supported on hardware"
                                 [(if IsRequired ct params then "required capability"
                                   else "optional capability");
                                  match CapabilityToName ct (Cap params) with
                                  | Ok name => name
                                  | Err _ => "unknown"
                                  end]))
             else Returned (false, f)) = Returned (run', fatalError) ->
            fatalError = if IsRequired ct params
                         then Some (Errorf "%s %q is not supported on hardware"
                                      ["required capability";
                                       match CapabilityToName ct (Cap params) with
                                       | Ok name => name
                                       | Err _ => "unknown"
                                       end])
                         else None).
  { intros [f|v] N; cbn [pbind]; [|discriminate].
    rewrite (N f eq_refl). destruct (IsRequired ct params); intros R; now inversion R. }
  eapply E; [|exact H]. clear E H. intros f.
  destruct run; [|intros R; now inversion R].
  destruct devices as [|device0 rest]; [discriminate|].
  destruct (testNvidiaTranscode _ _ _ _ _) as [[[p v] err]|x] eqn:T;
    cbn [pbind]; [|discriminate].
  rewrite (testNvidiaTranscode_error _ _ _ _ _ T). intros R. now inversion R.
Qed.

(** The loop over the devices, entered without a fatal error: it goes on
    with the capability added (every remaining device passed) or left out
    (an optional capability), or it stops on a required capability. *)
Lemma nvidiaDevices_loop_spec (devices : list string) (params : transcodeTestParams)
    (remaining : list string) :
  forall (run : bool) (caps caps' : list Capability) (fatalError : option error)
         (goOn : bool),
  nvidiaDevices_loop ct tb devices params remaining run caps None
  = Returned (caps', fatalError, goOn) ->
  (goOn = true /\ fatalError = None /\
   ((caps' = caps ++ [Cap params] /\
     forall device, In device remaining ->
       testNvidiaTranscode (ffmpegOn tb (Cap params)) device (SegmentPath params)
         (OutProfile params) 4 = Returned (true, true, None)) \/
    (caps' = caps /\ IsRequired ct params = false))) \/
  (goOn = false /\ caps' = caps /\ IsRequired ct params = true /\
   fatalError = Some (unsupportedError ct (Cap params))).
Proof.
  assert (Failed : forall (run : bool) (caps caps' : list Capability)
                          (fatalError : option error) (goOn : bool),
            pbind (transcodingFailed ct tb devices params run None)
              (fun r : bool * option error =>
                 let (_, f) := r in Returned (caps, f, isNil f))
            = Returned (caps', fatalError, goOn) ->
            (goOn = true /\ fatalError = None /\
             caps' = caps /\ IsRequired ct params = false) \/
            (goOn = false /\ caps' = caps /\ IsRequired ct params = true /\
             fatalError = Some (unsupportedError ct (Cap params)))).
  { intros run caps caps' fatalError goOn H.
    destruct (transcodingFailed ct tb devices params run None) as [[r f]|v] eqn:T;
      cbn [pbind] in H; [|discriminate].
    apply transcodingFailed_spec in T. inversion H; subst.
    destruct (IsRequired ct params); [right|left]; auto. }
  induction remaining as [|device rest IH]; intros run caps caps' fatalError goOn H.
  - cbn in H. inversion H; subst. left. repeat split. left. split; [reflexivity|].
    intros device [].
  - cbn [nvidiaDevices_loop] in H.
    destruct (testNvidiaTranscode _ device _ _ _) as [[[p v] err]|x] eqn:T;
      cbn [pbind] in H; [|discriminate].
    destruct err as [e|]; cbn [isNil negb] in H.
    + apply Failed in H. destruct H as [(-> & -> & -> & R)|H]; auto.
      left. auto.
    + destruct p, v; cbn [negb orb] in H;
        try (apply Failed in H; destruct H as [(-> & -> & -> & R)|H]; auto;
             left; now auto).
      apply IH in H. destruct H as [(-> & -> & [[-> All]|[-> R]])|H]; auto.
      * left. repeat split. left. split; [reflexivity|].
        intros d [<-|I]; auto.
      * left. auto.
Qed.

(** What holds of the result of [TestTranscoderCapabilities]. *)
Lemma TestTranscoderCapabilities_invariant
    (devices : list string) (caps : list Capability) (fatalError : option error) :
  TestTranscoderCapabilities ct tb devices = Returned (caps, fatalError) ->
  Subsequence caps (allCapabilities ct) /\
  (forall cap, In cap caps -> nvidiaPasses ct tb devices cap) /\
  ((fatalError = None /\
    forall cap, In cap (allCapabilities ct) ->
      CapabilityTestLookup ct cap = None -> In cap caps) \/
   (exists cap, In cap (allCapabilities ct) /\
      CapabilityTestLookup ct cap <> None /\
      InArray ct cap (DefaultCapabilities ct) = true /\
      fatalError = Some (unsupportedError ct cap))).
Proof.
  pose (P := fun (done : list Capability) (s : list Capability * option error) =>
               snd s = None /\ Subsequence (fst s) done /\
               (forall cap, In cap (fst s) -> nvidiaPasses ct tb devices cap) /\
               (forall cap, In cap done -> CapabilityTestLookup ct cap = None ->
                            In cap (fst s))).
  pose (Q := fun (done : list Capability) (s : list Capability * option error) =>
               Subsequence (fst s) done /\
               (forall cap, In cap (fst s) -> nvidiaPasses ct tb devices cap) /\
               exists cap, In cap done /\ CapabilityTestLookup ct cap <> None /\
                           InArray ct cap (DefaultCapabilities ct) = true /\
                           snd s = Some (unsupportedError ct cap)).
  intros Run. unfold TestTranscoderCapabilities, forEachTranscoderSample in Run.
  apply (@forEachTranscoderSample_loop_invariant _ _ P Q) with (done := []) in Run.
  - cbn [app] in Run. fold (allCapabilities ct) in Run.
    destruct Run as [(F & Sub & Pass & All)|(Sub & Pass & cap & I & E & F)];
      cbn [fst snd] in *; subst; auto.
    split; [|split]; auto. right. exists cap. auto.
  - intros done cap [cs f] NotReady (F & Sub & Pass & All). cbn [fst snd] in *.
    split; [|split; [|split]]; cbn [fst snd]; auto using Subsequence_skip_last.
    intros c I L. apply in_app_or in I. destruct I as [I|[<-|[]]]; auto.
    rewrite (segmentReady_untested _ L) in NotReady. discriminate.
  - intros done cap [cs f] (Sub & Pass & c & I & E & F). cbn [fst snd] in *.
    split; [|split]; cbn [fst snd]; auto using Subsequence_skip_last.
    exists c. split; auto using in_or_app.
  - intros done params [cs f] [cs' f'] goOn (F & Sub & Pass & All) Path Ready Test H.
    cbn [fst snd] in *. subst f. unfold nvidiaHandler in H.
    assert (Old : forall c, In c (done ++ [Cap params]) ->
                    CapabilityTestLookup ct c = None -> c <> Cap params -> In c cs).
    { intros c I L N. apply in_app_or in I. destruct I as [I|[E|[]]]; auto.
      now elim N. }
    destruct (CapabilityTestLookup ct (Cap params)) as [capTest|] eqn:L.
    + destruct Test as [T O]. rewrite T in H. cbn [negb] in H.
      apply nvidiaDevices_loop_spec in H. rewrite Path, O in H.
      destruct H as [(-> & -> & [[-> All']|[-> R]])|(-> & -> & R & ->)].
      * split; [|split; [|split]]; cbn [fst snd]; auto using Subsequence_take_last.
        -- intros c I. apply in_app_or in I. destruct I as [I|[<-|[]]]; auto.
           unfold nvidiaPasses. rewrite L. auto.
        -- intros c I L'. apply in_or_app. left. apply Old; congruence.
      * split; [|split; [|split]]; cbn [fst snd]; auto using Subsequence_skip_last.
        intros c I L'. apply Old; congruence.
      * split; [|split]; cbn [fst snd]; auto using Subsequence_skip_last.
        exists (Cap params). split; [|split; [|split]]; auto using in_or_app, in_eq.
        congruence.
    + rewrite Test in H. cbn in H. inversion H; subst.
      split; [|split; [|split]]; cbn [fst snd]; auto using Subsequence_take_last.
      * intros c I. apply in_app_or in I. destruct I as [I|[<-|[]]]; auto.
        unfold nvidiaPasses. now rewrite L.
      * intros c I L'. apply in_or_app.
        destruct (Z.eq_dec c (Cap params)) as [->|N]; [right; apply in_eq|left; auto].
  - reflexivity.
  - split; [|split; [|split]]; cbn; auto using Subsequence_nil; intros c [].
Qed.

(** X27. What [TestTranscoderCapabilities] reports: the capabilities come
    in the order of the default and optional lists; each reported one
    either has no test or passed its test, with four renditions, on every
    device of the list; and without a fatal error every capability without
    a test is reported. *)
Theorem TestTranscoderCapabilities_report
    (devices : list string) (caps : list Capability) (fatalError : option error) :
  TestTranscoderCapabilities ct tb devices = Returned (caps, fatalError) ->
  Subsequence caps (allCapabilities ct) /\
  (forall cap, In cap caps -> nvidiaPasses ct tb devices cap) /\
  (fatalError = None ->
   forall cap, In cap (allCapabilities ct) ->
     CapabilityTestLookup ct cap = None -> In cap caps).
Proof.
  intros Run. apply TestTranscoderCapabilities_invariant in Run.
  destruct Run as (Sub & Pass & [[_ All]|(cap & _ & _ & _ & F)]).
  - auto.
  - split; [|split]; auto. intros N. congruence.
Qed.

(** X28. The only fatal error of [TestTranscoderCapabilities] is the
    "not supported on hardware" error for a required capability that has
    a test.  The error for the limit of simultaneous NVENC sessions is
    never returned: the three-rendition test sets it only when it fails
    and produces valid output at once, and a failed test transcode returns
    no output. *)
Theorem TestTranscoderCapabilities_only_fatal_error
    (devices : list string) (caps : list Capability) (e : error) :
  TestTranscoderCapabilities ct tb devices = Returned (caps, Some e) ->
  e <> restrictedError /\
  exists cap, In cap (allCapabilities ct) /\
    CapabilityTestLookup ct cap <> None /\
    InArray ct cap (DefaultCapabilities ct) = true /\
    e = unsupportedError ct cap.
Proof.
  intros Run. apply TestTranscoderCapabilities_invariant in Run.
  destruct Run as (_ & _ & [[F _]|(cap & I & L & R & F)]); [discriminate|].
  inversion F; subst. split; [discriminate|]. exists cap. auto.
Qed.

(** X29. Without any device nothing is transcoded: every capability whose
    test segment (if it has one) reaches the segment file is reported, and
    there is no fatal error. *)
Theorem TestTranscoderCapabilities_without_devices :
  TestTranscoderCapabilities ct tb []
  = Returned (filter (segmentReady ct tb) (allCapabilities ct), None).
Proof.
  assert (G : forall (caps : list Capability) (p : transcodeTestParams)
                   (acc : list Capability),
             SegmentPath p = segmentPath tb ->
             forEachTranscoderSample_loop ct tb (nvidiaHandler ct tb []) caps p
               (acc, None)
             = Returned (acc ++ filter (segmentReady ct tb) caps, None)).
  { induction caps as [|cap rest IH]; intros p acc Path.
    - cbn. now rewrite app_nil_r.
    - cbn [forEachTranscoderSample_loop filter].
      pose proof (eq_refl (segmentReady ct tb cap)) as Ready.
      unfold segmentReady at 1 in Ready.
      destruct (CapabilityTestLookup ct cap) as [capTest|] eqn:L.
      + destruct (gzip_NewReader tb (inVideoData capTest)) as [z|e];
          [|rewrite <- Ready; now apply IH].
        destruct (ioutil_ReadAll tb z) as [seg|e];
          [|rewrite <- Ready; now apply IH].
        cbn [SegmentPath]. rewrite Path.
        destruct (ioutil_WriteFile tb (segmentPath tb) seg);
          rewrite <- Ready; [now apply IH|].
        cbn. rewrite IH by reflexivity. now rewrite <- app_assoc.
      + rewrite <- Ready. cbn. rewrite IH by exact Path. now rewrite <- app_assoc. }
  unfold TestTranscoderCapabilities, forEachTranscoderSample.
  rewrite G by reflexivity. reflexivity.
Qed.

End CapabilityTestFacts.

Section CapabilityTestWitnesses.
Import Go Core Renditions CapabilityTests.
Local Open Scope string_scope.
Local Open Scope Z_scope.
Local Open Scope list_scope.

Lemma TestSoftwareTranscoderCapabilities_report_witness :
  Subsequence [1; 3] (allCapabilities sampleTables) /\
  (forall cap, In cap [1; 3] -> softwarePasses sampleTables workingBench "/work" cap) /\
  forall cap, In cap (allCapabilities sampleTables) ->
    CapabilityTestLookup sampleTables cap = None -> In cap [1; 3].
Proof.
  exact (@TestSoftwareTranscoderCapabilities_report sampleTables workingBench
           "/work" [1; 3] None eq_refl).
Defined.

Lemma TestTranscoderCapabilities_report_witness :
  Subsequence [1; 3] (allCapabilities sampleTables) /\
  (forall cap, In cap [1; 3] -> nvidiaPasses sampleTables workingBench ["0"; "1"] cap) /\
  (@None error = None ->
   forall cap, In cap (allCapabilities sampleTables) ->
     CapabilityTestLookup sampleTables cap = None -> In cap [1; 3]).
Proof.
  exact (@TestTranscoderCapabilities_report sampleTables workingBench
           ["0"; "1"] [1; 3] None eq_refl).
Defined.

Lemma TestTranscoderCapabilities_only_fatal_error_witness :
  unsupportedError sampleTables 1 <> restrictedError /\
  exists cap, In cap (allCapabilities sampleTables) /\
    CapabilityTestLookup sampleTables cap <> None /\
    InArray sampleTables cap (DefaultCapabilities sampleTables) = true /\
    unsupportedError sampleTables 1 = unsupportedError sampleTables cap.
Proof.
  exact (@TestTranscoderCapabilities_only_fatal_error sampleTables failingBench
           ["0"] [] (unsupportedError sampleTables 1) eq_refl).
Defined.

End CapabilityTestWitnesses.
